(** * Screen-to-Song audio engine

    A shallow embedding of [backend/audio_processor.py]: the mood/scale
    resolver, the singing-timing transform, the vocal effects stage, the
    instrument synthesizer, the arrangement mixer, the sidechain ducking
    engine and the mix-and-master stage.

    Conventions.
    - A Python [int] is a [Z]; a Python or NumPy float is a rational [Q]
      (exact arithmetic: the rounding of IEEE floats is not modelled); a
      one-dimensional [np.ndarray] is a [list Q]; a [str] is a [string] of
      ASCII characters.
    - A Python exception is a [Raise] result; [try/except] is a match on it.
    - Functions of libraries outside the repository (NumPy's transcendental
      functions, librosa, pedalboard, soundfile, scipy, the random
      generators) are the fields of the class [Externals]. *)

From Stdlib Require Import String Ascii ZArith QArith Qround Qabs Qminmax Bool Lia Lqa List.
Import ListNotations.

(** ** Python results *)

Inductive exn : Type :=
| ValueError
| IndexError
| ZeroDivisionError
| OSError.

Inductive result (A : Type) : Type :=
| Ok (a : A)
| Raise (e : exn).

Arguments Ok {A} a.
Arguments Raise {A} e.

Definition bind {A B : Type} (r : result A) (k : A -> result B) : result B :=
  match r with
  | Ok a => k a
  | Raise e => Raise e
  end.

Declare Scope py_scope.
Delimit Scope py_scope with py.
Notation "x <- r ;; k" := (bind r (fun x => k))
  (at level 61, r at next level, right associativity) : py_scope.
Notation "' p <- r ;; k" := (bind r (fun x => let p := x in k))
  (at level 61, p pattern, r at next level, right associativity) : py_scope.

Definition is_ok {A : Type} (r : result A) : bool :=
  match r with Ok _ => true | Raise _ => false end.

(** ** Numbers *)

Definition SAMPLE_RATE : Z := 44100.

(** [int(x)] on a float: truncation toward zero. *)
Definition py_int (x : Q) : Z := Z.quot (Qnum x) (Zpos (Qden x)).

(** [np.ceil]. *)
Definition np_ceil (x : Q) : Z := Qceiling x.

Definition Qltb (x y : Q) : bool := negb (Qle_bool y x).

(** Python's [max(a, b)]: the first argument unless the second is larger. *)
Definition py_max (a b : Q) : Q := if Qltb a b then b else a.
Definition py_min_Z (a b : Z) : Z := if (b <? a)%Z then b else a.

(** ** 4.1 Mood/Scale resolver *)

Open Scope string_scope.

Definition lower_char (c : ascii) : ascii :=
  let n := nat_of_ascii c in
  if (65 <=? n)%nat && (n <=? 90)%nat then ascii_of_nat (n + 32) else c.

(** [str.lower()] on ASCII text. *)
Fixpoint lower (s : string) : string :=
  match s with
  | EmptyString => EmptyString
  | String c s' => String (lower_char c) (lower s')
  end.

(** [w in s] for strings. *)
Fixpoint contains (w s : string) : bool :=
  prefix w s ||
  match s with
  | EmptyString => false
  | String _ s' => contains w s'
  end.

(** [any(w in s for w in ws)]. *)
Definition any_in (ws : list string) (s : string) : bool :=
  existsb (fun w => contains w s) ws.

Definition calm_words := ["calm"; "peaceful"; "serene"; "relaxed"; "lo-fi"].
Definition energetic_words := ["energetic"; "exciting"; "upbeat"; "edm"; "pop"].
Definition dark_words := ["dark"; "mysterious"; "ominous"; "haunting"].
Definition cosmic_words := ["cosmic"; "ethereal"; "dreamy"; "ambient"; "jazz"].

Definition scale : Type := (Q * list Q)%type.

Definition calm_scale : scale := (220, [220; 247; 277; 330; 370])%Q.
Definition energetic_scale : scale := (440, [440; 494; 523; 587; 659])%Q.
Definition dark_scale : scale := (110, [110; 123; 131; 147; 165])%Q.
Definition cosmic_scale : scale := (330, [330; 370; 415; 440; 494])%Q.
Definition default_scale : scale := (26163 # 100, [262; 294; 330; 349; 392])%Q.

(** The argument is [Some s] for a [str] and [None] for any other object. *)
Definition get_melody_freqs_for_mood (mood : option string) : scale :=
  let mood_lower := match mood with Some s => lower s | None => "neutral" end in
  if any_in calm_words mood_lower then calm_scale
  else if any_in energetic_words mood_lower then energetic_scale
  else if any_in dark_words mood_lower then dark_scale
  else if any_in cosmic_words mood_lower then cosmic_scale
  else default_scale.

(** The genre table, in the insertion order the loop visits it. *)
Definition tempos : list (string * Z) :=
  [("lo-fi", 85); ("jazz", 100); ("classical", 90); ("pop", 120);
   ("edm", 128); ("rock", 130); ("hip-hop", 90); ("r&b", 95);
   ("ambient", 70); ("funk", 110)]%Z.

Fixpoint first_tempo (table : list (string * Z)) (genre_lower : string) : Z :=
  match table with
  | [] => 120
  | (key, bpm) :: rest =>
      if contains key genre_lower then bpm else first_tempo rest genre_lower
  end.

Definition get_tempo_for_genre (genre : string) : Z :=
  let genre_lower := if String.eqb genre "" then "pop" else lower genre in
  first_tempo tempos genre_lower.

(** *** The resolver in the words of the specification *)

(** [s] mentions a keyword of group [g]: some keyword occurs as a substring
    of the lower-cased string. *)
Definition mentions (g : list string) (s : string) : Prop :=
  exists w a b, In w g /\ lower s = a ++ w ++ b.

Definition keyword_groups : list (list string * scale) :=
  [(calm_words, calm_scale); (energetic_words, energetic_scale);
   (dark_words, dark_scale); (cosmic_words, cosmic_scale)].

(** First match wins, in the order of [keyword_groups]; the default scale
    when no group is mentioned. *)
Definition resolves_to (s : string) (sc : scale) : Prop :=
  (exists before g after,
      keyword_groups = (before ++ (g, sc) :: after)%list /\
      mentions g s /\
      forall g' sc', In (g', sc') before -> ~ mentions g' s) \/
  ((forall g sc', In (g, sc') keyword_groups -> ~ mentions g s) /\
   sc = default_scale).


Close Scope string_scope.

(** ** NumPy arrays as lists *)

Open Scope Q_scope.

Definition zeros (n : nat) : list Q := repeat 0 n.
Definition ones (n : nat) : list Q := repeat 1 n.

Fixpoint map2 {A B C : Type} (f : A -> B -> C) (a : list A) (b : list B) : list C :=
  match a, b with
  | x :: a', y :: b' => f x y :: map2 f a' b'
  | _, _ => []
  end.

(** An elementwise binary operator on two one-dimensional arrays, with
    NumPy's broadcasting of a length-one operand. *)
Definition binop (op : Q -> Q -> Q) (a b : list Q) : result (list Q) :=
  if (length a =? length b)%nat then Ok (map2 op a b)
  else match a, b with
       | [x], _ => Ok (map (op x) b)
       | _, [y] => Ok (map (fun x => op x y) a)
       | _, _ => Raise ValueError
       end.

Definition vadd := binop Qplus.
Definition vmul := binop Qmult.

(** [a * c] and [a / c] for a scalar [c]. *)
Definition vscale (a : list Q) (c : Q) : list Q := map (fun x => x * c) a.
Definition vdiv (a : list Q) (c : Q) : list Q := map (fun x => x / c) a.

(** A slice bound [i] of [a[i:j]] on an array of length [len]. *)
Definition norm_index (len i : Z) : Z :=
  if (i <? 0)%Z then Z.max 0 (i + len) else Z.min i len.

(** The positions [lo, hi) selected by [a[start:stop]]; [None] is an omitted
    bound. *)
Definition slice_bounds (len : nat) (start stop : option Z) : nat * nat :=
  let n := Z.of_nat len in
  let lo := match start with None => 0%Z | Some i => norm_index n i end in
  let hi := match stop with None => n | Some j => norm_index n j end in
  (Z.to_nat lo, Z.to_nat hi).

Definition get_slice {A : Type} (a : list A) (start stop : option Z) : list A :=
  let '(lo, hi) := slice_bounds (length a) start stop in
  firstn (hi - lo) (skipn lo a).

(** The value of a slice assignment, broadcast to the [m] selected
    positions: the shapes agree, or the value has length one. *)
Definition broadcast_to (m : nat) (v : list Q) : result (list Q) :=
  if (length v =? m)%nat then Ok v
  else match v with
       | [x] => Ok (repeat x m)
       | _ => Raise ValueError
       end.

Definition splice {A : Type} (a : list A) (lo m : nat) (v : list A) : list A :=
  firstn lo a ++ v ++ skipn (lo + m) a.

(** [a[start:stop] = v]. *)
Definition set_slice (a : list Q) (start stop : option Z) (v : list Q)
  : result (list Q) :=
  let '(lo, hi) := slice_bounds (length a) start stop in
  (v' <- broadcast_to (hi - lo) v ;;
   Ok (splice a lo (hi - lo) v'))%py.

(** [a[start:stop] = x] for a scalar [x]. *)
Definition fill_slice (a : list Q) (start stop : option Z) (x : Q) : list Q :=
  let '(lo, hi) := slice_bounds (length a) start stop in
  splice a lo (hi - lo) (repeat x (hi - lo)).

(** [a[start:stop] op= v], in place. *)
Definition iop_slice (op : Q -> Q -> Q) (a : list Q) (start stop : option Z)
  (v : list Q) : result (list Q) :=
  let '(lo, hi) := slice_bounds (length a) start stop in
  (v' <- broadcast_to (hi - lo) v ;;
   Ok (splice a lo (hi - lo) (map2 op (get_slice a start stop) v')))%py.

(** [a[i]] for a non-negative or negative index. *)
Definition get_item {A : Type} (a : list A) (i : Z) : result A :=
  let n := Z.of_nat (length a) in
  let j := if (i <? 0)%Z then (i + n)%Z else i in
  if (j <? 0)%Z then Raise IndexError
  else match nth_error a (Z.to_nat j) with
       | Some x => Ok x
       | None => Raise IndexError
       end.

(** [np.linspace(a, b, num)]. *)
Definition np_linspace (a b : Q) (num : Z) : result (list Q) :=
  if (num <? 0)%Z then Raise ValueError
  else if (num =? 1)%Z then Ok [a]
  else
    let step := (b - a) / inject_Z (num - 1) in
    Ok (map (fun k => inject_Z (Z.of_nat k) * step + a) (seq 0 (Z.to_nat num))).

(** [range(start, stop, step)]. *)
Definition py_range (start stop step : Z) : result (list Z) :=
  if (step =? 0)%Z then Raise ValueError
  else
    let count :=
      if (0 <? step)%Z then ((stop - start + step - 1) / step)%Z
      else ((start - stop - step - 1) / (- step))%Z in
    Ok (map (fun k => (start + Z.of_nat k * step)%Z) (seq 0 (Z.to_nat count))).

(** [np.arange(start, stop, step)] on floats. *)
Definition np_arange (start stop step : Q) : result (list Q) :=
  if Qeq_bool step 0 then Raise ValueError
  else
    let count := Qceiling ((stop - start) / step) in
    Ok (map (fun k => start + inject_Z (Z.of_nat k) * step) (seq 0 (Z.to_nat count))).

Definition np_sum (a : list Q) : Q := fold_left Qplus a 0.

(** [np.mean]; on an empty array NumPy yields NaN, which [Q] lacks: the
    embedding yields [0] there. *)
Definition np_mean (a : list Q) : Q := np_sum a / inject_Z (Z.of_nat (length a)).

(** [np.max(np.abs(a))]: a [ValueError] on an empty array. *)
Definition np_max_abs (a : list Q) : result Q :=
  match a with
  | [] => Raise ValueError
  | x :: rest => Ok (fold_left (fun m y => Qmax m (Qabs y)) rest (Qabs x))
  end.

(** [np.clip(a, lo, hi)]. *)
Definition np_clip (a : list Q) (lo hi : Q) : list Q :=
  map (fun x => Qmin (Qmax x lo) hi) a.

(** [np.pad(a, (0, k))]: [k] zeros appended; a negative [k] is refused. *)
Definition np_pad_right (a : list Q) (k : Z) : result (list Q) :=
  if (k <? 0)%Z then Raise ValueError else Ok (a ++ zeros (Z.to_nat k)).

Definition len {A : Type} (a : list A) : Z := Z.of_nat (length a).

(** [np.zeros(n)]. *)
Definition np_zeros (n : Z) : result (list Q) :=
  if (n <? 0)%Z then Raise ValueError else Ok (zeros (Z.to_nat n)).

(** [np.concatenate] refuses an empty sequence of arrays. *)
Definition np_concatenate (parts : list (list Q)) : result (list Q) :=
  match parts with
  | [] => Raise ValueError
  | _ => Ok (concat parts)
  end.

(** [np.cumsum]. *)
Fixpoint cumsum_from (acc : Q) (a : list Q) : list Q :=
  match a with
  | [] => []
  | x :: rest => (acc + x) :: cumsum_from (acc + x) rest
  end.
Definition np_cumsum (a : list Q) : list Q := cumsum_from 0 a.

(** Float division [a / b] of Python scalars. *)
Definition py_div (a b : Q) : result Q :=
  if Qeq_bool b 0 then Raise ZeroDivisionError else Ok (a / b).

(** [xs * k] for a list and an int, and [enumerate]. *)
Definition list_mul {A : Type} (xs : list A) (k : Z) : list A :=
  concat (repeat xs (Z.to_nat k)).
Definition enumerate {A : Type} (xs : list A) : list (Z * A) :=
  combine (map Z.of_nat (seq 0 (length xs))) xs.

(** ** Libraries outside the repository *)

(** The stages of a pedalboard, with the parameters the source gives them. *)
Inductive plugin : Type :=
| Compressor (threshold_db ratio attack_ms release_ms : Q)
| Chorus (rate_hz depth centre_delay_ms feedback mix : Q)
| Reverb (room_size damping wet_level dry_level width : Q)
| Gain (gain_db : Q)
| HighpassFilter (cutoff_frequency_hz : Q)
| LowpassFilter (cutoff_frequency_hz : Q).

(** The file system: the bytes stored under each path. *)
Definition fs : Type := string -> option (list Byte.byte).

(** What [scipy.io.wavfile.read] returns: a one- or two-dimensional array,
    and whether its dtype is [int16]. *)
Inductive wav_array : Type :=
| Wav1D (is_int16 : bool) (samples : list Q)
| Wav2D (is_int16 : bool) (frames : list (list Q)).

Class Externals : Type := {
  (* numpy *)
  np_pi : Q;
  np_sin : Q -> Q;
  np_exp : Q -> Q;
  np_sqrt : Q -> Q;
  np_log2 : Q -> Q;
  (* the hidden generator of the [random] module, and [random.random()] *)
  py_rng : Type;
  random_random : py_rng -> Q * py_rng;
  (* the hidden generator of [np.random], one standard normal draw *)
  np_rng : Type;
  standard_normal : np_rng -> Q * np_rng;
  (* librosa.effects *)
  time_stretch : list Q -> Q -> result (list Q);
  pitch_shift : list Q -> Z -> Q -> result (list Q);
  (* pedalboard: a board applied to a buffer at a sample rate *)
  run_board : list plugin -> list Q -> Z -> result (list Q);
  (* audio file input and output *)
  librosa_load : fs -> string -> Z -> result (list Q * Z);
  sf_write : fs -> string -> list Q -> Z -> result unit * fs;
  wavfile_read : fs -> string -> result (Z * wav_array);
  wavfile_write : fs -> string -> Z -> list Z -> result unit * fs
}.

(** ** Process state and the monad of effectful code *)

(** The outcome of a loop body: go on, or [break]. *)
Inductive step (S : Type) : Type :=
| Next (s : S)
| Break (s : S).
Arguments Next {S} s.
Arguments Break {S} s.

(** The loop state a body hands on. *)
Definition step_state {S : Type} (st : step S) : S :=
  match st with
  | Next s => s
  | Break s => s
  end.

Section Engine.

Context {ext : Externals}.

(** What a call can read and change besides its arguments: the files and the
    two module-level random generators. *)
Record world : Type := World {
  files : fs;
  random_state : py_rng;
  np_random_state : np_rng
}.

Definition py (A : Type) : Type := world -> result A * world.

Definition ret {A : Type} (a : A) : py A := fun w => (Ok a, w).

Definition bind_py {A B : Type} (c : py A) (k : A -> py B) : py B :=
  fun w =>
    match c w with
    | (Ok a, w') => k a w'
    | (Raise e, w') => (Raise e, w')
    end.

Definition lift {A : Type} (r : result A) : py A := fun w => (r, w).

Notation "x <~ c ;; k" := (bind_py c (fun x => k))
  (at level 61, c at next level, right associativity).
Notation "' p <~ c ;; k" := (bind_py c (fun x => let p := x in k))
  (at level 61, p pattern, c at next level, right associativity).

(** [for x in xs: body], with the loop's variables as the state [s]. *)
Fixpoint for_each {A S : Type} (xs : list A) (body : A -> S -> py (step S))
  (s : S) : py S :=
  match xs with
  | [] => ret s
  | x :: rest =>
      fun w =>
        match body x s w with
        | (Ok (Next s'), w') => for_each rest body s' w'
        | (Ok (Break s'), w') => (Ok s', w')
        | (Raise e, w') => (Raise e, w')
        end
  end.

(** [random.uniform(a, b)], as the standard library defines it. *)
Definition random_uniform (a b : Q) : py Q :=
  fun w =>
    let '(u, g) := random_random (random_state w) in
    (Ok (a + (b - a) * u),
     World (files w) g (np_random_state w)).

(** [np.random.randn(n)]: [n] successive draws. *)
Fixpoint randn_from (n : nat) (g : np_rng) : list Q * np_rng :=
  match n with
  | O => ([], g)
  | S n' =>
      let '(x, g') := standard_normal g in
      let '(xs, g'') := randn_from n' g' in
      (x :: xs, g'')
  end.

Definition np_random_randn (n : nat) : py (list Q) :=
  fun w =>
    let '(xs, g) := randn_from n (np_random_state w) in
    (Ok xs, World (files w) (random_state w) g).

(** ** 4.2 Singing-timing transform *)

Definition _apply_singing_timing (y : list Q) (sr : Z) : py (list Q) :=
  let segment_len := py_int ((3 # 10) * inject_Z sr) in
  starts <~ lift (py_range 0 (len y) segment_len) ;;
  let segments :=
    map (fun i => get_slice y (Some i) (Some (i + segment_len)%Z)) starts in
  processed <~
    for_each segments
      (fun seg processed =>
         if (len seg <? 1000)%Z then ret (Next (processed ++ [seg]))
         else
           stretch <~ random_uniform (75 # 100) (13 # 10) ;;
           stretched <~ lift (time_stretch seg stretch) ;;
           ret (Next (processed ++ [stretched])))
      [] ;;
  lift (np_concatenate processed).

(** ** 4.3, 4.4 Pitch, vibrato and the vocal effects chain *)

(** Lines 77 to 81: the number of semitones the vocal is shifted by. *)
Definition semitones_shift (mood : option string) : result Q :=
  let '(base_freq, melody_freqs) := get_melody_freqs_for_mood mood in
  (target_freq <- get_item melody_freqs (len melody_freqs / 2)%Z ;;
   ratio <- py_div target_freq base_freq ;;
   let semitones := 12 * np_log2 ratio in
   Ok (py_max 4 (semitones * (7 # 10) + 4)))%py.

Definition vocal_board : list plugin :=
  [Compressor (-25) 3 5 50;
   Chorus 2 (5 # 10) 7 (3 # 10) (45 # 100);
   Reverb (65 # 100) (4 # 10) (4 # 10) (75 # 100) (9 # 10);
   Compressor (-18) 4 10 100;
   Gain 3].

(** [sf.write(audio_path, data, sr)]: whatever the library leaves on disk,
    also when it raises. *)
Definition write_audio (path : string) (data : list Q) (sr : Z) : py unit :=
  fun w =>
    let '(r, f) := sf_write (files w) path data sr in
    (r, World f (random_state w) (np_random_state w)).

(** The body of the [try] block of [apply_vocal_effects]. *)
Definition vocal_effects_body (audio_path : string) (mood : option string)
  : py bool :=
  ' (y, sr) <~ (fun w => (librosa_load (files w) audio_path SAMPLE_RATE, w)) ;;
  y <~ _apply_singing_timing y sr ;;
  shift <~ lift (semitones_shift mood) ;;
  y_shifted <~ lift (pitch_shift y sr shift) ;;
  let t := map (fun k => inject_Z (Z.of_nat k) / inject_Z sr)
               (seq 0 (length y_shifted)) in
  let vibrato_rate := 55 # 10 in
  let vibrato_depth := 3 # 10 in
  let vibrato :=
    map (fun x => vibrato_depth * np_sin (2 * np_pi * vibrato_rate * x)) t in
  let phase_mod :=
    map (fun c => c * 2 * np_pi * 100)
        (np_cumsum (map (fun v => v / inject_Z sr) vibrato)) in
  let y_vibrato :=
    map2 (fun s p => s * (1 + (2 # 100) * np_sin p)) y_shifted phase_mod in
  y_effected <~ lift (run_board vocal_board y_vibrato sr) ;;
  peak <~ lift (np_max_abs y_effected) ;;
  let y_effected := vdiv y_effected (peak + (1 # 100)) in
  _ <~ write_audio audio_path y_effected sr ;;
  ret true.

(** [try: ... except Exception: return False]. *)
Definition apply_vocal_effects (audio_path : string) (mood : option string)
  : py bool :=
  fun w =>
    match vocal_effects_body audio_path mood w with
    | (Ok b, w') => (Ok b, w')
    | (Raise _, w') => (Ok false, w')
    end.

(** ** 4.5 Instrument synthesizer *)

(** One partial of a tone: [weight * np.sin(2 * np.pi * freq * k * t)]. *)
Definition harmonic (weight freq k t : Q) : Q :=
  weight * np_sin (2 * np_pi * freq * k * t).

(** Lines 144 to 160: the ADSR envelope of a signal of [n] samples. *)
Definition adsr_envelope (n : nat) (sr : Z) : result (list Q) :=
  (let attack_samples := py_int (inject_Z sr * (2 # 100)) in
   let decay_samples := py_int (inject_Z sr * (5 # 100)) in
   let release_samples := py_int (inject_Z sr * (1 # 10)) in
   let sustain_level := 7 # 10 in
   let envelope := ones n in
   envelope <-
     (if (0 <? attack_samples)%Z then
        ramp <- np_linspace 0 1 attack_samples ;;
        set_slice envelope None (Some attack_samples) ramp
      else Ok envelope) ;;
   envelope <-
     (if (0 <? decay_samples)%Z &&
         (attack_samples + decay_samples <? len envelope)%Z then
        ramp <- np_linspace 1 sustain_level decay_samples ;;
        set_slice envelope (Some attack_samples)
          (Some (attack_samples + decay_samples)%Z) ramp
      else Ok envelope) ;;
   let sustain_start := (attack_samples + decay_samples)%Z in
   let sustain_end := (len envelope - release_samples)%Z in
   let envelope :=
     if (sustain_start <? sustain_end)%Z then
       fill_slice envelope (Some sustain_start) (Some sustain_end) sustain_level
     else envelope in
   if (0 <? release_samples)%Z then
     ramp <- np_linspace sustain_level 0 release_samples ;;
     set_slice envelope (Some (- release_samples)%Z) None ramp
   else Ok envelope)%py.

Definition _generate_instrument (freq duration : Q) (sr : Z)
  (instrument_type : string) : result (list Q) :=
  (let num_samples := py_int (inject_Z sr * duration) in
   t <- np_linspace 0 duration num_samples ;;
   let signal :=
     if String.eqb instrument_type "synth" then
       map (fun x => harmonic 1 freq 1 x +
                     harmonic (1 # 2) freq 2 x +
                     harmonic (1 # 4) freq 3 x +
                     harmonic (1 # 8) freq 4 x) t
     else if String.eqb instrument_type "bass" then
       map (fun x => harmonic 1 freq 1 x +
                     harmonic (3 # 10) freq 2 x +
                     harmonic (1 # 10) freq 4 x) t
     else
       map (fun x => harmonic (8 # 10) freq 1 x +
                     harmonic (4 # 10) freq 2 x +
                     harmonic (3 # 10) freq 3 x +
                     harmonic (2 # 10) freq 5 x +
                     harmonic (1 # 10) freq 7 x) t in
   envelope <- adsr_envelope (length signal) sr ;;
   vmul signal envelope)%py.

(** ** 4.6, 4.7 Percussion and the arrangement mixer *)

Definition music_board : list plugin :=
  [HighpassFilter 80; Compressor (-20) 2 20 200; Gain (-2)].

(** [int(np.ceil(x))]. *)
Definition int_ceil (x : Q) : Z := np_ceil x.

(** One pass of a tonal loop (melody, pad, bass): [note] is laid on [track]
    at sample [int(i * note_dur * sr)] with gain [gain], unless the note
    starts beyond the buffer, which ends the loop. *)
Definition lay_note (num_samples : Z) (i : Z) (note_dur : Q) (sr : Z)
  (make_note : result (list Q)) (gain : Q) (track : list Q)
  : result (step (list Q)) :=
  if Qle_bool (inject_Z num_samples) (inject_Z i * note_dur * inject_Z sr)
  then Ok (Break track)
  else
    (note <- make_note ;;
     let start := py_int (inject_Z i * note_dur * inject_Z sr) in
     let end_ := py_min_Z (start + len note) num_samples in
     if (0 <? end_ - start)%Z then
       track' <- iop_slice Qplus track (Some start) (Some end_)
                   (vscale (get_slice note None (Some (end_ - start)%Z)) gain) ;;
       Ok (Next track')
     else Ok (Next track))%py.

Definition kick_wave (kt : Q) : Q :=
  (15 # 100) * np_exp (-15 * kt) *
  np_sin (2 * np_pi * (60 + 40 * np_exp (-20 * kt)) * kt).

Definition snare_tone (st : Q) : Q :=
  (1 # 10) * np_exp (-20 * st) * np_sin (2 * np_pi * 200 * st).

(** A percussion hit of [dur_samples] samples at sample [bs]: [wave], of
    the hit's time axis and of as many fresh noise samples, is added to the
    track in place. *)
Definition drum_hit (num_samples bs dur_samples : Z) (dur_s : Q)
  (wave : list Q -> list Q -> result (list Q)) (track : list Q)
  : py (list Q) :=
  let e := py_min_Z (bs + dur_samples) num_samples in
  ts <~ lift (np_linspace 0 dur_s (e - bs)) ;;
  noise <~ np_random_randn (length ts) ;;
  hit <~ lift (wave ts noise) ;;
  lift (iop_slice Qplus track (Some bs) (Some e) hit).

Definition kick_hit (kt noise : list Q) : result (list Q) :=
  vadd (map kick_wave kt) (map (fun n => (2 # 100) * n) noise).

Definition snare_hit (st noise : list Q) : result (list Q) :=
  (decaying <- vmul (map (fun x => (8 # 100) * np_exp (-15 * x)) st) noise ;;
   vadd (map snare_tone st) decaying)%py.

Definition hihat_hit (hht noise : list Q) : result (list Q) :=
  vmul (map (fun x => (3 # 100) * np_exp (-40 * x)) hht) noise.

Definition generate_background_music (duration_s : Q) (tempo_bpm : Z)
  (mood : option string) : py (list Q) :=
  let sr := SAMPLE_RATE in
  let num_samples := py_int (inject_Z sr * duration_s) in
  _ <~ lift (np_linspace 0 duration_s num_samples) ;;
  beat_duration_s <~ lift (py_div 60 (inject_Z tempo_bpm)) ;;
  let '(base_freq, melody_freqs) := get_melody_freqs_for_mood mood in
  (* Melody *)
  melody <~ lift (np_zeros num_samples) ;;
  let note_duration := 2 in
  per_cycle <~ lift (py_div duration_s (inject_Z (len melody_freqs) * note_duration)) ;;
  melody <~
    for_each (enumerate (list_mul melody_freqs (int_ceil per_cycle)))
      (fun '(i, freq) melody =>
         lift (lay_note num_samples i note_duration sr
                 (_generate_instrument freq note_duration sr "synth")
                 (8 # 100) melody))
      melody ;;
  (* Chord pads *)
  pad <~ lift (np_zeros num_samples) ;;
  let chord_duration := 4 in
  chords <~ lift (py_range 0 (int_ceil (duration_s / chord_duration)) 1) ;;
  pad <~
    for_each chords
      (fun i pad =>
         lift (lay_note num_samples i chord_duration sr
                 (root <- get_item melody_freqs (i mod len melody_freqs)%Z ;;
                  third <- get_item melody_freqs ((i + 2) mod len melody_freqs)%Z ;;
                  a <- _generate_instrument root chord_duration sr "pad" ;;
                  b <- _generate_instrument third chord_duration sr "pad" ;;
                  ab <- vadd a b ;;
                  Ok (vscale ab (1 # 2)))%py
                 (5 # 100) pad))
      pad ;;
  (* Bass *)
  bass <~ lift (np_zeros num_samples) ;;
  let bass_note_dur := beat_duration_s * 2 in
  per_bass <~ lift (py_div duration_s bass_note_dur) ;;
  bass_notes <~ lift (py_range 0 (int_ceil per_bass) 1) ;;
  bass <~
    for_each bass_notes
      (fun i bass =>
         lift (lay_note num_samples i bass_note_dur sr
                 (_generate_instrument (base_freq * (1 # 2)) bass_note_dur sr "bass")
                 (12 # 100) bass))
      bass ;;
  (* Drums *)
  kick <~ lift (np_zeros num_samples) ;;
  snare <~ lift (np_zeros num_samples) ;;
  hihat <~ lift (np_zeros num_samples) ;;
  beat_times <~ lift (np_arange 0 duration_s beat_duration_s) ;;
  ' (kick, snare, hihat) <~
    for_each (enumerate beat_times)
      (fun '(i, bt) '(kick, snare, hihat) =>
         let bs := py_int (bt * inject_Z sr) in
         let kd := py_int ((15 # 100) * inject_Z sr) in
         kick <~
           (if (bs <? num_samples)%Z then
              drum_hit num_samples bs kd (15 # 100) kick_hit kick
            else ret kick) ;;
         snare <~
           (if (i mod 2 =? 1)%Z && (bs <? num_samples)%Z then
              let sd := py_int ((12 # 100) * inject_Z sr) in
              drum_hit num_samples bs sd (12 # 100) snare_hit snare
            else ret snare) ;;
         hihat <~
           for_each [0%Z; 1%Z]
             (fun j hihat =>
                let ht := bt + inject_Z j * beat_duration_s / 2 in
                let hs := py_int (ht * inject_Z sr) in
                if (hs <? num_samples)%Z then
                  let hd := py_int ((5 # 100) * inject_Z sr) in
                  hihat' <~
                    drum_hit num_samples hs hd (5 # 100) hihat_hit hihat ;;
                  ret (Next hihat')
                else ret (Next hihat))
             hihat ;;
         ret (Next (kick, snare, hihat)))
      (kick, snare, hihat) ;;
  music <~ lift (m <- vadd melody pad ;; m <- vadd m bass ;; m <- vadd m kick ;;
                 m <- vadd m snare ;; vadd m hihat)%py ;;
  music <~ lift (run_board music_board music sr) ;;
  (* Fade in/out *)
  let fade_samples := py_int (inject_Z sr * (15 # 10)) in
  if (2 * fade_samples <? len music)%Z then
    lift (fade_in <- np_linspace 0 1 fade_samples ;;
          music <- iop_slice Qmult music None (Some fade_samples) fade_in ;;
          fade_out <- np_linspace 1 0 fade_samples ;;
          iop_slice Qmult music (Some (- fade_samples)%Z) None fade_out)%py
  else ret music.

(** ** 4.8 Sidechain ducking engine *)

(** [for x in xs: body] for a body without effects on the process state. *)
Fixpoint for_each_pure {A S : Type} (xs : list A) (body : A -> S -> result S)
  (s : S) : result S :=
  match xs with
  | [] => Ok s
  | x :: rest => (s' <- body x s ;; for_each_pure rest body s')%py
  end.

(** [a[i] = x]. *)
Definition set_item (a : list Q) (i : Z) (x : Q) : result (list Q) :=
  let n := len a in
  let j := if (i <? 0)%Z then (i + n)%Z else i in
  if (j <? 0)%Z || (n <=? j)%Z then Raise IndexError
  else Ok (splice a (Z.to_nat j) 1 [x]).

(** Lines 272 to 277: the vocal's energy envelope. *)
Definition vocal_envelope_of (vocals : list Q) (sr : Z) : result (list Q) :=
  (let window_size := py_int ((5 # 100) * inject_Z sr) in
   let vocal_envelope := zeros (length vocals) in
   starts <- py_range 0 (len vocals - window_size) (window_size / 2) ;;
   for_each_pure starts
     (fun i vocal_envelope =>
        let window := get_slice vocals (Some i) (Some (i + window_size)%Z) in
        let rms := np_sqrt (np_mean (map (fun x => x * x) window)) in
        held <- get_item vocal_envelope i ;;
        Ok (fill_slice vocal_envelope (Some i) (Some (i + window_size)%Z)
              (py_max held rms)))
     vocal_envelope)%py.

Definition duck_amount : Q := 4 # 10.

(** Lines 284 to 289: one pass of the loop over [ducking]. *)
Definition ducking_body (active : list bool) (i : Z) (ducking : list Q)
  : result (list Q) :=
  (a <- get_item active i ;;
   let target := if a : bool then duck_amount else 1 in
   if (0 <? i)%Z then
     let rate := if a then 95 # 100 else 99 # 100 in
     prev <- get_item ducking (i - 1)%Z ;;
     set_item ducking i (prev * rate + target * (1 - rate))
   else set_item ducking i target)%py.

(** Lines 280 to 289: the gain curve, written into [ducking] index by
    index. *)
Definition ducking_curve (active : list bool) (n : nat) : result (list Q) :=
  (indices <- py_range 0 (Z.of_nat n) 1 ;;
   for_each_pure indices (ducking_body active) (ones n))%py.

Definition _apply_sidechain (music vocals : list Q) (sr : Z)
  : result (list Q) :=
  (vocal_envelope <- vocal_envelope_of vocals sr ;;
   let active := map (fun e => Qltb (1 # 100) e) vocal_envelope in
   ducking <- ducking_curve active (length music) ;;
   vmul music ducking)%py.

(** ** 4.9 Mix and mastering engine *)

Definition music_eq : list plugin := [HighpassFilter 120; LowpassFilter 12000].

Definition mastering : list plugin :=
  [Compressor (-12) 3 15 150; Compressor (-6) 10 1 50; Gain (35 # 10)].

Definition path_exists (f : fs) (path : string) : bool :=
  match f path with Some _ => true | None => false end.

(** Lines 304 to 308: [int16] data is scaled to floats, and a
    two-dimensional array is averaged over its channels. *)
Definition to_mono_float (a : wav_array) : list Q :=
  match a with
  | Wav1D is_int16 xs => if is_int16 then vdiv xs 32767 else xs
  | Wav2D is_int16 rows =>
      map (fun row => np_mean (if is_int16 then vdiv row 32767 else row)) rows
  end.

(** Lines 301 to 310: the vocal buffer the mix starts from. *)
Definition load_vocals (vocal_path : string) (background_music : list Q)
  : py (list Q) :=
  fun w =>
    if path_exists (files w) vocal_path then
      match wavfile_read (files w) vocal_path with
      | Ok (_, vocals) => (Ok (to_mono_float vocals), w)
      | Raise e => (Raise e, w)
      end
    else (Ok (zeros (length background_music)), w).

(** Lines 312 to 316: the shorter buffer is padded with zeros. *)
Definition match_lengths (vocals background_music : list Q)
  : result (list Q * list Q) :=
  if (len vocals <? len background_music)%Z then
    (v <- np_pad_right vocals (len background_music - len vocals) ;;
     Ok (v, background_music))%py
  else if (len background_music <? len vocals)%Z then
    (b <- np_pad_right background_music (len vocals - len background_music) ;;
     Ok (vocals, b))%py
  else Ok (vocals, background_music).

(** A float cast to [int16]: truncated, then wrapped to 16 bits. *)
Definition np_int16 (x : Q) : Z :=
  ((py_int x + 32768) mod 65536 - 32768)%Z.

(** Lines 339 to 344: peak normalisation, clipping and quantisation. *)
Definition normalize_to_pcm (mixed : list Q) : result (list Z) :=
  (peak <- np_max_abs mixed ;;
   let mixed := if Qltb 0 peak then vscale (vdiv mixed peak) (95 # 100) else mixed in
   let mixed := np_clip mixed (-1) 1 in
   Ok (map (fun x => np_int16 (x * 32767)) mixed))%py.

Definition write_wav (path : string) (sr : Z) (data : list Z) : py unit :=
  fun w =>
    let '(r, f) := wavfile_write (files w) path sr data in
    (r, World f (random_state w) (np_random_state w)).

Definition mix_and_master (vocal_path : string) (background_music : list Q)
  (output_path : string) : py string :=
  let sr := SAMPLE_RATE in
  vocals <~ load_vocals vocal_path background_music ;;
  ' (vocals, background_music) <~ lift (match_lengths vocals background_music) ;;
  ducked_music <~ lift (_apply_sidechain background_music vocals sr) ;;
  ducked_music <~ lift (run_board music_eq ducked_music sr) ;;
  mixed <~ lift (vadd (vscale vocals 1) (vscale ducked_music (35 # 100))) ;;
  mixed <~ lift (run_board mastering mixed sr) ;;
  pcm <~ lift (normalize_to_pcm mixed) ;;
  _ <~ write_wav output_path sr pcm ;;
  ret output_path.

(** ** What a computation may touch *)

(** [c] leaves every file as it found it. *)
Definition keeps_files {A : Type} (c : py A) : Prop :=
  forall w, files (snd (c w)) = files w.

(** [c] reads nothing of the process state but the generator of the
    [random] module: from equal generator states it returns equal results
    and leaves equal generator states. *)
Definition random_only {A : Type} (c : py A) : Prop :=
  forall w1 w2,
    random_state w1 = random_state w2 ->
    fst (c w1) = fst (c w2) /\
    random_state (snd (c w1)) = random_state (snd (c w2)).

(** [c], run in [w], returns a value that satisfies [P]. *)
Definition returns {A : Type} (c : py A) (w : world) (P : A -> Prop) : Prop :=
  exists a w', c w = (Ok a, w') /\ P a.

(** How the timing transform treats one window: untouched when shorter
    than 1000 samples, else time-stretched by some factor in [0.75, 1.30]. *)
Definition processed_window (seg out : list Q) : Prop :=
  ((len seg < 1000)%Z /\ out = seg) \/
  ((1000 <= len seg)%Z /\
   exists rate, 75 # 100 <= rate <= 13 # 10 /\ time_stretch seg rate = Ok out).

(** [c] touches nothing of the process state but the generator of
    [np.random]: it leaves the files and the generator of the [random]
    module as they are, and from equal states of the [np.random] generator
    it returns equal results and leaves equal states. *)
Definition np_random_only {A : Type} (c : py A) : Prop :=
  (forall w, files (snd (c w)) = files w /\
             random_state (snd (c w)) = random_state w) /\
  (forall w1 w2,
     np_random_state w1 = np_random_state w2 ->
     fst (c w1) = fst (c w2) /\
     np_random_state (snd (c w1)) = np_random_state (snd (c w2))).

(** [len(a)] for what [wavfile.read] returns: samples, or frames. *)
Definition wav_len (a : wav_array) : Z :=
  match a with
  | Wav1D _ xs => len xs
  | Wav2D _ rows => len rows
  end.

(** The steps every caller in [main.py] runs on a vocal file (lines 446 to
    458, 522 to 532, 612 to 617): vocal effects in place, the file read back
    for its duration, a backing track of that duration at the genre's
    tempo, and the mix written to [out]. *)
Definition vocal_to_mix (wav_path : string) (genre : string)
  (mood : option string) (out : string) : py string :=
  _ <~ apply_vocal_effects wav_path mood ;;
  ' (sr, vocal_data) <~ (fun w => (wavfile_read (files w) wav_path, w)) ;;
  vocal_duration <~
    lift (py_div (inject_Z (wav_len vocal_data)) (inject_Z sr)) ;;
  let tempo := get_tempo_for_genre genre in
  bg_music <~ generate_background_music vocal_duration tempo mood ;;
  mix_and_master wav_path bg_music out.

(** Lines 86 to 92 of [apply_vocal_effects]: the vibrato applied to the
    pitch-shifted vocal. *)
Definition add_vibrato (y_shifted : list Q) (sr : Z) : list Q :=
  let t := map (fun k => inject_Z (Z.of_nat k) / inject_Z sr)
               (seq 0 (length y_shifted)) in
  let vibrato_rate := 55 # 10 in
  let vibrato_depth := 3 # 10 in
  let vibrato :=
    map (fun x => vibrato_depth * np_sin (2 * np_pi * vibrato_rate * x)) t in
  let phase_mod :=
    map (fun c => c * 2 * np_pi * 100)
        (np_cumsum (map (fun v => v / inject_Z sr) vibrato)) in
  map2 (fun s p => s * (1 + (2 # 100) * np_sin p)) y_shifted phase_mod.

(** Lines 70 to 106 of [apply_vocal_effects]: every stage before the write
    (load, timing, pitch shift, vibrato, effects chain, normalisation),
    returning the buffer and the sample rate that line 108 hands to
    [sf.write]. *)
Definition vocal_stages (audio_path : string) (mood : option string)
  : py (list Q * Z) :=
  ' (y, sr) <~ (fun w => (librosa_load (files w) audio_path SAMPLE_RATE, w)) ;;
  y <~ _apply_singing_timing y sr ;;
  shift <~ lift (semitones_shift mood) ;;
  y_shifted <~ lift (pitch_shift y sr shift) ;;
  let y_vibrato := add_vibrato y_shifted sr in
  y_effected <~ lift (run_board vocal_board y_vibrato sr) ;;
  peak <~ lift (np_max_abs y_effected) ;;
  let y_effected := vdiv y_effected (peak + (1 # 100)) in
  ret (y_effected, sr).

End Engine.

Arguments world : clear implicits.
Arguments py : clear implicits.

(** ** A small instance of the external libraries

    Used to run the embedding on concrete inputs.  The transcendental
    functions are low-order polynomial or fixed-point stand-ins, the random
    generators are linear congruential, the effects are the identity, and a
    file holds one byte for each sample. *)

Definition sqrt_fixed (x : Q) : Q :=
  Z.sqrt (Qnum x * 1000000000000 / Zpos (Qden x)) # 1000000.

Definition lcg_next (n : Z) : Z := ((1103515245 * n + 12345) mod 2147483648)%Z.

Definition sample_of_byte (b : Byte.byte) : Q :=
  (Z.of_N (Byte.to_N b) - 128) # 128.

Definition byte_of_sample (x : Q) : Byte.byte :=
  match Byte.of_N (Z.to_N (Z.max 0 (Z.min 255 (Qfloor (x * 128) + 128)))) with
  | Some b => b
  | None => Byte.x00
  end.

Definition byte_of_pcm (z : Z) : Byte.byte :=
  match Byte.of_N (Z.to_N ((z / 256 + 128) mod 256)) with
  | Some b => b
  | None => Byte.x00
  end.

Definition fs_update (f : fs) (path : string) (content : list Byte.byte) : fs :=
  fun p => if String.eqb p path then Some content else f p.

(** Nearest-sample resampling by [rate]; a rate that is not positive is
    refused, as librosa does. *)
Definition resample_nearest (seg : list Q) (rate : Q) : result (list Q) :=
  if Qle_bool rate 0 then Raise ValueError
  else
    let n := Z.to_nat (Qfloor (inject_Z (len seg) / rate)) in
    Ok (map (fun k => nth (Z.to_nat (Qfloor (inject_Z (Z.of_nat k) * rate))) seg 0)
            (seq 0 n)).

Definition sample_ext : Externals := {|
  np_pi := 355 # 113;
  np_sin := fun x => x - x * x * x / 6;
  np_exp := fun x => 1 + x + x * x / 2;
  np_sqrt := sqrt_fixed;
  np_log2 := fun x => (x - 1) * (1443 # 1000);
  py_rng := Z;
  random_random := fun g => (lcg_next g # 2147483648, lcg_next g);
  np_rng := Z;
  standard_normal := fun g => ((lcg_next g - 1073741824) # 1073741824, lcg_next g);
  time_stretch := resample_nearest;
  pitch_shift := fun y _ _ => Ok y;
  run_board := fun _ y _ => Ok y;
  librosa_load := fun f path sr =>
    match f path with
    | Some bytes => Ok (map sample_of_byte bytes, sr)
    | None => Raise OSError
    end;
  sf_write := fun f path data _ =>
    (Ok tt, fs_update f path (map byte_of_sample data));
  wavfile_read := fun f path =>
    match f path with
    | Some bytes => Ok (44100%Z, Wav1D false (map sample_of_byte bytes))
    | None => Raise OSError
    end;
  wavfile_write := fun f path _ data =>
    (Ok tt, fs_update f path (map byte_of_pcm data))
|}.

(** ** The ducking curve in the words of the specification

    [gain[0] = target[0]] and [gain[i] = gain[i-1] * rate + target * (1 -
    rate)], with target 0.4 and rate 0.95 on an active sample, target 1.0
    and rate 0.99 on an inactive one. *)

Definition target_of (a : bool) : Q := if a then 4 # 10 else 1.
Definition rate_of (a : bool) : Q := if a then 95 # 100 else 99 # 100.

Definition smooth (prev : Q) (a : bool) : Q :=
  prev * rate_of a + target_of a * (1 - rate_of a).

Fixpoint smooth_from (prev : Q) (active : list bool) : list Q :=
  match active with
  | [] => []
  | a :: rest => smooth prev a :: smooth_from (smooth prev a) rest
  end.

Definition spec_ducking (active : list bool) : list Q :=
  match active with
  | [] => []
  | a :: rest => target_of a :: smooth_from (target_of a) rest
  end.

(** [r ^ m]. *)
Fixpoint qpow (r : Q) (m : nat) : Q :=
  match m with
  | O => 1
  | S m' => r * qpow r m'
  end.

(** The running maximum of [|x|] over an array, from the start value [m]. *)
Definition peak_from (m : Q) (a : list Q) : Q :=
  fold_left (fun m y => Qmax m (Qabs y)) a m.

(** An envelope of the vocal's length that nowhere exceeds the activity
    threshold. *)
Definition quiet (vocals envelope : list Q) : Prop :=
  length envelope = length vocals /\ Forall (fun e => e <= 1 # 100) envelope.

(** A vocal of 2206 full-scale samples followed by 46000 samples of
    silence. *)
Definition voice_then_silence : list Q :=
  repeat 1 (Z.to_nat 2206) ++ repeat 0 (Z.to_nat 46000).

(** ** Concrete inputs *)

Definition thousand_samples : list Q := repeat (1 # 2) 1000.

Definition two_byte_vocal : fs :=
  fun p => if String.eqb p "vocal.wav" then Some [Byte.x80; Byte.xff] else None.

(** A process with the files [f] and the [random] generator in state
    [seed]. *)
Definition world_seeded (f : fs) (seed : Z) : world sample_ext :=
  @World sample_ext f seed 0%Z.

(** The lengths of the outputs of two runs of the timing transform. *)
Definition lengths_of_runs (y : list Q) (w1 w2 : world sample_ext)
  : option (nat * nat) :=
  match fst (@_apply_singing_timing sample_ext y SAMPLE_RATE w1),
        fst (@_apply_singing_timing sample_ext y SAMPLE_RATE w2) with
  | Ok a, Ok b => Some (length a, length b)
  | _, _ => None
  end.

(** The sample instance with an [sf.write] that opens its target for
    writing, which empties it, and then fails. *)
Definition truncating_ext : Externals := {|
  np_pi := @np_pi sample_ext;
  np_sin := @np_sin sample_ext;
  np_exp := @np_exp sample_ext;
  np_sqrt := @np_sqrt sample_ext;
  np_log2 := @np_log2 sample_ext;
  py_rng := @py_rng sample_ext;
  random_random := @random_random sample_ext;
  np_rng := @np_rng sample_ext;
  standard_normal := @standard_normal sample_ext;
  time_stretch := @time_stretch sample_ext;
  pitch_shift := @pitch_shift sample_ext;
  run_board := @run_board sample_ext;
  librosa_load := @librosa_load sample_ext;
  sf_write := fun f path _ _ => (Raise OSError, fs_update f path []);
  wavfile_read := @wavfile_read sample_ext;
  wavfile_write := @wavfile_write sample_ext
|}.

(** A second instance with a sine that stays within [-1, 1], as
    [np.sin] does. *)
Definition unit_sine_ext : Externals := {|
  np_pi := @np_pi sample_ext;
  np_sin := fun x => Qmin (Qmax (@np_sin sample_ext x) (-1)) 1;
  np_exp := @np_exp sample_ext;
  np_sqrt := @np_sqrt sample_ext;
  np_log2 := @np_log2 sample_ext;
  py_rng := @py_rng sample_ext;
  random_random := @random_random sample_ext;
  np_rng := @np_rng sample_ext;
  standard_normal := @standard_normal sample_ext;
  time_stretch := @time_stretch sample_ext;
  pitch_shift := @pitch_shift sample_ext;
  run_board := @run_board sample_ext;
  librosa_load := @librosa_load sample_ext;
  sf_write := @sf_write sample_ext;
  wavfile_read := @wavfile_read sample_ext;
  wavfile_write := @wavfile_write sample_ext
|}.

(** The sum of the weights of an instrument's partials. *)
Definition partials_sum (instrument_type : string) : Q :=
  if String.eqb instrument_type "synth" then 15 # 8
  else if String.eqb instrument_type "bass" then 14 # 10
  else 18 # 10.

(** * Properties *)

(** ** The mood/scale resolver *)

Open Scope string_scope.

Lemma prefix_app (w s : string) :
  prefix w s = true <-> exists b, s = w ++ b.
Proof.
  revert s; induction w as [|c w IH]; intros s.
  - split; [intros _; now exists s | intros _; now destruct s].
  - destruct s as [|d s]; simpl.
    + split; [discriminate | intros [b Hb]; discriminate].
    + destruct (ascii_dec c d) as [->|Hne].
      * rewrite IH. split; intros [b Hb]; exists b.
        -- now rewrite Hb.
        -- now inversion Hb.
      * split; [discriminate | intros [b Hb]; inversion Hb; congruence].
Qed.

Lemma contains_substring (w s : string) :
  contains w s = true <-> exists a b, s = a ++ w ++ b.
Proof.
  induction s as [|c s IH].
  - cbn [contains]. rewrite orb_false_r, prefix_app. split.
    + intros [b Hb]. now exists "", b.
    + intros [a [b Hab]]. destruct a; [now exists b | discriminate].
  - cbn [contains]. rewrite orb_true_iff, prefix_app, IH. split.
    + intros [[b Hb] | [a [b Hab]]].
      * now exists "", b.
      * exists (String c a), b. simpl. now rewrite Hab.
    + intros [a [b Hab]]. destruct a as [|d a].
      * left. now exists b.
      * right. exists a, b. simpl in Hab. now inversion Hab.
Qed.

Lemma any_in_mentions (g : list string) (s : string) :
  any_in g (lower s) = true <-> mentions g s.
Proof.
  unfold any_in, mentions. rewrite existsb_exists. split.
  - intros [w [Hin Hc]]. apply contains_substring in Hc as [a [b Hab]].
    now exists w, a, b.
  - intros [w [a [b [Hin Hab]]]]. exists w. split; [assumption|].
    apply contains_substring. now exists a, b.
Qed.

Lemma any_in_not_mentions (g : list string) (s : string) :
  any_in g (lower s) = false <-> ~ mentions g s.
Proof.
  rewrite <- any_in_mentions. destruct (any_in g (lower s)); split; congruence.
Qed.

Lemma decomposition_cases {A : Type} (b1 b2 a1 a2 : list A) (x1 x2 : A) :
  (b1 ++ x1 :: a1 = b2 ++ x2 :: a2)%list ->
  In x1 b2 \/ x1 = x2 \/ In x2 b1.
Proof.
  revert b2; induction b1 as [|y b1 IH]; intros [|z b2] H; simpl in *;
    inversion H; subst; auto.
  destruct (IH _ H2) as [?|[?|?]]; auto.
Qed.

(** C5. The resolver lower-cases its input and looks for the keywords as
    substrings, group by group in the documented order, the first group
    with a keyword present deciding the scale and the default scale
    standing for no match; the two documented examples evaluate as
    documented. *)
Theorem C5_resolver_first_match_wins :
  get_melody_freqs_for_mood (Some "very calm day")
    = (220, [220; 247; 277; 330; 370])%Q /\
  get_melody_freqs_for_mood (Some "XYZ-unknown")
    = (26163 # 100, [262; 294; 330; 349; 392])%Q /\
  get_melody_freqs_for_mood (Some "Dreamy DARK pop") = energetic_scale /\
  (forall s t, lower s = lower t ->
     get_melody_freqs_for_mood (Some s) = get_melody_freqs_for_mood (Some t)) /\
  (forall s, resolves_to s (get_melody_freqs_for_mood (Some s))) /\
  (forall s sc sc', resolves_to s sc -> resolves_to s sc' -> sc = sc').
Proof.
  split; [reflexivity|]. split; [reflexivity|]. split; [reflexivity|].
  split; [|split].
  - intros s t H. unfold get_melody_freqs_for_mood. now rewrite H.
  - intros s. unfold get_melody_freqs_for_mood, resolves_to.
    destruct (any_in calm_words (lower s)) eqn:H1.
    { left. exists [], calm_words, (tl keyword_groups).
      split; [reflexivity|]. split; [now apply any_in_mentions|].
      intros ? ? []. }
    destruct (any_in energetic_words (lower s)) eqn:H2.
    { left. exists (firstn 1 keyword_groups), energetic_words, (skipn 2 keyword_groups).
      split; [reflexivity|]. split; [now apply any_in_mentions|].
      intros g' sc' [E|[]]. inversion E; subst. now apply any_in_not_mentions. }
    destruct (any_in dark_words (lower s)) eqn:H3.
    { left. exists (firstn 2 keyword_groups), dark_words, (skipn 3 keyword_groups).
      split; [reflexivity|]. split; [now apply any_in_mentions|].
      intros g' sc' [E|[E|[]]]; inversion E; subst; now apply any_in_not_mentions. }
    destruct (any_in cosmic_words (lower s)) eqn:H4.
    { left. exists (firstn 3 keyword_groups), cosmic_words, [].
      split; [reflexivity|]. split; [now apply any_in_mentions|].
      intros g' sc' [E|[E|[E|[]]]]; inversion E; subst;
        now apply any_in_not_mentions. }
    right. split; [|reflexivity].
    intros g sc' [E|[E|[E|[E|[]]]]]; inversion E; subst;
      now apply any_in_not_mentions.
  - intros s sc sc' [(b1 & g1 & a1 & E1 & M1 & N1) | [N1 ->]]
                      [(b2 & g2 & a2 & E2 & M2 & N2) | [N2 ->]].
    + rewrite E1 in E2. destruct (decomposition_cases _ _ _ _ _ _ E2) as [H|[H|H]].
      * exfalso. exact (N2 _ _ H M1).
      * now inversion H.
      * exfalso. exact (N1 _ _ H M2).
    + exfalso. apply (N2 g1 sc); [|assumption].
      rewrite E1. apply in_or_app. right. now left.
    + exfalso. apply (N1 g2 sc'); [|assumption].
      rewrite E2. apply in_or_app. right. now left.
    + reflexivity.
Qed.

Close Scope string_scope.

(** ** Arithmetic helpers *)

Lemma Qltb_lt (x y : Q) : Qltb x y = true <-> x < y.
Proof.
  unfold Qltb. rewrite negb_true_iff. split.
  - intros H. apply Qnot_le_lt. intros Hle.
    apply Qle_bool_iff in Hle. congruence.
  - intros H. destruct (Qle_bool y x) eqn:E; [|reflexivity].
    apply Qle_bool_iff in E. exfalso. apply (Qlt_not_le _ _ H E).
Qed.

Lemma Qltb_ge (x y : Q) : Qltb x y = false <-> y <= x.
Proof.
  unfold Qltb. rewrite negb_false_iff. apply Qle_bool_iff.
Qed.

Lemma py_max_Qmax (a b : Q) : py_max a b == Qmax a b.
Proof.
  unfold py_max. destruct (Qltb a b) eqn:E.
  - apply Qltb_lt in E. symmetry. apply Q.max_r. now apply Qlt_le_weak.
  - apply Qltb_ge in E. symmetry. now apply Q.max_l.
Qed.

Lemma py_max_lower (a b : Q) : a <= py_max a b.
Proof.
  unfold py_max. destruct (Qltb a b) eqn:E.
  - apply Qltb_lt in E. now apply Qlt_le_weak.
  - apply Qle_refl.
Qed.

(** ** The pitch shift *)

Section PitchShift.

Context {ext : Externals}.

Lemma semitones_shift_of_scale (mood : option string) (base target : Q)
  (a b c d : Q) :
  get_melody_freqs_for_mood mood = (base, [a; b; target; c; d]) ->
  Qeq_bool base 0 = false ->
  semitones_shift mood
    = Ok (py_max 4 (12 * np_log2 (target / base) * (7 # 10) + 4)).
Proof.
  intros H Hb. unfold semitones_shift. rewrite H. cbn.
  unfold py_div. rewrite Hb. reflexivity.
Qed.

(** C4. For every mood the shift is [max(4, 0.7 * 12 * log2(target / base)
    + 4)], with [base] the resolved base frequency and [target] the element
    at index 2 of the five resolved degrees; it is never below 4. *)
Theorem C4_pitch_shift_amount (mood : option string) :
  exists base degrees target shift,
    get_melody_freqs_for_mood mood = (base, degrees) /\
    length degrees = 5%nat /\
    nth_error degrees 2 = Some target /\
    semitones_shift mood = Ok shift /\
    shift == Qmax 4 ((7 # 10) * (12 * np_log2 (target / base)) + 4) /\
    4 <= shift.
Proof.
  assert (H : exists base a b target c d,
             get_melody_freqs_for_mood mood = (base, [a; b; target; c; d]) /\
             Qeq_bool base 0 = false).
  { unfold get_melody_freqs_for_mood.
    repeat match goal with
           | |- context [if ?c then _ else _] => destruct c
           end;
      do 6 eexists; split; reflexivity. }
  destruct H as (base & a & b & target & c & d & Hs & Hb).
  exists base, [a; b; target; c; d], target.
  eexists. split; [exact Hs|]. split; [reflexivity|]. split; [reflexivity|].
  split; [exact (semitones_shift_of_scale _ _ _ _ _ _ _ Hs Hb)|]. split.
  - rewrite py_max_Qmax. apply Q.max_compat; [reflexivity|]. ring.
  - apply py_max_lower.
Qed.

End PitchShift.

(** ** Truncation and the 16-bit cast *)

Lemma py_int_abs (x : Q) : Z.abs (py_int x) = Qfloor (Qabs x).
Proof.
  destruct x as [n d]. unfold py_int, Qfloor, Qabs. simpl.
  rewrite <- Z.quot_abs by discriminate.
  simpl (Z.abs (Zpos d)).
  apply Z.quot_div_nonneg; [apply Z.abs_nonneg | reflexivity].
Qed.

Lemma py_int_abs_le (x : Q) (n : Z) :
  Qabs x <= inject_Z n -> (Z.abs (py_int x) <= n)%Z.
Proof.
  intros H. rewrite py_int_abs.
  apply Qfloor_resp_le in H. now rewrite Qfloor_Z in H.
Qed.

Lemma Qfloor_between (x : Q) (n : Z) :
  inject_Z n <= x -> x < inject_Z (n + 1) -> Qfloor x = n.
Proof.
  intros Hlo Hhi.
  apply Qfloor_resp_le in Hlo. rewrite Qfloor_Z in Hlo.
  assert (Hf : inject_Z (Qfloor x) <= x) by apply Qfloor_le.
  assert (H : inject_Z (Qfloor x) < inject_Z (n + 1)).
  { eapply Qle_lt_trans; eassumption. }
  rewrite <- Zlt_Qlt in H. lia.
Qed.

Lemma py_int_abs_between (x : Q) (n : Z) :
  inject_Z n <= Qabs x -> Qabs x < inject_Z (n + 1) ->
  Z.abs (py_int x) = n.
Proof.
  intros. rewrite py_int_abs. now apply Qfloor_between.
Qed.

Lemma np_int16_in_range (x : Q) :
  (Z.abs (py_int x) <= 32767)%Z -> np_int16 x = py_int x.
Proof.
  intros H. unfold np_int16. rewrite Z.mod_small; lia.
Qed.

(** ** Peaks *)

Lemma peak_from_upper (a : list Q) (m : Q) :
  m <= peak_from m a /\ Forall (fun y => Qabs y <= peak_from m a) a.
Proof.
  revert m; induction a as [|x a IH]; intros m; simpl.
  - split; [apply Qle_refl | constructor].
  - destruct (IH (Qmax m (Qabs x))) as [H1 H2]. split.
    + eapply Qle_trans; [apply Q.le_max_l | exact H1].
    + constructor; [|exact H2].
      eapply Qle_trans; [apply Q.le_max_r | exact H1].
Qed.

Lemma peak_from_attained (a : list Q) (m : Q) :
  peak_from m a = m \/ exists y, In y a /\ peak_from m a = Qabs y.
Proof.
  revert m; induction a as [|x a IH]; intros m; simpl.
  - now left.
  - destruct (IH (Qmax m (Qabs x))) as [H | (y & Hy & H)].
    + rewrite H. unfold Qmax, GenericMinMax.gmax.
      destruct (m ?= Qabs x).
      * now left.
      * right. exists x. auto.
      * now left.
    + right. exists y. auto.
Qed.

Lemma np_max_abs_upper (a : list Q) (p : Q) :
  np_max_abs a = Ok p -> Forall (fun y => Qabs y <= p) a.
Proof.
  destruct a as [|x a]; [discriminate|]. simpl. intros H. inversion H; subst.
  destruct (peak_from_upper a (Qabs x)) as [H1 H2].
  constructor; assumption.
Qed.

Lemma np_max_abs_attained (a : list Q) (p : Q) :
  np_max_abs a = Ok p -> exists y, In y a /\ p = Qabs y.
Proof.
  destruct a as [|x a]; [discriminate|]. simpl. intros H. inversion H; subst.
  destruct (peak_from_attained a (Qabs x)) as [E | (y & Hy & E)].
  - exists x. split; [now left | exact E].
  - exists y. split; [now right | exact E].
Qed.

Lemma np_max_abs_defined (a : list Q) :
  a <> [] -> exists p, np_max_abs a = Ok p.
Proof.
  destruct a; [congruence|]. intros _. eexists. reflexivity.
Qed.

Lemma np_clip_inside (a : list Q) :
  Forall (fun x => Qabs x <= 1) a -> np_clip a (-1) 1 = a.
Proof.
  induction 1 as [|x a Hx _ IH]; [reflexivity|].
  simpl. rewrite IH. f_equal.
  apply Qabs_Qle_condition in Hx as [Hlo Hhi].
  assert (E1 : Qmax x (-1) = x).
  { unfold Qmax, GenericMinMax.gmax.
    destruct (x ?= -1) eqn:C; try reflexivity.
    apply Qlt_alt in C. exfalso. apply (Qlt_not_le _ _ C Hlo). }
  rewrite E1. unfold Qmin, GenericMinMax.gmin.
  destruct (x ?= 1) eqn:C; try reflexivity.
  apply Qgt_alt in C. exfalso. apply (Qlt_not_le _ _ C Hhi).
Qed.

Lemma np_clip_bounded (a : list Q) (lo hi : Q) :
  lo <= hi -> Forall (fun x => lo <= x /\ x <= hi) (np_clip a lo hi).
Proof.
  intros Hlh. unfold np_clip. apply Forall_forall. intros y Hy.
  apply in_map_iff in Hy as (x & <- & _). split.
  - apply Q.min_glb; [apply Q.le_max_r | exact Hlh].
  - apply Q.le_min_r.
Qed.

(** ** Mastering: normalisation, clipping, quantisation *)

Lemma Qabs_scaled (x p : Q) :
  0 < p -> Qabs (x / p * (95 # 100)) == Qabs x / p * (95 # 100).
Proof.
  intros Hp. unfold Qdiv. rewrite !Qabs_Qmult.
  rewrite (Qabs_pos (/ p)).
  - rewrite (Qabs_pos (95 # 100)); [reflexivity | discriminate].
  - apply Qlt_le_weak. now apply Qinv_lt_0_compat.
Qed.

Lemma Qabs_scaled_le (x p : Q) :
  0 < p -> Qabs x <= p -> Qabs (x / p * (95 # 100)) <= 95 # 100.
Proof.
  intros Hp Hx. rewrite Qabs_scaled by assumption.
  assert (H : Qabs x / p <= 1).
  { apply Qle_shift_div_r; [assumption|]. now rewrite Qmult_1_l. }
  lra.
Qed.

Lemma Qabs_scaled_peak (x p : Q) :
  0 < p -> p = Qabs x -> Qabs (x / p * (95 # 100)) == 95 # 100.
Proof.
  intros Hp E. rewrite Qabs_scaled by assumption. rewrite <- E.
  field. intros H. rewrite H in Hp. now apply Qlt_irrefl in Hp.
Qed.

Lemma quantize_bounded (x : Q) :
  Qabs x <= 1 -> (Z.abs (np_int16 (x * 32767)) <= 32767)%Z.
Proof.
  intros Hx.
  assert (H : (Z.abs (py_int (x * 32767)) <= 32767)%Z).
  { apply py_int_abs_le. rewrite Qabs_Qmult.
    change (Qabs 32767) with 32767. change (inject_Z 32767) with 32767. lra. }
  now rewrite np_int16_in_range.
Qed.

Lemma normalize_to_pcm_full_scale (mixed : list Q) (pcm : list Z) :
  normalize_to_pcm mixed = Ok pcm ->
  Forall (fun z => (- 32767 <= z <= 32767)%Z) pcm.
Proof.
  unfold normalize_to_pcm. destruct (np_max_abs mixed) as [peak|]; [|discriminate].
  cbn [bind]. intros H. inversion H; subst. clear H.
  apply Forall_forall. intros z Hz. apply in_map_iff in Hz as (x & <- & Hx).
  assert (Hb : -1 <= x /\ x <= 1).
  { revert x Hx. apply Forall_forall. now apply np_clip_bounded. }
  assert (Ha : Qabs x <= 1) by (now apply Qabs_Qle_condition).
  apply quantize_bounded in Ha. lia.
Qed.

Section Mastering.

Context {ext : Externals}.

(** A run of [mix_and_master] that returns, stage by stage. *)
Lemma mix_and_master_run (vocal_path output_path : string)
  (background_music : list Q) (w w' : world ext) (p : string) :
  mix_and_master vocal_path background_music output_path w = (Ok p, w') ->
  exists (vocals v b ducked eq mixed mastered : list Q) (pcm : list Z),
    load_vocals vocal_path background_music w = (Ok vocals, w) /\
    match_lengths vocals background_music = Ok (v, b) /\
    _apply_sidechain b v SAMPLE_RATE = Ok ducked /\
    run_board music_eq ducked SAMPLE_RATE = Ok eq /\
    vadd (vscale v 1) (vscale eq (35 # 100)) = Ok mixed /\
    run_board mastering mixed SAMPLE_RATE = Ok mastered /\
    normalize_to_pcm mastered = Ok pcm /\
    wavfile_write (files w) output_path SAMPLE_RATE pcm = (Ok tt, files w') /\
    p = output_path.
Proof.
  unfold mix_and_master, bind_py, lift, ret.
  destruct (load_vocals vocal_path background_music w) as [[vocals|] w1] eqn:E1;
    [|discriminate].
  assert (Hw : w1 = w).
  { unfold load_vocals in E1.
    destruct (path_exists (files w) vocal_path).
    - destruct (wavfile_read (files w) vocal_path) as [[? ?]|]; now inversion E1.
    - now inversion E1. }
  subst w1.
  destruct (match_lengths vocals background_music) as [[v b]|] eqn:E2;
    [|discriminate].
  destruct (_apply_sidechain b v SAMPLE_RATE) as [ducked|] eqn:E3;
    [|discriminate].
  destruct (run_board music_eq ducked SAMPLE_RATE) as [eq|] eqn:E4;
    [|discriminate].
  destruct (vadd (vscale v 1) (vscale eq (35 # 100))) as [mixed|] eqn:E5;
    [|discriminate].
  destruct (run_board mastering mixed SAMPLE_RATE) as [mastered|] eqn:E6;
    [|discriminate].
  destruct (normalize_to_pcm mastered) as [pcm|] eqn:En; [|discriminate].
  unfold write_wav.
  destruct (wavfile_write (files w) output_path SAMPLE_RATE pcm) as [[[]|] f] eqn:Ew;
    [|discriminate].
  intros H. injection H as <- <-.
  exists vocals, v, b, ducked, eq, mixed, mastered, pcm.
  split; [reflexivity|]. split; [exact E2|]. split; [exact E3|].
  split; [exact E4|]. split; [exact E5|]. split; [exact E6|].
  split; [exact En|]. split; [exact Ew | reflexivity].
Qed.

(** The peak of a normalised mix.  When the peak of [mixed] is positive,
    scaling by [0.95 / peak] puts the largest magnitude at 0.95, clipping to
    [-1, 1] changes nothing, and the largest 16-bit magnitude is 31128. *)
Lemma normalised_mix_peak (mixed : list Q) (peak : Q) :
  np_max_abs mixed = Ok peak ->
  0 < peak ->
  let scaled := vscale (vdiv mixed peak) (95 # 100) in
  (exists m, np_max_abs scaled = Ok m /\ m == 95 # 100) /\
  np_clip scaled (-1) 1 = scaled /\
  Forall (fun x => (Z.abs (np_int16 (x * 32767)) <= 31128)%Z) scaled /\
  (exists x, In x scaled /\ Z.abs (np_int16 (x * 32767)) = 31128%Z).
Proof.
  intros Hpeak Hpos scaled.
  assert (Hup : Forall (fun x => Qabs x <= 95 # 100) scaled).
  { apply Forall_forall. intros y Hy. unfold scaled, vscale, vdiv in Hy.
    rewrite map_map in Hy. apply in_map_iff in Hy as (x & <- & Hx).
    apply Qabs_scaled_le; [assumption|].
    pose proof (np_max_abs_upper _ _ Hpeak) as Hall.
    rewrite Forall_forall in Hall. now apply Hall. }
  assert (Hat : exists y, In y scaled /\ Qabs y == 95 # 100).
  { destruct (np_max_abs_attained _ _ Hpeak) as (x & Hx & E).
    exists (x / peak * (95 # 100)). split.
    - unfold scaled, vscale, vdiv. rewrite map_map.
      apply in_map_iff. now exists x.
    - now apply Qabs_scaled_peak. }
  assert (Hquant : forall y, Qabs y <= 95 # 100 ->
            (Z.abs (py_int (y * 32767)) <= 31128)%Z).
  { intros y Hy. rewrite py_int_abs. apply Z.lt_succ_r.
    assert (H : Qabs (y * 32767) < inject_Z 31129).
    { rewrite Qabs_Qmult. change (Qabs 32767) with 32767.
      change (inject_Z 31129) with 31129. lra. }
    pose proof (Qfloor_le (Qabs (y * 32767))) as Hf.
    assert (H' : inject_Z (Qfloor (Qabs (y * 32767))) < inject_Z 31129).
    { eapply Qle_lt_trans; eassumption. }
    rewrite <- Zlt_Qlt in H'. lia. }
  split; [|split; [|split]].
  - destruct scaled as [|s0 rest] eqn:Es.
    { destruct Hat as (y & [] & _). }
    destruct (np_max_abs_defined (s0 :: rest)) as [m Hm]; [discriminate|].
    exists m. split; [exact Hm|].
    destruct (np_max_abs_attained _ _ Hm) as (y & Hy & ->).
    apply Qle_antisym.
    + rewrite Forall_forall in Hup. now apply Hup.
    + destruct Hat as (z & Hz & Ez). rewrite <- Ez.
      pose proof (np_max_abs_upper _ _ Hm) as Hall.
      rewrite Forall_forall in Hall. exact (Hall z Hz).
  - apply np_clip_inside. eapply Forall_impl; [|exact Hup].
    intros a Ha. simpl in Ha. lra.
  - eapply Forall_impl; [|exact Hup]. intros y Hy. simpl in Hy.
    specialize (Hquant y Hy). rewrite np_int16_in_range; lia.
  - destruct Hat as (y & Hy & Ey). exists y. split; [assumption|].
    rewrite np_int16_in_range.
    + apply py_int_abs_between; rewrite Qabs_Qmult, Ey; vm_compute;
        [discriminate | reflexivity].
    + assert (Hle : Qabs y <= 95 # 100) by (rewrite Ey; apply Qle_refl).
      specialize (Hquant y Hle). lia.
Qed.

(** C1.  Whatever [mix_and_master] hands to [wavfile.write] is the
    mastered mix of that run, normalised, clipped and quantised: the vocal
    and the backing track went through the length match, the ducking, the
    equaliser, the sum and the mastering chain; the result was scaled by
    [0.95 / peak] when its peak is positive, clipped to [-1, 1] and cast to
    16 bits, and that buffer is what the files hold afterwards.  No sample
    written exceeds full scale.  When the peak is positive the scaled mix
    has its largest magnitude at 0.95, clipping changes nothing, and the
    largest magnitude written is 31128 (0.95 * 32767 truncated), attained. *)
Theorem C1_master_peak_is_095 (vocal_path output_path : string)
  (background_music : list Q) (w w' : world ext) (p : string) :
  mix_and_master vocal_path background_music output_path w = (Ok p, w') ->
  exists (vocals v b ducked eq mixed mastered : list Q) (peak : Q),
    load_vocals vocal_path background_music w = (Ok vocals, w) /\
    match_lengths vocals background_music = Ok (v, b) /\
    _apply_sidechain b v SAMPLE_RATE = Ok ducked /\
    run_board music_eq ducked SAMPLE_RATE = Ok eq /\
    vadd (vscale v 1) (vscale eq (35 # 100)) = Ok mixed /\
    run_board mastering mixed SAMPLE_RATE = Ok mastered /\
    np_max_abs mastered = Ok peak /\
    p = output_path /\
    let normalised :=
      if Qltb 0 peak then vscale (vdiv mastered peak) (95 # 100)
      else mastered in
    let clipped := np_clip normalised (-1) 1 in
    let pcm := map (fun x => np_int16 (x * 32767)) clipped in
    wavfile_write (files w) output_path SAMPLE_RATE pcm = (Ok tt, files w') /\
    Forall (fun x => -1 <= x /\ x <= 1) clipped /\
    Forall (fun z => (- 32767 <= z <= 32767)%Z) pcm /\
    (0 < peak ->
     normalised = vscale (vdiv mastered peak) (95 # 100) /\
     (exists m, np_max_abs normalised = Ok m /\ m == 95 # 100) /\
     clipped = normalised /\
     Forall (fun z => (Z.abs z <= 31128)%Z) pcm /\
     (exists z, In z pcm /\ Z.abs z = 31128%Z) /\
     inject_Z 31128 <= (95 # 100) * 32767 /\
     (95 # 100) * 32767 < inject_Z 31128 + 1).
Proof.
  intros Hrun.
  destruct (mix_and_master_run _ _ _ _ _ _ Hrun)
    as (vocals & v & b & ducked & eq & mixed & mastered & pcm
        & H1 & H2 & H3 & H4 & H5 & H6 & Hn & Hw & Hp).
  pose proof (normalize_to_pcm_full_scale _ _ Hn) as Hfull.
  unfold normalize_to_pcm in Hn.
  destruct (np_max_abs mastered) as [peak|] eqn:Epeak; [|discriminate].
  cbn [bind] in Hn.
  exists vocals, v, b, ducked, eq, mixed, mastered, peak.
  split; [exact H1|]. split; [exact H2|]. split; [exact H3|].
  split; [exact H4|]. split; [exact H5|]. split; [exact H6|].
  split; [exact Epeak|]. split; [exact Hp|].
  cbv zeta.
  assert (Epcm : map (fun x => np_int16 (x * 32767))
                   (np_clip (if Qltb 0 peak
                             then vscale (vdiv mastered peak) (95 # 100)
                             else mastered) (-1) 1) = pcm)
    by congruence.
  rewrite Epcm.
  split; [exact Hw|]. split; [apply np_clip_bounded; discriminate|].
  split; [exact Hfull|].
  intros Hpos.
  destruct (normalised_mix_peak mastered peak Epeak Hpos)
    as (Hm & Hclip & Hall & Hex).
  assert (Hb : Qltb 0 peak = true) by now apply Qltb_lt.
  rewrite Hb in Epcm |- *. rewrite Hclip in Epcm |- *.
  split; [reflexivity|]. split; [exact Hm|]. split; [reflexivity|].
  rewrite <- Epcm. split; [|split; [|split]].
  - apply Forall_map. exact Hall.
  - destruct Hex as (x & Hx & Ex).
    exists (np_int16 (x * 32767)). split; [|exact Ex].
    apply in_map_iff. now exists x.
  - vm_compute. discriminate.
  - vm_compute. reflexivity.
Qed.

End Mastering.

(** ** Slices, ramps and broadcasting *)

Lemma zeros_length (n : nat) : length (zeros n) = n.
Proof. apply repeat_length. Qed.

Lemma ones_length (n : nat) : length (ones n) = n.
Proof. apply repeat_length. Qed.

Lemma map2_length {A B C : Type} (f : A -> B -> C) (a : list A) (b : list B) :
  length (map2 f a b) = Nat.min (length a) (length b).
Proof.
  revert b; induction a as [|x a IH]; intros [|y b]; simpl; auto.
Qed.

Lemma slice_bounds_le (n : nat) (start stop : option Z) :
  (fst (slice_bounds n start stop) <= n /\
   snd (slice_bounds n start stop) <= n)%nat.
Proof.
  unfold slice_bounds, norm_index; cbn [fst snd].
  destruct start as [i|], stop as [j|];
    repeat match goal with
           | |- context [(?x <? 0)%Z] => destruct (Z.ltb_spec x 0)
           end; lia.
Qed.

Lemma splice_length {A : Type} (a v : list A) (lo m : nat) :
  (lo + m <= length a)%nat -> length v = m ->
  length (splice a lo m v) = length a.
Proof.
  intros Hle Hv. unfold splice.
  rewrite !length_app, length_firstn, length_skipn. lia.
Qed.

Lemma get_slice_length {A : Type} (a : list A) (start stop : option Z) :
  length (get_slice a start stop)
    = (snd (slice_bounds (length a) start stop)
       - fst (slice_bounds (length a) start stop))%nat.
Proof.
  unfold get_slice.
  pose proof (slice_bounds_le (length a) start stop) as [H1 H2].
  destruct (slice_bounds (length a) start stop) as [lo hi]; simpl in *.
  rewrite length_firstn, length_skipn. lia.
Qed.

Lemma broadcast_to_length (m : nat) (v v' : list Q) :
  broadcast_to m v = Ok v' -> length v' = m.
Proof.
  unfold broadcast_to. destruct (Nat.eqb_spec (length v) m) as [E|E].
  - intros H. inversion H. congruence.
  - destruct v as [|x [|y v]]; try discriminate.
    intros H. inversion H. apply repeat_length.
Qed.

Lemma broadcast_to_same (m : nat) (v : list Q) :
  length v = m -> broadcast_to m v = Ok v.
Proof.
  intros E. unfold broadcast_to. now rewrite (proj2 (Nat.eqb_eq _ _) E).
Qed.

Lemma broadcast_to_mismatch (m : nat) (v : list Q) :
  length v <> m -> length v <> 1%nat -> broadcast_to m v = Raise ValueError.
Proof.
  intros E1 E2. unfold broadcast_to.
  rewrite (proj2 (Nat.eqb_neq _ _) E1).
  destruct v as [|x [|y v]]; simpl in *; congruence.
Qed.

Lemma set_slice_length (a v a' : list Q) (start stop : option Z) :
  set_slice a start stop v = Ok a' -> length a' = length a.
Proof.
  unfold set_slice.
  pose proof (slice_bounds_le (length a) start stop) as [H1 H2].
  destruct (slice_bounds (length a) start stop) as [lo hi]; simpl in *.
  destruct (broadcast_to (hi - lo) v) as [v'|] eqn:E; [|discriminate].
  cbn [bind]. intros H. inversion H.
  apply splice_length; [lia | now apply broadcast_to_length in E].
Qed.

Lemma set_slice_same_shape (a v : list Q) (start stop : option Z) :
  length v = (snd (slice_bounds (length a) start stop)
              - fst (slice_bounds (length a) start stop))%nat ->
  exists a', set_slice a start stop v = Ok a'.
Proof.
  unfold set_slice. destruct (slice_bounds (length a) start stop) as [lo hi].
  simpl. intros E. rewrite broadcast_to_same by assumption.
  eexists. reflexivity.
Qed.

Lemma set_slice_shape_mismatch (a v : list Q) (start stop : option Z) :
  length v <> (snd (slice_bounds (length a) start stop)
               - fst (slice_bounds (length a) start stop))%nat ->
  length v <> 1%nat ->
  set_slice a start stop v = Raise ValueError.
Proof.
  unfold set_slice. destruct (slice_bounds (length a) start stop) as [lo hi].
  simpl. intros E1 E2. now rewrite broadcast_to_mismatch.
Qed.

Lemma fill_slice_length (a : list Q) (start stop : option Z) (x : Q) :
  length (fill_slice a start stop x) = length a.
Proof.
  unfold fill_slice.
  pose proof (slice_bounds_le (length a) start stop) as [H1 H2].
  destruct (slice_bounds (length a) start stop) as [lo hi]; simpl in *.
  apply splice_length; [lia | apply repeat_length].
Qed.

Lemma iop_slice_length (op : Q -> Q -> Q) (a v a' : list Q)
  (start stop : option Z) :
  iop_slice op a start stop v = Ok a' -> length a' = length a.
Proof.
  unfold iop_slice.
  pose proof (slice_bounds_le (length a) start stop) as [H1 H2].
  pose proof (get_slice_length a start stop) as Hg.
  destruct (slice_bounds (length a) start stop) as [lo hi]; simpl in *.
  destruct (broadcast_to (hi - lo) v) as [v'|] eqn:E; [|discriminate].
  cbn [bind]. intros H. inversion H.
  apply broadcast_to_length in E.
  apply splice_length; [lia|]. rewrite map2_length. lia.
Qed.

Lemma iop_slice_same_shape (op : Q -> Q -> Q) (a v : list Q)
  (start stop : option Z) :
  length v = (snd (slice_bounds (length a) start stop)
              - fst (slice_bounds (length a) start stop))%nat ->
  exists a', iop_slice op a start stop v = Ok a'.
Proof.
  unfold iop_slice. destruct (slice_bounds (length a) start stop) as [lo hi].
  simpl. intros E. rewrite broadcast_to_same by assumption.
  eexists. reflexivity.
Qed.

Lemma np_linspace_length (a b : Q) (n : Z) :
  (0 <= n)%Z ->
  exists l, np_linspace a b n = Ok l /\ length l = Z.to_nat n.
Proof.
  intros Hn. unfold np_linspace.
  destruct (Z.ltb_spec n 0); [lia|].
  destruct (Z.eqb_spec n 1) as [->|_].
  - now exists [a].
  - eexists. split; [reflexivity|]. now rewrite length_map, length_seq.
Qed.

Lemma np_linspace_negative (a b : Q) (n : Z) :
  (n < 0)%Z -> np_linspace a b n = Raise ValueError.
Proof.
  intros Hn. unfold np_linspace. now rewrite (proj2 (Z.ltb_lt _ _) Hn).
Qed.

Lemma binop_same_length (op : Q -> Q -> Q) (a b : list Q) :
  length a = length b ->
  binop op a b = Ok (map2 op a b).
Proof.
  intros E. unfold binop. now rewrite (proj2 (Nat.eqb_eq _ _) E).
Qed.
Ltac slice_arith :=
  unfold slice_bounds, norm_index, len in *; cbn [fst snd];
  repeat match goal with
         | |- context [(?x <? ?y)%Z] => destruct (Z.ltb_spec x y)
         end;
  lia.

Lemma adsr_constants :
  py_int (inject_Z 44100 * (2 # 100)) = 882%Z /\
  py_int (inject_Z 44100 * (5 # 100)) = 2205%Z /\
  py_int (inject_Z 44100 * (1 # 10)) = 4410%Z.
Proof. repeat split; reflexivity. Qed.

Lemma adsr_decay_step (e1 : list Q) :
  (882 <= length e1)%nat ->
  exists e2,
    (if (882 + 2205 <? len e1)%Z
     then (ramp <- np_linspace 1 (7 # 10) 2205 ;;
           set_slice e1 (Some 882%Z) (Some (882 + 2205)%Z) ramp)%py
     else Ok e1) = Ok e2 /\ length e2 = length e1.
Proof.
  intros H1. unfold len. destruct (Z.ltb_spec (882 + 2205) (Z.of_nat (length e1))).
  - destruct (np_linspace_length 1 (7 # 10) 2205) as (r & -> & L); [lia|].
    cbn [bind].
    destruct (set_slice_same_shape e1 r (Some 882%Z) (Some (882 + 2205)%Z))
      as [e2 E2].
    { slice_arith. }
    exists e2. split; [exact E2|]. now apply set_slice_length in E2.
  - now exists e1.
Qed.

Lemma adsr_envelope_short (n : nat) :
  (n < 4410)%nat -> adsr_envelope n 44100 = Raise ValueError.
Proof.
  intros Hn. unfold adsr_envelope. cbv zeta.
  destruct adsr_constants as (-> & -> & ->).
  change (0 <? 882)%Z with true. change (0 <? 2205)%Z with true.
  change (0 <? 4410)%Z with true. cbn [andb].
  destruct (np_linspace_length 0 1 882) as (r1 & -> & L1); [lia|].
  cbn [bind].
  destruct (Nat.lt_ge_cases n 882) as [Hs|Hs].
  { rewrite set_slice_shape_mismatch; [reflexivity| |lia].
    rewrite ones_length. slice_arith. }
  destruct (set_slice_same_shape (ones n) r1 None (Some 882%Z)) as [e1 E1].
  { rewrite ones_length. slice_arith. }
  rewrite E1. cbn [bind]. apply set_slice_length in E1. rewrite ones_length in E1.
  destruct (adsr_decay_step e1) as (e2 & -> & L2); [lia|]. cbn [bind].
  destruct (np_linspace_length (7 # 10) 0 4410) as (r3 & -> & L3); [lia|].
  cbn [bind].
  apply set_slice_shape_mismatch; [|lia].
  assert (L : length (if (882 + 2205 <? len e2 - 4410)%Z
                      then fill_slice e2 (Some (882 + 2205)%Z)
                             (Some (len e2 - 4410)%Z) (7 # 10)
                      else e2) = n).
  { destruct (882 + 2205 <? len e2 - 4410)%Z; [rewrite fill_slice_length|]; lia. }
  rewrite L. slice_arith.
Qed.

Lemma adsr_envelope_long (n : nat) :
  (4410 <= n)%nat ->
  exists envelope, adsr_envelope n 44100 = Ok envelope /\ length envelope = n.
Proof.
  intros Hn. unfold adsr_envelope. cbv zeta.
  destruct adsr_constants as (-> & -> & ->).
  change (0 <? 882)%Z with true. change (0 <? 2205)%Z with true.
  change (0 <? 4410)%Z with true. cbn [andb].
  destruct (np_linspace_length 0 1 882) as (r1 & -> & L1); [lia|].
  cbn [bind].
  destruct (set_slice_same_shape (ones n) r1 None (Some 882%Z)) as [e1 E1].
  { rewrite ones_length. slice_arith. }
  rewrite E1. cbn [bind]. apply set_slice_length in E1. rewrite ones_length in E1.
  destruct (adsr_decay_step e1) as (e2 & -> & L2); [lia|]. cbn [bind].
  destruct (np_linspace_length (7 # 10) 0 4410) as (r3 & -> & L3); [lia|].
  cbn [bind].
  set (e3 := if (882 + 2205 <? len e2 - 4410)%Z then _ else _).
  assert (L : length e3 = n).
  { unfold e3.
    destruct (882 + 2205 <? len e2 - 4410)%Z; [rewrite fill_slice_length|]; lia. }
  destruct (set_slice_same_shape e3 r3 (Some (- (4410))%Z) None) as [e4 E4].
  { rewrite L. slice_arith. }
  exists e4. split; [exact E4|]. apply set_slice_length in E4. congruence.
Qed.

Section Instrument.

Context {ext : Externals}.

(** The synthesizer at 44.1 kHz: a note of fewer than 4410 samples (100 ms)
    is refused when the release ramp is stored, and a longer one is
    returned with [int(sr * duration)] samples. *)
Lemma generate_instrument_short (freq duration : Q) (instrument_type : string) :
  (0 <= py_int (inject_Z 44100 * duration) < 4410)%Z ->
  _generate_instrument freq duration 44100 instrument_type = Raise ValueError.
Proof.
  intros Hn. unfold _generate_instrument. cbv zeta.
  destruct (np_linspace_length 0 duration (py_int (inject_Z 44100 * duration)))
    as (t & -> & Lt); [lia|].
  cbn [bind].
  set (signal := if String.eqb instrument_type "synth" then _ else _).
  assert (Ls : length signal = length t).
  { unfold signal. destruct (String.eqb instrument_type "synth");
      [|destruct (String.eqb instrument_type "bass")]; apply length_map. }
  rewrite adsr_envelope_short; [reflexivity | lia].
Qed.

Lemma generate_instrument_long (freq duration : Q) (instrument_type : string) :
  (4410 <= py_int (inject_Z 44100 * duration))%Z ->
  exists note,
    _generate_instrument freq duration 44100 instrument_type = Ok note /\
    length note = Z.to_nat (py_int (inject_Z 44100 * duration)).
Proof.
  intros Hn. unfold _generate_instrument. cbv zeta.
  destruct (np_linspace_length 0 duration (py_int (inject_Z 44100 * duration)))
    as (t & -> & Lt); [lia|].
  cbn [bind].
  set (signal := if String.eqb instrument_type "synth" then _ else _).
  assert (Ls : length signal = length t).
  { unfold signal. destruct (String.eqb instrument_type "synth");
      [|destruct (String.eqb instrument_type "bass")]; apply length_map. }
  destruct (adsr_envelope_long (length signal)) as (envelope & -> & Le); [lia|].
  cbn [bind]. unfold vmul. rewrite binop_same_length by congruence.
  eexists. split; [reflexivity|]. rewrite map2_length. lia.
Qed.

(** C2. At the engine's sample rate, a note whose sample count
    [int(44100 * duration)] is below the 4410 samples of the release region
    is not turned into a tone: the generator raises [ValueError], whatever
    the frequency and the timbre. *)
Theorem C2_short_note_raises (freq duration : Q) (instrument_type : string) :
  (0 <= py_int (inject_Z SAMPLE_RATE * duration) < 4410)%Z ->
  _generate_instrument freq duration SAMPLE_RATE instrument_type
    = Raise ValueError.
Proof. exact (generate_instrument_short freq duration instrument_type). Qed.

End Instrument.

Lemma C2_short_note_raises_witness :
  @_generate_instrument sample_ext 440 (5 # 100) SAMPLE_RATE "synth"
    = Raise ValueError.
Proof.
  apply (@C2_short_note_raises sample_ext 440 (5 # 100) "synth").
  vm_compute. split; [discriminate | reflexivity].
Defined.

(** ** The ducking loop *)

Lemma py_range_upto (n : nat) :
  py_range 0 (Z.of_nat n) 1 = Ok (map Z.of_nat (seq 0 n)).
Proof.
  unfold py_range. cbn [Z.eqb Z.ltb Z.compare].
  replace (Z.to_nat ((Z.of_nat n - 0 + 1 - 1) / 1)) with n
    by (rewrite Z.div_1_r; lia).
  f_equal. apply map_ext. intros k. lia.
Qed.

Lemma get_item_nth {A : Type} (a : list A) (i : nat) (x : A) :
  nth_error a i = Some x -> get_item a (Z.of_nat i) = Ok x.
Proof.
  intros H. unfold get_item.
  destruct (Z.ltb_spec (Z.of_nat i) 0); [lia|].
  destruct (Z.ltb_spec (Z.of_nat i) 0); [lia|].
  now rewrite Nat2Z.id, H.
Qed.

Lemma get_item_out_of_range {A : Type} (a : list A) (i : nat) :
  (length a <= i)%nat -> get_item a (Z.of_nat i) = Raise IndexError.
Proof.
  intros H. unfold get_item.
  destruct (Z.ltb_spec (Z.of_nat i) 0); [lia|].
  destruct (Z.ltb_spec (Z.of_nat i) 0); [lia|].
  rewrite Nat2Z.id. now rewrite (proj2 (nth_error_None a i) H).
Qed.

Lemma set_item_at (a : list Q) (i : nat) (x : Q) :
  (i < length a)%nat ->
  set_item a (Z.of_nat i) x = Ok (firstn i a ++ x :: skipn (S i) a).
Proof.
  intros H. unfold set_item, len.
  destruct (Z.ltb_spec (Z.of_nat i) 0); [lia|].
  destruct (Z.ltb_spec (Z.of_nat i) 0); [lia|].
  destruct (Z.leb_spec (Z.of_nat (length a)) (Z.of_nat i)); [lia|].
  cbn [orb]. unfold splice. rewrite Nat2Z.id.
  now replace (i + 1)%nat with (S i) by lia.
Qed.

Lemma smooth_from_length (prev : Q) (active : list bool) :
  length (smooth_from prev active) = length active.
Proof.
  revert prev; induction active as [|a rest IH]; intros prev; simpl; auto.
Qed.

Lemma spec_ducking_length (active : list bool) :
  length (spec_ducking active) = length active.
Proof.
  destruct active; simpl; [reflexivity|]. now rewrite smooth_from_length.
Qed.

(** Each value after the first is the smoothing of the value before it. *)
Lemma smooth_from_step (active : list bool) (prev : Q) (i : nat) (a : bool) :
  nth_error active i = Some a ->
  exists p,
    nth_error (prev :: smooth_from prev active) i = Some p /\
    nth_error (smooth_from prev active) i = Some (smooth p a).
Proof.
  revert prev i; induction active as [|a0 rest IH]; intros prev [|i] H;
    simpl in H; try discriminate.
  - inversion H; subst. exists prev. now split.
  - destruct (IH (smooth prev a0) i H) as (p & Hp & Hs).
    exists p. split; assumption.
Qed.

Lemma spec_ducking_step (active : list bool) (i : nat) (a : bool) :
  nth_error active (S i) = Some a ->
  exists p,
    nth_error (spec_ducking active) i = Some p /\
    nth_error (spec_ducking active) (S i) = Some (smooth p a).
Proof.
  destruct active as [|a0 rest]; [discriminate|]. simpl. intros H.
  exact (smooth_from_step rest (target_of a0) i a H).
Qed.

Lemma spec_ducking_first (active : list bool) (a : bool) :
  nth_error active 0 = Some a ->
  nth_error (spec_ducking active) 0 = Some (target_of a).
Proof.
  destruct active; simpl; intros H; inversion H; reflexivity.
Qed.

Lemma firstn_snoc {A : Type} (l : list A) (i : nat) (x : A) :
  nth_error l i = Some x -> firstn (S i) l = firstn i l ++ [x].
Proof.
  revert i; induction l as [|y l IH]; intros [|i] H; simpl in *;
    try discriminate.
  - now inversion H.
  - f_equal. now apply IH.
Qed.

Lemma ducking_loop (active : list bool) (n : nat) :
  (n <= length active)%nat ->
  forall cnt start,
    (start + cnt = n)%nat ->
    for_each_pure (map Z.of_nat (seq start cnt)) (ducking_body active)
      (firstn start (spec_ducking (firstn n active)) ++ ones cnt)
    = Ok (spec_ducking (firstn n active)).
Proof.
  intros Hn. set (G := spec_ducking (firstn n active)).
  assert (LG : length G = n).
  { unfold G. rewrite spec_ducking_length, length_firstn. lia. }
  induction cnt as [|cnt IH]; intros start Hs.
  - simpl. rewrite app_nil_r. f_equal. apply firstn_all2. lia.
  - cbn [seq map for_each_pure].
    assert (Hlt : (start < n)%nat) by lia.
    destruct (nth_error active start) as [a|] eqn:Ea;
      [|apply nth_error_None in Ea; lia].
    assert (Ea' : nth_error (firstn n active) start = Some a).
    { rewrite nth_error_firstn. destruct (Nat.ltb_spec start n); [assumption|lia]. }
    assert (Ld : length (firstn start G ++ ones (S cnt)) = n).
    { rewrite length_app, length_firstn, ones_length. lia. }
    assert (Hnew : forall v, nth_error G start = Some v ->
              set_item (firstn start G ++ ones (S cnt)) (Z.of_nat start) v
              = Ok (firstn (S start) G ++ ones cnt)).
    { intros v Hv. rewrite set_item_at by lia. f_equal.
      rewrite (firstn_snoc G start v Hv), <- app_assoc.
      rewrite firstn_app, firstn_firstn, length_firstn.
      replace (Nat.min start start) with start by lia.
      replace (start - Nat.min start (length G))%nat with 0%nat by lia.
      rewrite firstn_O, app_nil_r.
      rewrite skipn_app, length_firstn.
      replace (S start - Nat.min start (length G))%nat with 1%nat by lia.
      rewrite skipn_all2 by (rewrite length_firstn; lia).
      reflexivity. }
    unfold ducking_body at 1.
    rewrite (get_item_nth active start a Ea). cbn [bind].
    destruct start as [|i].
    + change (0 <? Z.of_nat 0)%Z with false. cbv iota.
      change (if a then duck_amount else 1) with (target_of a).
      rewrite (Hnew (target_of a)).
      * cbn [bind]. apply IH. lia.
      * unfold G. now apply spec_ducking_first.
    + destruct (Z.ltb_spec 0 (Z.of_nat (S i))); [|lia].
      destruct (spec_ducking_step (firstn n active) i a Ea') as (p & Hp & Hv).
      fold G in Hp, Hv.
      replace (Z.of_nat (S i) - 1)%Z with (Z.of_nat i) by lia.
      rewrite (get_item_nth _ i p).
      * cbn [bind].
        change (p * (if a then 95 # 100 else 99 # 100) +
                (if a then duck_amount else 1) *
                (1 - (if a then 95 # 100 else 99 # 100)))
          with (smooth p a).
        rewrite (Hnew _ Hv). cbn [bind]. apply IH. lia.
      * rewrite nth_error_app1 by (rewrite length_firstn; lia).
        rewrite nth_error_firstn. destruct (Nat.ltb_spec i (S i)); [assumption|lia].
Qed.

(** The loop of the source computes the curve of the specification, on the
    first [n] activity flags. *)
Lemma ducking_curve_refines (active : list bool) (n : nat) :
  (n <= length active)%nat ->
  ducking_curve active n = Ok (spec_ducking (firstn n active)).
Proof.
  intros Hn. unfold ducking_curve. rewrite py_range_upto. cbn [bind].
  exact (ducking_loop active n Hn n 0%nat eq_refl).
Qed.

(** ** Loops without effects: invariants *)

Lemma for_each_pure_total {A S : Type} (P : S -> Prop) (R : A -> Prop)
  (body : A -> S -> result S) (xs : list A) :
  Forall R xs ->
  (forall x s, R x -> P s -> exists s', body x s = Ok s' /\ P s') ->
  forall s, P s -> exists s', for_each_pure xs body s = Ok s' /\ P s'.
Proof.
  intros HR Hbody. induction HR as [|x xs Hx _ IH]; intros s Hs.
  - now exists s.
  - cbn [for_each_pure]. destruct (Hbody x s Hx Hs) as (s1 & -> & H1).
    cbn [bind]. now apply IH.
Qed.

Lemma for_each_pure_partial {A S : Type} (P : S -> Prop)
  (body : A -> S -> result S) (xs : list A) :
  (forall x s s1, P s -> body x s = Ok s1 -> P s1) ->
  forall s s', P s -> for_each_pure xs body s = Ok s' -> P s'.
Proof.
  intros Hbody. induction xs as [|x xs IH]; intros s s' Hs H.
  - simpl in H. now inversion H; subst.
  - cbn [for_each_pure] in H. destruct (body x s) as [s1|] eqn:E; [|discriminate].
    cbn [bind] in H. exact (IH s1 s' (Hbody x s s1 Hs E) H).
Qed.

Lemma py_range_bounds (start stop step : Z) (l : list Z) :
  (0 < step)%Z -> py_range start stop step = Ok l ->
  Forall (fun i => (start <= i < stop)%Z) l.
Proof.
  intros Hstep. unfold py_range.
  destruct (Z.eqb_spec step 0); [lia|].
  destruct (Z.ltb_spec 0 step); [|lia].
  intros Hl. inversion Hl; subst. clear Hl.
  apply Forall_forall. intros i Hi.
  apply in_map_iff in Hi as (k & <- & Hk). apply in_seq in Hk.
  set (c := ((stop - start + step - 1) / step)%Z) in *.
  assert (Hc : (c * step <= stop - start + step - 1)%Z).
  { unfold c. rewrite Z.mul_comm. apply Z.mul_div_le. lia. }
  assert (Hk' : (Z.of_nat k + 1 <= c)%Z) by lia.
  nia.
Qed.

Lemma py_range_empty (start stop step : Z) :
  (0 < step)%Z -> (stop <= start)%Z -> py_range start stop step = Ok [].
Proof.
  intros Hstep Hle. unfold py_range.
  destruct (Z.eqb_spec step 0); [lia|].
  destruct (Z.ltb_spec 0 step); [|lia].
  assert (Hc : ((stop - start + step - 1) / step <= 0)%Z).
  { assert (((stop - start + step - 1) / step < 1)%Z); [|lia].
    apply Z.div_lt_upper_bound; lia. }
  destruct ((stop - start + step - 1) / step)%Z; try lia; reflexivity.
Qed.

(** ** The vocal envelope of a silent or short vocal *)

Lemma Forall_firstn {A : Type} (P : A -> Prop) (n : nat) (l : list A) :
  Forall P l -> Forall P (firstn n l).
Proof.
  intros H. revert n. induction H as [|x l Hx _ IH]; intros [|n]; simpl;
    try constructor; auto.
Qed.

Lemma Forall_skipn {A : Type} (P : A -> Prop) (n : nat) (l : list A) :
  Forall P l -> Forall P (skipn n l).
Proof.
  intros H. revert n. induction H as [|x l Hx Hl IH]; intros [|n]; simpl;
    try constructor; auto.
Qed.

Lemma Forall_repeat {A : Type} (P : A -> Prop) (x : A) (n : nat) :
  P x -> Forall P (repeat x n).
Proof.
  intros H. induction n; simpl; constructor; assumption.
Qed.

Lemma Forall_get_slice {A : Type} (P : A -> Prop) (a : list A)
  (start stop : option Z) :
  Forall P a -> Forall P (get_slice a start stop).
Proof.
  intros H. unfold get_slice.
  destruct (slice_bounds (length a) start stop) as [lo hi].
  now apply Forall_firstn, Forall_skipn.
Qed.

Lemma Forall_fill_slice (P : Q -> Prop) (a : list Q) (start stop : option Z)
  (x : Q) :
  Forall P a -> P x -> Forall P (fill_slice a start stop x).
Proof.
  intros Ha Hx. unfold fill_slice, splice.
  destruct (slice_bounds (length a) start stop) as [lo hi].
  apply Forall_app. split; [now apply Forall_firstn|].
  apply Forall_app. split; [now apply Forall_repeat | now apply Forall_skipn].
Qed.

Lemma np_sum_zero (a : list Q) :
  Forall (fun x => x == 0) a -> np_sum a == 0.
Proof.
  unfold np_sum. intros H.
  assert (G : forall acc, acc == 0 -> fold_left Qplus a acc == 0).
  { induction H as [|x a Hx _ IH]; intros acc Hacc; simpl; [assumption|].
    apply IH. rewrite Hacc, Hx. reflexivity. }
  apply G. reflexivity.
Qed.

Lemma np_mean_zero (a : list Q) :
  Forall (fun x => x == 0) a -> np_mean a == 0.
Proof.
  intros H. unfold np_mean, Qdiv. rewrite (np_sum_zero a H). ring.
Qed.

Lemma squares_zero (a : list Q) :
  Forall (fun x => x == 0) a -> Forall (fun x => x == 0) (map (fun x => x * x) a).
Proof.
  induction 1 as [|x a Hx _ IH]; simpl; constructor; [|assumption].
  rewrite Hx. ring.
Qed.

Lemma py_max_le (a b c : Q) : a <= c -> b <= c -> py_max a b <= c.
Proof.
  intros Ha Hb. unfold py_max. now destruct (Qltb a b).
Qed.

Lemma window_constants :
  py_int ((5 # 100) * inject_Z 44100) = 2205%Z /\ (2205 / 2 = 1102)%Z.
Proof. split; reflexivity. Qed.

Section Sidechain.

Context {ext : Externals}.

Lemma vocal_envelope_short (vocals : list Q) :
  (length vocals < 2205)%nat ->
  exists envelope,
    vocal_envelope_of vocals 44100 = Ok envelope /\ quiet vocals envelope.
Proof.
  intros Hs. unfold vocal_envelope_of. cbv zeta.
  destruct window_constants as [-> ->].
  rewrite py_range_empty by (unfold len; lia). cbn [bind for_each_pure].
  eexists. split; [reflexivity|]. split; [apply zeros_length|].
  apply Forall_repeat. discriminate.
Qed.

Lemma vocal_envelope_silent (vocals : list Q) :
  (forall x, x == 0 -> np_sqrt x == 0) ->
  Forall (fun x => x == 0) vocals ->
  exists envelope,
    vocal_envelope_of vocals 44100 = Ok envelope /\ quiet vocals envelope.
Proof.
  intros Hsqrt Hz. unfold vocal_envelope_of. cbv zeta.
  destruct window_constants as [-> ->].
  destruct (py_range 0 (len vocals - 2205) 1102) as [starts|] eqn:Er;
    [|unfold py_range in Er; discriminate].
  cbn [bind].
  apply (for_each_pure_total (quiet vocals)
           (fun i => (0 <= i < len vocals - 2205)%Z)).
  - apply (py_range_bounds 0 (len vocals - 2205) 1102 starts); [lia | exact Er].
  - intros i env Hi [Hl Hq].
    destruct (nth_error env (Z.to_nat i)) as [held|] eqn:En;
      [|apply nth_error_None in En; unfold len in Hi; lia].
    assert (Hg : get_item env i = Ok held).
    { rewrite <- (Z2Nat.id i) by lia. now apply get_item_nth. }
    rewrite Hg. cbn [bind]. eexists. split; [reflexivity|]. split.
    + rewrite fill_slice_length. exact Hl.
    + apply Forall_fill_slice; [exact Hq|].
      apply py_max_le.
      * rewrite Forall_forall in Hq. apply Hq. eapply nth_error_In; eassumption.
      * rewrite Hsqrt; [discriminate|].
        apply np_mean_zero, squares_zero. now apply Forall_get_slice.
  - split; [apply zeros_length | apply Forall_repeat; discriminate].
Qed.

End Sidechain.
(** ** The smoothed gain *)

Lemma smooth_in_range (prev : Q) (a : bool) :
  4 # 10 <= prev <= 1 -> 4 # 10 <= smooth prev a <= 1.
Proof.
  intros [H1 H2]. unfold smooth, target_of, rate_of. destruct a; split; lra.
Qed.

Lemma smooth_from_in_range (active : list bool) (prev : Q) :
  4 # 10 <= prev <= 1 ->
  Forall (fun g => 4 # 10 <= g <= 1) (smooth_from prev active).
Proof.
  revert prev; induction active as [|a rest IH]; intros prev H; simpl;
    constructor; [|apply IH]; now apply smooth_in_range.
Qed.

Lemma spec_ducking_in_range (active : list bool) :
  Forall (fun g => 4 # 10 <= g <= 1) (spec_ducking active).
Proof.
  destruct active as [|a rest]; simpl; constructor.
  - destruct a; simpl; split; discriminate.
  - apply smooth_from_in_range. destruct a; simpl; split; discriminate.
Qed.

Lemma smooth_from_inactive (active : list bool) (prev : Q) :
  prev == 1 -> Forall (fun a => a = false) active ->
  Forall (fun g => g == 1) (smooth_from prev active).
Proof.
  intros Hp Ha. revert prev Hp.
  induction Ha as [|a rest -> _ IH]; intros prev Hp; simpl; constructor.
  - unfold smooth. simpl. rewrite Hp. reflexivity.
  - apply IH. unfold smooth. simpl. rewrite Hp. reflexivity.
Qed.

Lemma spec_ducking_inactive (active : list bool) :
  Forall (fun a => a = false) active ->
  Forall (fun g => g == 1) (spec_ducking active).
Proof.
  intros H. destruct H as [|a rest -> H]; simpl; constructor.
  - reflexivity.
  - apply smooth_from_inactive; [reflexivity | assumption].
Qed.

Lemma qpow_nonneg (r : Q) (k : nat) : 0 <= r -> 0 <= qpow r k.
Proof.
  intros Hr. induction k; simpl; [discriminate|].
  now apply Qmult_le_0_compat.
Qed.

Lemma qpow_decreasing (r : Q) (k k' : nat) :
  0 <= r <= 1 -> (k <= k')%nat -> qpow r k' <= qpow r k.
Proof.
  intros [H0 H1] Hk. induction Hk as [|k' _ IH]; [apply Qle_refl|].
  simpl. eapply Qle_trans; [|exact IH].
  pose proof (qpow_nonneg r k' H0) as Hq.
  rewrite <- (Qmult_1_l (qpow r k')) at 2.
  apply Qmult_le_compat_r; assumption.
Qed.

(** While the samples stay active the gain falls toward 0.4 geometrically. *)
Lemma smooth_from_active_run (m : nat) (rest : list bool) (prev c : Q) :
  prev <= (4 # 10) + (6 # 10) * c ->
  forall i g,
    (i < m)%nat ->
    nth_error (smooth_from prev (repeat true m ++ rest)) i = Some g ->
    g <= (4 # 10) + (6 # 10) * (c * qpow (95 # 100) (S i)).
Proof.
  revert prev c; induction m as [|m IH]; intros prev c Hp i g Hi H; [lia|].
  cbn [repeat app smooth_from] in H.
  assert (Hs : smooth prev true <= (4 # 10) + (6 # 10) * (c * (95 # 100))).
  { unfold smooth; simpl. lra. }
  destruct i as [|i].
  - simpl in H. inversion H; subst. simpl. rewrite Qmult_1_r. exact Hs.
  - simpl in H.
    eapply Qle_trans; [apply (IH _ _ Hs i g); [lia | exact H]|].
    apply Qle_lteq. right. cbn [qpow]. ring.
Qed.

Lemma spec_ducking_active_run (m : nat) (rest : list bool) (i : nat) (g : Q) :
  (i < m)%nat ->
  nth_error (spec_ducking (repeat true m ++ rest)) i = Some g ->
  g <= (4 # 10) + (6 # 10) * qpow (95 # 100) i.
Proof.
  intros Hi H. destruct m as [|m]; [lia|].
  cbn [repeat app spec_ducking] in H. destruct i as [|i].
  - simpl in H. inversion H; subst. simpl. discriminate.
  - simpl in H.
    eapply Qle_trans;
      [apply (smooth_from_active_run m rest (target_of true) 1 ltac:(simpl; discriminate) i g);
       [lia | exact H]|].
    rewrite Qmult_1_l. apply Qle_refl.
Qed.

Lemma qpow_95_small (k : nat) :
  (90 <= k)%nat -> qpow (95 # 100) k <= 1 # 100.
Proof.
  intros Hk. eapply Qle_trans.
  - apply (qpow_decreasing (95 # 100) 90 k); [split; discriminate | exact Hk].
  - vm_compute. discriminate.
Qed.
Lemma map2_unit_gain (music gains : list Q) :
  length music = length gains ->
  Forall (fun g => g == 1) gains ->
  Forall2 Qeq (map2 Qmult music gains) music.
Proof.
  revert gains; induction music as [|x music IH]; intros [|g gains] Hl Hg;
    simpl in *; try discriminate; constructor.
  - inversion Hg; subst. rewrite H1. ring.
  - apply IH; [lia | now inversion Hg].
Qed.

Lemma inactive_of_quiet (vocals envelope : list Q) :
  quiet vocals envelope ->
  Forall (fun a => a = false) (map (fun e => Qltb (1 # 100) e) envelope).
Proof.
  intros [_ H]. induction H as [|e envelope He _ IH]; simpl; constructor.
  - now apply Qltb_ge.
  - exact IH.
Qed.

Lemma sqrt_fixed_zero (x : Q) : x == 0 -> sqrt_fixed x == 0.
Proof.
  intros H. unfold Qeq in H. simpl in H. rewrite Z.mul_1_r in H.
  unfold sqrt_fixed. rewrite H. reflexivity.
Qed.

Section SidechainSilence.

Context {ext : Externals}.

Lemma sidechain_of_quiet (music vocals envelope : list Q) :
  (length music <= length vocals)%nat ->
  vocal_envelope_of vocals SAMPLE_RATE = Ok envelope ->
  quiet vocals envelope ->
  exists gains out,
    ducking_curve (map (fun e => Qltb (1 # 100) e) envelope) (length music)
      = Ok gains /\
    length gains = length music /\
    Forall (fun g => g == 1) gains /\
    _apply_sidechain music vocals SAMPLE_RATE = Ok out /\
    Forall2 Qeq out music.
Proof.
  intros Hlen He Hq.
  set (active := map (fun e => Qltb (1 # 100) e) envelope).
  assert (La : length active = length vocals).
  { unfold active. rewrite length_map. exact (proj1 Hq). }
  set (gains := spec_ducking (firstn (length music) active)).
  assert (Hd : ducking_curve active (length music) = Ok gains).
  { apply ducking_curve_refines. lia. }
  assert (Lg : length gains = length music).
  { unfold gains. rewrite spec_ducking_length, length_firstn. lia. }
  assert (Hg : Forall (fun g => g == 1) gains).
  { apply spec_ducking_inactive, Forall_firstn.
    exact (inactive_of_quiet vocals envelope Hq). }
  exists gains, (map2 Qmult music gains).
  split; [exact Hd|]. split; [exact Lg|]. split; [exact Hg|]. split.
  - unfold _apply_sidechain. rewrite He. cbn [bind]. fold active.
    rewrite Hd. cbn [bind]. unfold vmul. now rewrite binop_same_length.
  - now apply map2_unit_gain.
Qed.

(** C10. Against a vocal that is zero everywhere, or shorter than one RMS
    window of 2205 samples, the ducking gain is 1 at every sample of the
    backing track and [_apply_sidechain] returns the backing track, sample
    for sample.  The vocal is at least as long as the backing track, as
    [mix_and_master] arranges before the call, and [np.sqrt] maps zero to
    zero. *)
Theorem C10_ducking_against_silence_is_identity (music vocals : list Q) :
  (length music <= length vocals)%nat ->
  (forall x, x == 0 -> np_sqrt x == 0) ->
  Forall (fun x => x == 0) vocals \/ (length vocals < 2205)%nat ->
  exists envelope gains out,
    vocal_envelope_of vocals SAMPLE_RATE = Ok envelope /\
    ducking_curve (map (fun e => Qltb (1 # 100) e) envelope) (length music)
      = Ok gains /\
    length gains = length music /\
    Forall (fun g => g == 1) gains /\
    _apply_sidechain music vocals SAMPLE_RATE = Ok out /\
    Forall2 Qeq out music.
Proof.
  intros Hlen Hsqrt Hcase.
  assert (He : exists envelope,
             vocal_envelope_of vocals SAMPLE_RATE = Ok envelope /\
             quiet vocals envelope).
  { destruct Hcase as [Hz|Hs].
    - now apply vocal_envelope_silent.
    - now apply vocal_envelope_short. }
  destruct He as (envelope & He & Hq).
  destruct (sidechain_of_quiet music vocals envelope Hlen He Hq)
    as (gains & out & H).
  exists envelope, gains, out. split; [exact He | exact H].
Qed.

End SidechainSilence.

Lemma C10_ducking_against_silence_witness :
  exists out,
    @_apply_sidechain sample_ext [1 # 2; - (1 # 4); 1 # 8] [0; 0; 0] SAMPLE_RATE
      = Ok out /\
    Forall2 Qeq out [1 # 2; - (1 # 4); 1 # 8].
Proof.
  destruct (@C10_ducking_against_silence_is_identity sample_ext
              [1 # 2; - (1 # 4); 1 # 8] [0; 0; 0])
    as (envelope & gains & out & _ & _ & _ & _ & Ho & Heq).
  - simpl. lia.
  - exact sqrt_fixed_zero.
  - left. repeat constructor.
  - exists out. split; assumption.
Defined.

Lemma short_silent_vocal_run :
  @_apply_sidechain sample_ext [1; 1; 1] [0; 0] SAMPLE_RATE = Raise IndexError.
Proof. vm_compute. reflexivity. Qed.

(** Against a silent vocal that is shorter than the backing track the call
    does not return the track: the loop over the gains indexes the activity
    flags past their end. *)
Lemma C10_silent_vocal_shorter_than_track :
  ~ (forall (ext : Externals) (music vocals : list Q),
        (forall x, x == 0 -> np_sqrt x == 0) ->
        Forall (fun x => x == 0) vocals \/ (length vocals < 2205)%nat ->
        exists out,
          _apply_sidechain music vocals SAMPLE_RATE = Ok out /\
          Forall2 Qeq out music).
Proof.
  intros H.
  destruct (H sample_ext [1; 1; 1] [0; 0] sqrt_fixed_zero) as (out & E & _).
  - left. repeat constructor; reflexivity.
  - rewrite short_silent_vocal_run in E. discriminate E.
Qed.
Lemma nth_error_map2 {A B C : Type} (f : A -> B -> C) (a : list A) (b : list B)
  (i : nat) (x : A) (y : B) :
  nth_error a i = Some x -> nth_error b i = Some y ->
  nth_error (map2 f a b) i = Some (f x y).
Proof.
  revert a b; induction i as [|i IH]; intros [|x' a] [|y' b] Ha Hb;
    simpl in *; try discriminate.
  - now inversion Ha; inversion Hb.
  - now apply IH.
Qed.

Lemma all_true_repeat (l : list bool) :
  forallb (fun a => a) l = true -> l = repeat true (length l).
Proof.
  induction l as [|a l IH]; simpl; [reflexivity|].
  intros H. apply andb_true_iff in H as [-> H]. f_equal. now apply IH.
Qed.

(** The activity flags of [voice_then_silence]: the first 47387 samples,
    which is up to the end of the last RMS window, are all active. *)
Lemma voice_then_silence_active :
  match @vocal_envelope_of sample_ext voice_then_silence SAMPLE_RATE with
  | Ok envelope =>
      (Z.of_nat (length envelope) =? 48206)%Z &&
      forallb (fun a => a)
        (firstn (Z.to_nat 47387) (map (fun e => Qltb (1 # 100) e) envelope))
  | Raise _ => false
  end = true.
Proof. vm_compute. reflexivity. Qed.

Lemma voice_then_silence_is_silent_after_voice :
  forallb (fun x => Qeq_bool x 0)
    (get_slice voice_then_silence (Some 2206%Z) None) = true /\
  (len (get_slice voice_then_silence (Some 2206%Z) None) = 46000)%Z.
Proof. split; vm_compute; reflexivity. Qed.

Lemma apply_sidechain_steps {ext : Externals} (music vocals : list Q) (sr : Z)
  (envelope gains : list Q) :
  vocal_envelope_of vocals sr = Ok envelope ->
  ducking_curve (map (fun e => Qltb (1 # 100) e) envelope) (length music)
    = Ok gains ->
  length music = length gains ->
  _apply_sidechain music vocals sr = Ok (map2 Qmult music gains).
Proof.
  intros He Hd Hl. unfold _apply_sidechain. rewrite He. cbn [bind].
  rewrite Hd. cbn [bind]. unfold vmul. now apply binop_same_length.
Qed.

Lemma voice_then_silence_latched :
  exists envelope rest,
    @vocal_envelope_of sample_ext voice_then_silence SAMPLE_RATE = Ok envelope /\
    length envelope = Z.to_nat 48206 /\
    map (fun e => Qltb (1 # 100) e) envelope
      = repeat true (Z.to_nat 47387) ++ rest.
Proof.
  pose proof voice_then_silence_active as Ha.
  destruct (@vocal_envelope_of sample_ext voice_then_silence SAMPLE_RATE)
    as [envelope|] eqn:Ee; [|discriminate].
  apply andb_true_iff in Ha as [Hl Ht]. apply Z.eqb_eq in Hl.
  exists envelope.
  exists (skipn (Z.to_nat 47387) (map (fun e => Qltb (1 # 100) e) envelope)).
  split; [reflexivity|]. split; [lia|].
  rewrite <- (firstn_skipn (Z.to_nat 47387)
                (map (fun e => Qltb (1 # 100) e) envelope)) at 1.
  f_equal. rewrite (all_true_repeat _ Ht) at 1. f_equal.
  rewrite length_firstn, length_map. lia.
Qed.

(** C3. A vocal of 2206 full-scale samples followed by 46000 samples of
    silence, over a backing track of ones: after one full second (44100
    samples) of vocal silence the gain applied to the backing track is still
    below 0.41; it has not returned to 1. *)
Theorem C3_gain_stays_ducked_through_silence :
  let music := ones (Z.to_nat 48206) in
  forallb (fun x => Qeq_bool x 0)
    (get_slice voice_then_silence (Some 2206%Z) (Some (2206 + 44100)%Z)) = true /\
  exists out g,
    @_apply_sidechain sample_ext music voice_then_silence SAMPLE_RATE = Ok out /\
    nth_error out (Z.to_nat (2206 + 44100 - 1)) = Some g /\
    g <= 41 # 100.
Proof.
  intros music. split; [vm_compute; reflexivity|].
  destruct voice_then_silence_latched as (envelope & rest & Ee & Le & Hsplit).
  set (active := map (fun e => Qltb (1 # 100) e) envelope) in *.
  assert (La : length active = Z.to_nat 48206).
  { unfold active; rewrite length_map; lia. }
  set (gains := spec_ducking active).
  assert (Lm : length music = Z.to_nat 48206) by apply ones_length.
  assert (Hd : ducking_curve active (length music) = Ok gains).
  { rewrite ducking_curve_refines by lia;
    unfold gains; f_equal; f_equal; apply firstn_all2; lia. }
  assert (Lg : length gains = Z.to_nat 48206).
  { unfold gains. now rewrite spec_ducking_length. }
  set (i := Z.to_nat (2206 + 44100 - 1)).
  destruct (nth_error gains i) as [g|] eqn:Eg;
    [|apply nth_error_None in Eg; unfold i in Eg; lia].
  exists (map2 Qmult music gains), (1 * g). split; [|split].
  - apply (apply_sidechain_steps music voice_then_silence SAMPLE_RATE
             envelope gains Ee Hd). lia.
  - apply nth_error_map2; [|exact Eg];
    unfold music, ones; apply nth_error_repeat; unfold i; lia.
  - assert (Hg : g <= (4 # 10) + (6 # 10) * qpow (95 # 100) i).
    { apply (spec_ducking_active_run (Z.to_nat 47387) rest i g).
      - unfold i. lia.
      - rewrite <- Hsplit. exact Eg. }
    pose proof (qpow_95_small i ltac:(unfold i; lia)) as Hq.
    lra.
Qed.

Lemma get_item_In {A : Type} (a : list A) (i : Z) (x : A) :
  get_item a i = Ok x -> In x a.
Proof.
  unfold get_item.
  destruct ((if (i <? 0)%Z then (i + Z.of_nat (length a))%Z else i) <? 0)%Z;
    [discriminate|].
  destruct (nth_error a _) as [y|] eqn:E; [|discriminate].
  intros H. inversion H; subst. eapply nth_error_In; eassumption.
Qed.

Lemma set_item_Forall (P : Q -> Prop) (a a' : list Q) (i : Z) (x : Q) :
  Forall P a -> P x -> set_item a i x = Ok a' -> Forall P a'.
Proof.
  intros Ha Hx. unfold set_item, splice.
  destruct (_ || _); [discriminate|].
  intros H. inversion H; subst.
  apply Forall_app. split; [now apply Forall_firstn|].
  constructor; [assumption | now apply Forall_skipn].
Qed.

(** Whatever the activity flags, a gain curve that is returned lies in
    [0.4, 1]. *)
Lemma ducking_curve_in_range (active : list bool) (n : nat) (gains : list Q) :
  ducking_curve active n = Ok gains ->
  Forall (fun g => 4 # 10 <= g <= 1) gains.
Proof.
  unfold ducking_curve.
  destruct (py_range 0 (Z.of_nat n) 1) as [indices|]; [|discriminate].
  cbn [bind].
  apply (for_each_pure_partial (Forall (fun g => 4 # 10 <= g <= 1))).
  - intros i d d1 Hd. unfold ducking_body.
    destruct (get_item active i) as [a|]; [|discriminate]. cbn [bind].
    destruct (0 <? i)%Z.
    + destruct (get_item d (i - 1)) as [prev|] eqn:Ep; [|discriminate].
      cbn [bind]. apply set_item_Forall; [exact Hd|].
      apply get_item_In in Ep. rewrite Forall_forall in Hd.
      exact (smooth_in_range prev a (Hd prev Ep)).
    + apply set_item_Forall; [exact Hd|]. destruct a; split; discriminate.
  - apply Forall_repeat. split; discriminate.
Qed.
(** ** Effects of the timing transform *)

Section Timing.

Context {ext : Externals}.

Lemma keeps_files_ret {A : Type} (a : A) : keeps_files (ret a).
Proof. intros w. reflexivity. Qed.

Lemma keeps_files_lift {A : Type} (r : result A) : keeps_files (lift r).
Proof. intros w. reflexivity. Qed.

Lemma keeps_files_bind {A B : Type} (c : py ext A) (k : A -> py ext B) :
  keeps_files c -> (forall a, keeps_files (k a)) -> keeps_files (bind_py c k).
Proof.
  intros Hc Hk w. unfold bind_py. specialize (Hc w).
  destruct (c w) as [[a|e] w1]; simpl in *.
  - now rewrite Hk.
  - exact Hc.
Qed.

Lemma keeps_files_for_each {A S : Type} (xs : list A)
  (body : A -> S -> py ext (step S)) (s : S) :
  (forall x s, keeps_files (body x s)) -> keeps_files (for_each xs body s).
Proof.
  intros Hb. revert s; induction xs as [|x xs IH]; intros s w.
  - reflexivity.
  - cbn [for_each]. specialize (Hb x s w).
    destruct (body x s w) as [[[s1|s1]|e] w1]; simpl in *; try assumption.
    now rewrite IH.
Qed.

Lemma keeps_files_uniform (a b : Q) : keeps_files (random_uniform a b).
Proof.
  intros w. unfold random_uniform.
  now destruct (random_random (random_state w)).
Qed.

Lemma random_only_ret {A : Type} (a : A) : random_only (ret a).
Proof. intros w1 w2 H. now split. Qed.

Lemma random_only_lift {A : Type} (r : result A) : random_only (lift r).
Proof. intros w1 w2 H. now split. Qed.

Lemma random_only_bind {A B : Type} (c : py ext A) (k : A -> py ext B) :
  random_only c -> (forall a, random_only (k a)) -> random_only (bind_py c k).
Proof.
  intros Hc Hk w1 w2 H. unfold bind_py. destruct (Hc w1 w2 H) as [H1 H2].
  destruct (c w1) as [r1 v1], (c w2) as [r2 v2]; simpl in *. subst r2.
  destruct r1 as [a|e]; [now apply Hk | now split].
Qed.

Lemma random_only_for_each {A S : Type} (xs : list A)
  (body : A -> S -> py ext (step S)) (s : S) :
  (forall x s, random_only (body x s)) -> random_only (for_each xs body s).
Proof.
  intros Hb. revert s; induction xs as [|x xs IH]; intros s w1 w2 H.
  - now split.
  - cbn [for_each]. destruct (Hb x s w1 w2 H) as [H1 H2].
    destruct (body x s w1) as [r1 v1], (body x s w2) as [r2 v2]; simpl in *.
    subst r2. destruct r1 as [[s1|s1]|e]; [now apply IH | now split | now split].
Qed.

Lemma random_only_uniform (a b : Q) : random_only (random_uniform a b).
Proof.
  intros w1 w2 H. unfold random_uniform. rewrite H.
  now destruct (random_random (random_state w2)).
Qed.

Lemma timing_keeps_files (y : list Q) (sr : Z) :
  keeps_files (_apply_singing_timing y sr).
Proof.
  unfold _apply_singing_timing.
  apply keeps_files_bind; [apply keeps_files_lift|]. intros starts.
  apply keeps_files_bind; [|intros; apply keeps_files_lift].
  apply keeps_files_for_each. intros seg processed.
  destruct (len seg <? 1000)%Z; [apply keeps_files_ret|].
  apply keeps_files_bind; [apply keeps_files_uniform|]. intros stretch.
  apply keeps_files_bind; [apply keeps_files_lift|]. intros stretched.
  apply keeps_files_ret.
Qed.

Lemma timing_random_only (y : list Q) (sr : Z) :
  random_only (_apply_singing_timing y sr).
Proof.
  unfold _apply_singing_timing.
  apply random_only_bind; [apply random_only_lift|]. intros starts.
  apply random_only_bind; [|intros; apply random_only_lift].
  apply random_only_for_each. intros seg processed.
  destruct (len seg <? 1000)%Z; [apply random_only_ret|].
  apply random_only_bind; [apply random_only_uniform|]. intros stretch.
  apply random_only_bind; [apply random_only_lift|]. intros stretched.
  apply random_only_ret.
Qed.

(** Each stretch factor lies in [0.75, 1.30] when [random.random()] lies in
    [0, 1). *)
Lemma random_uniform_range (w : world ext) :
  0 <= fst (random_random (random_state w)) < 1 ->
  exists u, fst (random_uniform (75 # 100) (13 # 10) w) = Ok u /\
            75 # 100 <= u <= 13 # 10.
Proof.
  intros [H0 H1]. unfold random_uniform.
  destruct (random_random (random_state w)) as [u g]. simpl in *.
  eexists. split; [reflexivity|]. split; lra.
Qed.

End Timing.

Lemma timing_runs_from_two_states :
  lengths_of_runs thousand_samples (world_seeded (fun _ => None) 0)
    (world_seeded (fun _ => None) 1) = Some (1333, 968)%nat.
Proof. vm_compute. reflexivity. Qed.

Lemma timing_runs_in_succession :
  lengths_of_runs thousand_samples (world_seeded (fun _ => None) 0)
    (snd (@_apply_singing_timing sample_ext thousand_samples SAMPLE_RATE
            (world_seeded (fun _ => None) 0))) = Some (1333, 900)%nat.
Proof. vm_compute. reflexivity. Qed.

(** The result of the transform is not a function of its arguments: the
    same waveform and sample rate give outputs of different lengths from
    two states of the hidden generator, and in two calls in succession. *)
Lemma C6_output_depends_on_hidden_state :
  ~ (forall (ext : Externals) (y : list Q) (sr : Z) (w1 w2 : world ext),
        fst (_apply_singing_timing y sr w1)
        = fst (_apply_singing_timing y sr w2)) /\
  ~ (forall (ext : Externals) (y : list Q) (sr : Z) (w : world ext),
        fst (_apply_singing_timing y sr w)
        = fst (_apply_singing_timing y sr (snd (_apply_singing_timing y sr w)))).
Proof.
  split; intros H.
  - pose proof timing_runs_from_two_states as E. unfold lengths_of_runs in E.
    rewrite (H sample_ext thousand_samples SAMPLE_RATE
               (world_seeded (fun _ => None) 0)
               (world_seeded (fun _ => None) 1)) in E.
    destruct (fst _); inversion E. lia.
  - pose proof timing_runs_in_succession as E. unfold lengths_of_runs in E.
    rewrite <- (H sample_ext thousand_samples SAMPLE_RATE
                  (world_seeded (fun _ => None) 0)) in E.
    destruct (fst _); inversion E. lia.
Qed.

Lemma lcg_unit_interval (g : Z) :
  0 <= lcg_next g # 2147483648 < 1.
Proof.
  unfold lcg_next.
  pose proof (Z.mod_pos_bound (1103515245 * g + 12345) 2147483648 eq_refl) as H.
  unfold Qle, Qlt. cbn [Qnum Qden inject_Z]. lia.
Qed.

(** ** Failure of the vocal stage *)

Section VocalFailure.

Context {ext : Externals}.

Lemma vocal_stages_keep_files (audio_path : string) (mood : option string) :
  keeps_files (vocal_stages audio_path mood).
Proof.
  unfold vocal_stages.
  apply keeps_files_bind.
  { intros w. simpl. reflexivity. }
  intros [y sr].
  apply keeps_files_bind; [apply timing_keeps_files|]. intros y1.
  apply keeps_files_bind; [apply keeps_files_lift|]. intros shift.
  apply keeps_files_bind; [apply keeps_files_lift|]. intros y_shifted.
  cbv zeta.
  apply keeps_files_bind; [apply keeps_files_lift|]. intros y_effected.
  apply keeps_files_bind; [apply keeps_files_lift|]. intros peak.
  apply keeps_files_ret.
Qed.

(** The body of the [try] block is the stages followed by the write. *)
Lemma vocal_effects_body_stages (audio_path : string) (mood : option string)
  (w : world ext) :
  vocal_effects_body audio_path mood w
  = match vocal_stages audio_path mood w with
    | (Ok (data, sr), w1) =>
        match write_audio audio_path data sr w1 with
        | (Ok _, w2) => (Ok true, w2)
        | (Raise e, w2) => (Raise e, w2)
        end
    | (Raise e, w1) => (Raise e, w1)
    end.
Proof.
  unfold vocal_effects_body, vocal_stages, add_vibrato, bind_py, lift, ret.
  destruct (librosa_load (files w) audio_path SAMPLE_RATE) as [[y sr]|];
    [|reflexivity].
  destruct (_apply_singing_timing y sr w) as [[y1|] w1]; [|reflexivity].
  destruct (semitones_shift mood) as [shift|]; [|reflexivity].
  destruct (pitch_shift y1 sr shift) as [y_shifted|]; [|reflexivity].
  cbv zeta.
  destruct (run_board vocal_board _ sr) as [y_effected|]; [|reflexivity].
  destruct (np_max_abs y_effected) as [peak|]; [|reflexivity].
  destruct (write_audio _ _ _ w1) as [[[]|e] w2]; reflexivity.
Qed.

(** C7, as the code has it.  [apply_vocal_effects] never raises.  The
    stages before the write (load, timing, pitch shift, vibrato, effects
    chain, normalisation) touch no file; when one of them fails the result
    is [False] and every file is as it was.  The write is attempted only
    when all of them have succeeded, on the buffer and sample rate they
    produced: the files are then whatever that one call of [sf.write] on the
    input path left, also when it failed, and the result is [True] exactly
    when it succeeded. *)
Theorem C7_failure_before_the_write_leaves_files
  (audio_path : string) (mood : option string) (w : world ext) :
  (exists b w', apply_vocal_effects audio_path mood w = (Ok b, w')) /\
  (forall e w1,
      vocal_stages audio_path mood w = (Raise e, w1) ->
      apply_vocal_effects audio_path mood w = (Ok false, w1) /\
      files w1 = files w) /\
  (forall data sr w1,
      vocal_stages audio_path mood w = (Ok (data, sr), w1) ->
      files w1 = files w /\
      apply_vocal_effects audio_path mood w
        = (Ok (is_ok (fst (sf_write (files w) audio_path data sr))),
           World (snd (sf_write (files w) audio_path data sr))
                 (random_state w1) (np_random_state w1))).
Proof.
  pose proof (vocal_stages_keep_files audio_path mood w) as Hk.
  unfold apply_vocal_effects. rewrite vocal_effects_body_stages.
  destruct (vocal_stages audio_path mood w) as [[[data sr]|e] w1] eqn:Es;
    simpl in Hk.
  - unfold write_audio. rewrite Hk.
    destruct (sf_write (files w) audio_path data sr) as [[[]|e] f] eqn:Ew.
    + split; [eexists; eexists; reflexivity|]. split; [discriminate|].
      intros d s w2 H. injection H as <- <- <-. split; [exact Hk|].
      rewrite Ew. reflexivity.
    + split; [eexists; eexists; reflexivity|]. split; [discriminate|].
      intros d s w2 H. injection H as <- <- <-. split; [exact Hk|].
      rewrite Ew. reflexivity.
  - split; [eexists; eexists; reflexivity|]. split; [|discriminate].
    intros e' w2 H. injection H as <- <-. split; [reflexivity | exact Hk].
Qed.

(** A run of [apply_vocal_effects] that returns [True], stage by stage. *)
Lemma vocal_effects_true_run (audio_path : string) (mood : option string)
  (w w' : world ext) :
  apply_vocal_effects audio_path mood w = (Ok true, w') ->
  exists (y : list Q) (sr : Z) (y1 : list Q) (w1 : world ext) (shift : Q)
         (y_shifted y_effected : list Q) (peak : Q),
    librosa_load (files w) audio_path SAMPLE_RATE = Ok (y, sr) /\
    _apply_singing_timing y sr w = (Ok y1, w1) /\
    semitones_shift mood = Ok shift /\
    pitch_shift y1 sr shift = Ok y_shifted /\
    run_board vocal_board (add_vibrato y_shifted sr) sr = Ok y_effected /\
    np_max_abs y_effected = Ok peak /\
    sf_write (files w) audio_path (vdiv y_effected (peak + (1 # 100))) sr
      = (Ok tt, files w').
Proof.
  unfold apply_vocal_effects, vocal_effects_body, bind_py, lift, ret.
  destruct (librosa_load (files w) audio_path SAMPLE_RATE) as [[y sr]|];
    [|discriminate].
  pose proof (timing_keeps_files y sr w) as Hk.
  destruct (_apply_singing_timing y sr w) as [[y1|] w1] eqn:Et; simpl in Hk;
    [|discriminate].
  destruct (semitones_shift mood) as [shift|]; [|discriminate].
  destruct (pitch_shift y1 sr shift) as [y_shifted|] eqn:Ep; [|discriminate].
  cbv zeta. fold (add_vibrato y_shifted sr).
  destruct (run_board vocal_board (add_vibrato y_shifted sr) sr)
    as [y_effected|] eqn:Eb; [|discriminate].
  destruct (np_max_abs y_effected) as [peak|] eqn:Em; [|discriminate].
  unfold write_audio. rewrite Hk.
  destruct (sf_write (files w) audio_path _ sr) as [[[]|e] f] eqn:Ew;
    [|discriminate].
  intros H. injection H as <-.
  exists y, sr, y1, w1, shift, y_shifted, y_effected, peak.
  split; [reflexivity|]. split; [exact Et|]. split; [reflexivity|].
  split; [exact Ep|]. split; [exact Eb|]. split; [exact Em | exact Ew].
Qed.

End VocalFailure.

Lemma C7_failure_before_the_write_witness :
  @apply_vocal_effects sample_ext "vocal.wav" (Some "calm"%string)
     (world_seeded (fun _ => None) 3)
    = (Ok false, world_seeded (fun _ => None) 3) /\
  files (world_seeded (fun _ => None) 3) = (fun _ => None).
Proof.
  apply (proj1 (proj2 (@C7_failure_before_the_write_leaves_files sample_ext
                         "vocal.wav" (Some "calm"%string)
                         (world_seeded (fun _ => None) 3)))
           OSError (world_seeded (fun _ => None) 3)).
  reflexivity.
Defined.

Lemma failed_write_run :
  let w := @World truncating_ext two_byte_vocal 0%Z 0%Z in
  let r := @apply_vocal_effects truncating_ext "vocal.wav" (Some "calm"%string) w in
  fst r = Ok false /\
  files w "vocal.wav"%string = Some [Byte.x80; Byte.xff] /\
  files (snd r) "vocal.wav"%string = Some [].
Proof. vm_compute. repeat split. Qed.

(** A write that fails after the file was opened: the result is [False] and
    the file at the input path has lost its contents. *)
Lemma C7_failed_write_truncates :
  ~ (forall (ext : Externals) (audio_path : string) (mood : option string)
            (w w' : world ext),
        apply_vocal_effects audio_path mood w = (Ok false, w') ->
        files w' audio_path = files w audio_path).
Proof.
  intros H. destruct failed_write_run as (Hr & Hbefore & Hafter).
  specialize (H truncating_ext "vocal.wav"%string (Some "calm"%string)
                (@World truncating_ext two_byte_vocal 0%Z 0%Z)
                (snd (@apply_vocal_effects truncating_ext "vocal.wav"
                        (Some "calm"%string)
                        (@World truncating_ext two_byte_vocal 0%Z 0%Z)))).
  rewrite <- Hr, <- surjective_pairing in H. specialize (H eq_refl).
  rewrite Hbefore, Hafter in H. discriminate H.
Qed.
(** ** An absent or empty vocal *)

Lemma py_range_from_zero_to_zero (step : Z) :
  py_range 0 0 step = Ok [] \/ py_range 0 0 step = Raise ValueError.
Proof.
  unfold py_range. destruct (Z.eqb_spec step 0) as [|Hne]; [now right|]. left.
  destruct (Z.ltb_spec 0 step).
  - replace ((0 - 0 + step - 1) / step)%Z with 0%Z; [reflexivity|].
    symmetry. apply Z.div_small. lia.
  - replace ((0 - 0 - step - 1) / - step)%Z with 0%Z; [reflexivity|].
    symmetry. apply Z.div_small. lia.
Qed.

Section EmptyVocal.

Context {ext : Externals}.

Lemma timing_rejects_empty (sr : Z) (w : world ext) :
  _apply_singing_timing [] sr w = (Raise ValueError, w).
Proof.
  unfold _apply_singing_timing, bind_py, lift. cbv zeta.
  change (len (@nil Q)) with 0%Z.
  destruct (py_range_from_zero_to_zero (py_int ((3 # 10) * inject_Z sr)))
    as [-> | ->]; reflexivity.
Qed.

Lemma match_lengths_pads_vocal (vocals background_music : list Q) :
  (length vocals <= length background_music)%nat ->
  match_lengths vocals background_music
    = Ok (vocals ++ zeros (length background_music - length vocals),
          background_music).
Proof.
  intros Hle. unfold match_lengths, len.
  destruct (Z.ltb_spec (Z.of_nat (length vocals))
              (Z.of_nat (length background_music))) as [Hlt|Hge].
  - unfold np_pad_right.
    destruct (Z.ltb_spec (Z.of_nat (length background_music)
                          - Z.of_nat (length vocals)) 0); [lia|].
    cbn [bind].
    replace (Z.to_nat (Z.of_nat (length background_music)
                       - Z.of_nat (length vocals)))
      with (length background_music - length vocals)%nat by lia.
    reflexivity.
  - destruct (Z.ltb_spec (Z.of_nat (length background_music))
                (Z.of_nat (length vocals))); [lia|].
    replace (length background_music - length vocals)%nat with 0%nat by lia.
    simpl. now rewrite app_nil_r.
Qed.

(** C8, as the code has it. An absent vocal file makes [mix_and_master]
    start from a zero buffer of the backing track's length, and a vocal
    shorter than the backing track, down to no sample at all, is padded with
    zeros to that length.  The timing transform does not accept a waveform
    without samples: it raises [ValueError], as does the normalisation of an
    empty buffer, and [apply_vocal_effects] then returns [False] with the
    process state as it was. *)
Theorem C8_absent_or_empty_vocal :
  (forall vocal_path background_music (w : world ext),
      path_exists (files w) vocal_path = false ->
      load_vocals vocal_path background_music w
        = (Ok (zeros (length background_music)), w)) /\
  (forall vocals background_music,
      (length vocals <= length background_music)%nat ->
      match_lengths vocals background_music
        = Ok (vocals ++ zeros (length background_music - length vocals),
              background_music)) /\
  (forall background_music,
      match_lengths [] background_music
        = Ok (zeros (length background_music), background_music)) /\
  (forall sr (w : world ext),
      _apply_singing_timing [] sr w = (Raise ValueError, w)) /\
  np_max_abs [] = Raise ValueError /\
  (forall audio_path mood sr (w : world ext),
      librosa_load (files w) audio_path SAMPLE_RATE = Ok ([], sr) ->
      apply_vocal_effects audio_path mood w = (Ok false, w)).
Proof.
  split; [|split; [|split; [|split; [|split]]]].
  - intros vocal_path background_music w H. unfold load_vocals. now rewrite H.
  - exact match_lengths_pads_vocal.
  - intros background_music.
    rewrite match_lengths_pads_vocal by (simpl; lia).
    simpl. now rewrite Nat.sub_0_r.
  - exact timing_rejects_empty.
  - reflexivity.
  - intros audio_path mood sr w H.
    unfold apply_vocal_effects, vocal_effects_body, bind_py. rewrite H.
    now rewrite timing_rejects_empty.
Qed.

End EmptyVocal.

(** The timing transform on a waveform without samples raises. *)
Lemma C8_timing_rejects_empty_waveform :
  ~ (forall (ext : Externals) (w : world ext),
        exists out, fst (_apply_singing_timing [] SAMPLE_RATE w) = Ok out).
Proof.
  intros H.
  destruct (H sample_ext (world_seeded (fun _ => None) 0)) as [out Hout].
  vm_compute in Hout. discriminate Hout.
Qed.

Lemma C8_absent_or_empty_vocal_witness :
  @load_vocals sample_ext "missing.wav" [1; 2; 3] (world_seeded (fun _ => None) 0)
    = (Ok (zeros 3), world_seeded (fun _ => None) 0).
Proof.
  apply (proj1 (@C8_absent_or_empty_vocal sample_ext)). reflexivity.
Defined.
(** ** Truncation of non-negative values *)

Lemma py_int_floor (x : Q) : 0 <= x -> py_int x = Qfloor x.
Proof.
  destruct x as [n d]. unfold Qle, py_int, Qfloor. simpl. intros H.
  apply Z.quot_div_nonneg; lia.
Qed.

Lemma py_int_nonneg (x : Q) : 0 <= x -> (0 <= py_int x)%Z.
Proof.
  intros H. rewrite py_int_floor by assumption.
  apply Qfloor_resp_le in H. exact H.
Qed.

Lemma py_int_ge (x : Q) (n : Z) :
  0 <= x -> inject_Z n <= x -> (n <= py_int x)%Z.
Proof.
  intros H0 H. rewrite py_int_floor by assumption.
  apply Qfloor_resp_le in H. now rewrite Qfloor_Z in H.
Qed.

Lemma py_int_lt (x : Q) (n : Z) :
  0 <= x -> x < inject_Z n -> (py_int x < n)%Z.
Proof.
  intros H0 H. rewrite py_int_floor by assumption.
  pose proof (Qfloor_le x) as Hf.
  assert (Hlt : inject_Z (Qfloor x) < inject_Z n).
  { eapply Qle_lt_trans; eassumption. }
  now rewrite <- Zlt_Qlt in Hlt.
Qed.

Lemma py_int_near (x : Q) :
  0 <= x -> inject_Z (py_int x) <= x /\ x < inject_Z (py_int x) + 1.
Proof.
  intros H. rewrite py_int_floor by assumption. split.
  - apply Qfloor_le.
  - pose proof (Qlt_floor x) as Hl. rewrite inject_Z_plus in Hl. exact Hl.
Qed.

(** ** Effectful code: results *)

Section Returns.

Context {ext : Externals}.

Lemma returns_ret {A : Type} (a : A) (w : world ext) (P : A -> Prop) :
  P a -> returns (ret a) w P.
Proof. intros H. now exists a, w. Qed.

Lemma returns_lift {A : Type} (r : result A) (a : A) (w : world ext)
  (P : A -> Prop) :
  r = Ok a -> P a -> returns (lift r) w P.
Proof. intros -> H. now exists a, w. Qed.

Lemma returns_bind {A B : Type} (c : py ext A) (k : A -> py ext B)
  (w : world ext) (P0 : A -> Prop) (P : B -> Prop) :
  returns c w P0 ->
  (forall a w', P0 a -> returns (k a) w' P) ->
  returns (bind_py c k) w P.
Proof.
  intros (a & w1 & E & Ha) Hk. unfold returns, bind_py. rewrite E.
  exact (Hk a w1 Ha).
Qed.

Lemma returns_weaken {A : Type} (c : py ext A) (w : world ext)
  (P0 P : A -> Prop) :
  returns c w P0 -> (forall a, P0 a -> P a) -> returns c w P.
Proof.
  intros (a & w1 & E & Ha) H. exists a, w1. auto.
Qed.

Lemma returns_for_each {A S : Type} (P : S -> Prop) (R : A -> Prop)
  (xs : list A) (body : A -> S -> py ext (step S)) :
  Forall R xs ->
  (forall x s w, R x -> P s ->
     returns (body x s) w (fun st => P (step_state st))) ->
  forall s w, P s -> returns (for_each xs body s) w P.
Proof.
  intros HR Hbody. induction HR as [|x xs Hx _ IH]; intros s w Hs.
  - now apply returns_ret.
  - cbn [for_each]. destruct (Hbody x s w Hx Hs) as (st & w1 & E & Hst).
    unfold returns. rewrite E. destruct st as [s1|s1]; simpl in Hst.
    + now apply IH.
    + now exists s1, w1.
Qed.

Lemma randn_from_length (n : nat) (g : np_rng) :
  length (fst (randn_from n g)) = n.
Proof.
  revert g; induction n as [|n IH]; intros g; simpl; [reflexivity|].
  destruct (standard_normal g) as [x g1]. specialize (IH g1).
  destruct (randn_from n g1) as [xs g2]. simpl in *. now rewrite IH.
Qed.

Lemma returns_randn (n : nat) (w : world ext) :
  returns (np_random_randn n) w (fun xs => length xs = n).
Proof.
  unfold returns, np_random_randn.
  pose proof (randn_from_length n (np_random_state w)) as H.
  destruct (randn_from n (np_random_state w)) as [xs g]. simpl in H.
  eexists. eexists. split; [reflexivity | exact H].
Qed.

End Returns.

(** ** Laying a note on a track *)

Lemma iop_slice_inside (op : Q -> Q -> Q) (a v : list Q) (lo hi : Z) :
  (0 <= lo <= hi)%Z -> (hi <= len a)%Z -> len v = (hi - lo)%Z ->
  exists a', iop_slice op a (Some lo) (Some hi) v = Ok a' /\
             length a' = length a.
Proof.
  intros H1 H2 Hv.
  destruct (iop_slice_same_shape op a v (Some lo) (Some hi)) as [a' E].
  - slice_arith.
  - exists a'. split; [exact E|]. now apply iop_slice_length in E.
Qed.

Lemma lay_note_keeps_length (num_samples i : Z) (note_dur : Q) (sr : Z)
  (make_note : result (list Q)) (note : list Q) (gain : Q) (track : list Q) :
  len track = num_samples ->
  0 <= inject_Z i * note_dur * inject_Z sr ->
  make_note = Ok note ->
  exists st,
    lay_note num_samples i note_dur sr make_note gain track = Ok st /\
    len (step_state st) = num_samples.
Proof.
  intros Ht Hpos ->. unfold lay_note.
  destruct (Qle_bool (inject_Z num_samples)
              (inject_Z i * note_dur * inject_Z sr)) eqn:Eb.
  - now exists (Break track).
  - cbn [bind].
    assert (Hlt : inject_Z i * note_dur * inject_Z sr < inject_Z num_samples).
    { apply Qnot_le_lt. intros Hle. apply Qle_bool_iff in Hle. congruence. }
    set (start := py_int (inject_Z i * note_dur * inject_Z sr)).
    assert (Hs0 : (0 <= start)%Z) by now apply py_int_nonneg.
    assert (Hs1 : (start < num_samples)%Z) by now apply py_int_lt.
    set (e := py_min_Z (start + len note) num_samples).
    assert (He : (start <= e <= num_samples /\ e - start <= len note)%Z).
    { unfold e, py_min_Z, len.
      destruct (Z.ltb_spec num_samples (start + Z.of_nat (length note))); lia. }
    destruct (Z.ltb_spec 0 (e - start)).
    + destruct (iop_slice_inside Qplus track
                  (vscale (get_slice note None (Some (e - start)%Z)) gain)
                  start e) as (track' & -> & Hl); try lia.
      * unfold vscale, len. rewrite length_map, get_slice_length. slice_arith.
      * cbn [bind]. exists (Next track'). split; [reflexivity|].
        simpl. unfold len in *. lia.
    + now exists (Next track).
Qed.
(** ** Percussion hits *)

Lemma scale_shape (mood : option string) :
  exists base a b c d e,
    get_melody_freqs_for_mood mood = (base, [a; b; c; d; e]) /\
    Qeq_bool base 0 = false.
Proof.
  unfold get_melody_freqs_for_mood.
  repeat match goal with
         | |- context [if ?c then _ else _] => destruct c
         end;
    do 6 eexists; split; reflexivity.
Qed.

Lemma Qeq_bool_nonzero (x : Q) : ~ x == 0 -> Qeq_bool x 0 = false.
Proof.
  intros H. destruct (Qeq_bool x 0) eqn:E; [|reflexivity].
  apply Qeq_bool_iff in E. contradiction.
Qed.

Lemma enumerate_indices {A : Type} (xs : list A) :
  Forall (fun p => (0 <= fst p)%Z) (enumerate xs).
Proof.
  apply Forall_forall. intros [i x] Hin. unfold enumerate in Hin.
  apply in_combine_l in Hin. apply in_map_iff in Hin as (k & <- & _).
  simpl. lia.
Qed.

Lemma np_arange_nonneg (stop step : Q) (l : list Q) :
  0 <= step -> np_arange 0 stop step = Ok l -> Forall (fun t => 0 <= t) l.
Proof.
  intros Hs. unfold np_arange. destruct (Qeq_bool step 0); [discriminate|].
  intros H. inversion H; subst. clear H.
  apply Forall_forall. intros t Ht. apply in_map_iff in Ht as (k & <- & _).
  rewrite Qplus_0_l. apply Qmult_le_0_compat; [|assumption].
  rewrite <- (Zle_Qle 0). lia.
Qed.

Lemma kick_hit_shape {ext : Externals} (ts noise : list Q) :
  length noise = length ts ->
  exists hit, kick_hit ts noise = Ok hit /\ length hit = length ts.
Proof.
  intros H. unfold kick_hit, vadd.
  rewrite binop_same_length by (rewrite !length_map; lia).
  eexists. split; [reflexivity|]. rewrite map2_length, !length_map. lia.
Qed.

Lemma hihat_hit_shape {ext : Externals} (ts noise : list Q) :
  length noise = length ts ->
  exists hit, hihat_hit ts noise = Ok hit /\ length hit = length ts.
Proof.
  intros H. unfold hihat_hit, vmul.
  rewrite binop_same_length by (rewrite !length_map; lia).
  eexists. split; [reflexivity|]. rewrite map2_length, !length_map. lia.
Qed.

Lemma snare_hit_shape {ext : Externals} (ts noise : list Q) :
  length noise = length ts ->
  exists hit, snare_hit ts noise = Ok hit /\ length hit = length ts.
Proof.
  intros H. unfold snare_hit, vmul, vadd.
  rewrite binop_same_length by (rewrite !length_map; lia). cbn [bind].
  rewrite binop_same_length by (rewrite map2_length, !length_map; lia).
  eexists. split; [reflexivity|]. rewrite !map2_length, !length_map. lia.
Qed.

Section Arrangement.

Context {ext : Externals}.

Lemma drum_hit_returns (num_samples bs dur_samples : Z) (dur_s : Q)
  (wave : list Q -> list Q -> result (list Q)) (track : list Q)
  (w : world ext) :
  len track = num_samples ->
  (0 <= bs < num_samples)%Z ->
  (0 <= dur_samples)%Z ->
  (forall ts noise, length noise = length ts ->
     exists hit, wave ts noise = Ok hit /\ length hit = length ts) ->
  returns (drum_hit num_samples bs dur_samples dur_s wave track) w
    (fun t => len t = num_samples).
Proof.
  intros Ht Hbs Hd Hwave. unfold drum_hit. cbv zeta.
  set (e := py_min_Z (bs + dur_samples) num_samples).
  assert (He : (bs <= e <= num_samples)%Z).
  { unfold e, py_min_Z. destruct (Z.ltb_spec num_samples (bs + dur_samples)); lia. }
  destruct (np_linspace_length 0 dur_s (e - bs)) as (ts & Els & Lts); [lia|].
  apply (returns_bind _ _ _ (fun x => x = ts)).
  { now apply (returns_lift _ ts). }
  intros ? w1 ->.
  apply (returns_bind _ _ _ (fun noise => length noise = length ts)).
  { apply returns_randn. }
  intros noise w2 Hn.
  destruct (Hwave ts noise Hn) as (hit & Eh & Lh).
  apply (returns_bind _ _ _ (fun x => x = hit)).
  { now apply (returns_lift _ hit). }
  intros ? w3 ->.
  destruct (iop_slice_inside Qplus track hit bs e) as (track' & Et & Lt);
    try lia.
  { unfold len. lia. }
  apply (returns_lift _ track'); [exact Et|]. unfold len in *. lia.
Qed.

End Arrangement.
(** ** The arrangement mixer *)

Lemma beat_positive (tempo : Z) : (0 < tempo)%Z -> 0 < 60 / inject_Z tempo.
Proof.
  intros H. apply Qlt_shift_div_l.
  - now rewrite <- (Zlt_Qlt 0).
  - rewrite Qmult_0_l. reflexivity.
Qed.

Lemma bass_note_long (tempo : Z) :
  (0 < tempo <= 1200)%Z ->
  (4410 <= py_int (inject_Z 44100 * (60 / inject_Z tempo * 2)))%Z.
Proof.
  intros [H0 H1].
  assert (Ht : 0 < inject_Z tempo) by now rewrite <- (Zlt_Qlt 0).
  assert (Hu : inject_Z tempo <= 1200) by now rewrite (Zle_Qle tempo 1200) in H1.
  assert (Hb : 1 # 20 <= 60 / inject_Z tempo).
  { apply Qle_shift_div_l; [assumption|]. lra. }
  apply py_int_ge.
  - change (inject_Z 44100) with 44100. lra.
  - change (inject_Z 44100) with 44100. change (inject_Z 4410) with 4410. lra.
Qed.

Lemma nonneg_product (i : Z) (d : Q) (sr : Z) :
  (0 <= i)%Z -> 0 <= d -> (0 <= sr)%Z -> 0 <= inject_Z i * d * inject_Z sr.
Proof.
  intros Hi Hd Hs.
  apply Qmult_le_0_compat; [apply Qmult_le_0_compat|]; try assumption.
  - now rewrite <- (Zle_Qle 0).
  - now rewrite <- (Zle_Qle 0).
Qed.

Section ArrangementLength.

Context {ext : Externals}.

Lemma tonal_pass_returns (num_samples i : Z) (note_dur : Q)
  (make_note : result (list Q)) (note : list Q) (gain : Q) (track : list Q)
  (w : world ext) :
  len track = num_samples ->
  (0 <= i)%Z -> 0 <= note_dur ->
  make_note = Ok note ->
  returns (lift (lay_note num_samples i note_dur SAMPLE_RATE make_note gain track))
    w (fun st => len (step_state st) = num_samples).
Proof.
  intros Ht Hi Hd Hn.
  destruct (lay_note_keeps_length num_samples i note_dur SAMPLE_RATE make_note
              note gain track Ht) as (st & E & Hst).
  - apply nonneg_product; [assumption | assumption | discriminate].
  - assumption.
  - now apply (returns_lift _ st).
Qed.

Lemma returns_zeros (n : Z) (w : world ext) :
  (0 <= n)%Z -> returns (lift (np_zeros n)) w (fun t => len t = n).
Proof.
  intros Hn. apply (returns_lift _ (zeros (Z.to_nat n))).
  - unfold np_zeros. destruct (Z.ltb_spec n 0); [lia | reflexivity].
  - unfold len. rewrite zeros_length. lia.
Qed.

Lemma vadd_same (a b : list Q) (n : Z) :
  len a = n -> len b = n -> exists c, vadd a b = Ok c /\ len c = n.
Proof.
  unfold len. intros Ha Hb. unfold vadd.
  rewrite binop_same_length by lia.
  eexists. split; [reflexivity|]. rewrite map2_length. lia.
Qed.

Lemma fade_keeps_length (music : list Q) :
  exists faded,
    (if (2 * py_int (inject_Z SAMPLE_RATE * (15 # 10)) <? len music)%Z
     then
       (fade_in <- np_linspace 0 1 (py_int (inject_Z SAMPLE_RATE * (15 # 10))) ;;
        music' <- iop_slice Qmult music None
                    (Some (py_int (inject_Z SAMPLE_RATE * (15 # 10)))) fade_in ;;
        fade_out <- np_linspace 1 0 (py_int (inject_Z SAMPLE_RATE * (15 # 10))) ;;
        iop_slice Qmult music'
          (Some (- py_int (inject_Z SAMPLE_RATE * (15 # 10)))%Z) None fade_out)%py
     else Ok music) = Ok faded /\
    length faded = length music.
Proof.
  change (py_int (inject_Z SAMPLE_RATE * (15 # 10))) with 66150%Z.
  destruct (Z.ltb_spec (2 * 66150) (len music)) as [Hlong|Hshort];
    [|now exists music].
  destruct (np_linspace_length 0 1 66150) as (fin & -> & Lin); [lia|].
  cbn [bind].
  destruct (iop_slice_same_shape Qmult music fin None (Some 66150%Z))
    as [m1 E1].
  { slice_arith. }
  rewrite E1. cbn [bind]. apply iop_slice_length in E1.
  destruct (np_linspace_length 1 0 66150) as (fout & -> & Lout); [lia|].
  cbn [bind].
  destruct (iop_slice_same_shape Qmult m1 fout (Some (- (66150))%Z) None)
    as [m2 E2].
  { rewrite E1. slice_arith. }
  exists m2. split; [exact E2|]. apply iop_slice_length in E2. congruence.
Qed.

End ArrangementLength.
Lemma get_item_in_range {A : Type} (a : list A) (j : Z) :
  (0 <= j < len a)%Z -> exists x, get_item a j = Ok x.
Proof.
  unfold len. intros Hj.
  destruct (nth_error a (Z.to_nat j)) as [x|] eqn:E;
    [|apply nth_error_None in E; lia].
  exists x. rewrite <- (Z2Nat.id j) by lia. now apply get_item_nth.
Qed.

Lemma enumerate_values {A : Type} (P : A -> Prop) (xs : list A) :
  Forall P xs -> Forall (fun p => P (snd p)) (enumerate xs).
Proof.
  intros H. apply Forall_forall. intros [i x] Hin. unfold enumerate in Hin.
  apply in_combine_r in Hin. rewrite Forall_forall in H. now apply H.
Qed.

Lemma py_range_from_zero (stop : Z) :
  exists l, py_range 0 stop 1 = Ok l /\ Forall (fun i => (0 <= i)%Z) l.
Proof.
  destruct (py_range 0 stop 1) as [l|] eqn:E; [|unfold py_range in E; discriminate].
  exists l. split; [reflexivity|].
  eapply Forall_impl; [|apply (py_range_bounds 0 stop 1 l); [lia | exact E]].
  intros a Ha. simpl in Ha. lia.
Qed.

Section ArrangementLoops.

Context {ext : Externals}.

Lemma generate_instrument_at_rate (freq duration : Q)
  (instrument_type : string) :
  (4410 <= py_int (inject_Z 44100 * duration))%Z ->
  exists note,
    _generate_instrument freq duration SAMPLE_RATE instrument_type = Ok note /\
    len note = py_int (inject_Z 44100 * duration).
Proof.
  intros H.
  destruct (generate_instrument_long freq duration instrument_type H)
    as (note & E & L).
  exists note. split; [exact E|]. unfold len. lia.
Qed.

Lemma chord_defined (f0 f1 f2 f3 f4 : Q) (i : Z) :
  (0 <= i)%Z ->
  exists chord,
    (root <- get_item [f0; f1; f2; f3; f4] (i mod len [f0; f1; f2; f3; f4])%Z ;;
     third <- get_item [f0; f1; f2; f3; f4]
                ((i + 2) mod len [f0; f1; f2; f3; f4])%Z ;;
     a <- _generate_instrument root 4 SAMPLE_RATE "pad" ;;
     b <- _generate_instrument third 4 SAMPLE_RATE "pad" ;;
     ab <- vadd a b ;;
     Ok (vscale ab (1 # 2)))%py = Ok chord.
Proof.
  intros Hi.
  destruct (get_item_in_range [f0; f1; f2; f3; f4]
              (i mod len [f0; f1; f2; f3; f4])) as [root ->].
  { apply Z.mod_pos_bound. reflexivity. }
  destruct (get_item_in_range [f0; f1; f2; f3; f4]
              ((i + 2) mod len [f0; f1; f2; f3; f4])) as [third ->].
  { apply Z.mod_pos_bound. reflexivity. }
  cbn [bind].
  destruct (generate_instrument_at_rate root 4 "pad") as (a & -> & La);
    [vm_compute; discriminate|].
  destruct (generate_instrument_at_rate third 4 "pad") as (b & -> & Lb);
    [vm_compute; discriminate|].
  cbn [bind].
  unfold vadd. rewrite binop_same_length by (unfold len in *; lia). cbn [bind].
  eexists. reflexivity.
Qed.

Lemma melody_loop_returns (n : Z) (notes : list (Z * Q)) (melody : list Q)
  (w : world ext) :
  Forall (fun p => (0 <= fst p)%Z) notes ->
  len melody = n ->
  returns
    (for_each notes
       (fun '(i, freq) melody =>
          lift (lay_note n i 2 SAMPLE_RATE
                  (_generate_instrument freq 2 SAMPLE_RATE "synth")
                  (8 # 100) melody))
       melody) w (fun m => len m = n).
Proof.
  intros Hnotes Lm.
  apply (returns_for_each (fun m => len m = n) (fun p => (0 <= fst p)%Z)).
  - exact Hnotes.
  - intros [i freq] track w' Hi Ht. simpl in Hi.
    destruct (generate_instrument_at_rate freq 2 "synth") as (note & En & _);
      [vm_compute; discriminate|].
    apply (tonal_pass_returns n i 2 _ note); auto. discriminate.
  - exact Lm.
Qed.

Lemma pad_loop_returns (n : Z) (f0 f1 f2 f3 f4 : Q) (chords : list Z)
  (pad : list Q) (w : world ext) :
  Forall (fun i => (0 <= i)%Z) chords ->
  len pad = n ->
  returns
    (for_each chords
       (fun i pad =>
          lift (lay_note n i 4 SAMPLE_RATE
                  (root <- get_item [f0; f1; f2; f3; f4]
                             (i mod len [f0; f1; f2; f3; f4])%Z ;;
                   third <- get_item [f0; f1; f2; f3; f4]
                              ((i + 2) mod len [f0; f1; f2; f3; f4])%Z ;;
                   a <- _generate_instrument root 4 SAMPLE_RATE "pad" ;;
                   b <- _generate_instrument third 4 SAMPLE_RATE "pad" ;;
                   ab <- vadd a b ;;
                   Ok (vscale ab (1 # 2)))%py
                  (5 # 100) pad))
       pad) w (fun m => len m = n).
Proof.
  intros Hchords Lp.
  apply (returns_for_each (fun m => len m = n) (fun i => (0 <= i)%Z)).
  - exact Hchords.
  - intros i track w' Hi Ht.
    destruct (chord_defined f0 f1 f2 f3 f4 i Hi) as (chord & Ec).
    apply (tonal_pass_returns n i 4 _ chord); auto. discriminate.
  - exact Lp.
Qed.

Lemma bass_loop_returns (n : Z) (base : Q) (tempo_bpm : Z)
  (bass_notes : list Z) (bass : list Q) (w : world ext) :
  (0 < tempo_bpm <= 1200)%Z ->
  Forall (fun i => (0 <= i)%Z) bass_notes ->
  len bass = n ->
  returns
    (for_each bass_notes
       (fun i bass =>
          lift (lay_note n i (60 / inject_Z tempo_bpm * 2) SAMPLE_RATE
                  (_generate_instrument (base * (1 # 2))
                     (60 / inject_Z tempo_bpm * 2) SAMPLE_RATE "bass")
                  (12 # 100) bass))
       bass) w (fun m => len m = n).
Proof.
  intros Htempo Hnotes Lb.
  pose proof (beat_positive tempo_bpm (proj1 Htempo)) as Hbeat.
  apply (returns_for_each (fun m => len m = n) (fun i => (0 <= i)%Z)).
  - exact Hnotes.
  - intros i track w' Hi Ht.
    destruct (generate_instrument_at_rate (base * (1 # 2))
                (60 / inject_Z tempo_bpm * 2) "bass")
      as (note & En & _); [now apply bass_note_long|].
    apply (tonal_pass_returns n i (60 / inject_Z tempo_bpm * 2) _ note); auto.
    lra.
  - exact Lb.
Qed.

Lemma drums_loop_returns (n : Z) (beat : Q) (beats : list (Z * Q))
  (kick snare hihat : list Q) (w : world ext) :
  0 < beat ->
  Forall (fun p => 0 <= snd p) beats ->
  len kick = n -> len snare = n -> len hihat = n ->
  returns
    (for_each beats
       (fun '(i, bt) '(kick, snare, hihat) =>
          let bs := py_int (bt * inject_Z SAMPLE_RATE) in
          let kd := py_int ((15 # 100) * inject_Z SAMPLE_RATE) in
          bind_py
            (if (bs <? n)%Z
             then drum_hit n bs kd (15 # 100) kick_hit kick
             else ret kick)
            (fun kick =>
          bind_py
            (if (i mod 2 =? 1)%Z && (bs <? n)%Z
             then
               let sd := py_int ((12 # 100) * inject_Z SAMPLE_RATE) in
               drum_hit n bs sd (12 # 100) snare_hit snare
             else ret snare)
            (fun snare =>
          bind_py
            (for_each [0%Z; 1%Z]
               (fun j hihat =>
                  let ht := bt + inject_Z j * beat / 2 in
                  let hs := py_int (ht * inject_Z SAMPLE_RATE) in
                  if (hs <? n)%Z
                  then
                    let hd := py_int ((5 # 100) * inject_Z SAMPLE_RATE) in
                    bind_py (drum_hit n hs hd (5 # 100) hihat_hit hihat)
                      (fun hihat' => ret (Next hihat'))
                  else ret (Next hihat))
               hihat)
            (fun hihat => ret (Next (kick, snare, hihat))))))
       (kick, snare, hihat)) w
    (fun p => len (fst (fst p)) = n /\ len (snd (fst p)) = n /\
              len (snd p) = n).
Proof.
  intros Hbeat Hbeats Lk Ls Lh.
  apply (returns_for_each
           (fun p => len (fst (fst p)) = n /\ len (snd (fst p)) = n /\
                     len (snd p) = n)
           (fun p => 0 <= snd p)).
  - exact Hbeats.
  - intros [i bt] [[k s] h] w' Hbt (Hk & Hs & Hh). simpl in Hbt, Hk, Hs, Hh.
    cbv zeta.
    set (bs := py_int (bt * inject_Z SAMPLE_RATE)).
    assert (Hbs : (0 <= bs)%Z).
    { apply py_int_nonneg. change (inject_Z SAMPLE_RATE) with 44100. nra. }
    apply (returns_bind _ _ _ (fun m => len m = n)).
    { destruct (Z.ltb_spec bs n); [|now apply returns_ret].
      apply drum_hit_returns;
        [assumption | lia | vm_compute; discriminate | apply kick_hit_shape]. }
    intros k' w16 Hk'.
    apply (returns_bind _ _ _ (fun m => len m = n)).
    { destruct ((i mod 2 =? 1)%Z && (bs <? n)%Z) eqn:Ecnd;
        [|now apply returns_ret].
      apply andb_true_iff in Ecnd as [_ Hlt]. apply Z.ltb_lt in Hlt.
      apply drum_hit_returns;
        [assumption | lia | vm_compute; discriminate | apply snare_hit_shape]. }
    intros s' w17 Hs'.
    apply (returns_bind _ _ _ (fun m => len m = n)).
    { apply (returns_for_each (fun m => len m = n) (fun j => (0 <= j)%Z)).
      - repeat constructor; lia.
      - intros j hh w'' Hj Hhh.
        set (hs := py_int ((bt + inject_Z j * beat / 2) * inject_Z SAMPLE_RATE)).
        assert (Hhs : (0 <= hs)%Z).
        { apply py_int_nonneg. change (inject_Z SAMPLE_RATE) with 44100.
          assert (Hj' : 0 <= inject_Z j) by now rewrite <- (Zle_Qle 0).
          assert (Hjb : 0 <= inject_Z j * beat)
            by (apply Qmult_le_0_compat; lra).
          assert (Hhalf : 0 <= inject_Z j * beat / 2).
          { apply Qle_shift_div_l; [reflexivity | lra]. }
          nra. }
        destruct (Z.ltb_spec hs n); [|now apply returns_ret].
        apply (returns_bind _ _ _ (fun m => len m = n)).
        { apply drum_hit_returns;
            [assumption | lia | vm_compute; discriminate
            | apply hihat_hit_shape]. }
        intros h' w18 Hh'. now apply returns_ret.
      - exact Hh. }
    intros h' w19 Hh'. apply returns_ret. simpl. auto.
  - simpl. auto.
Qed.

End ArrangementLoops.

Section ArrangementMain.

Context {ext : Externals}.

Lemma generate_background_music_returns (duration_s : Q) (tempo_bpm : Z)
  (mood : option string) (w : world ext) :
  (forall y, exists y', run_board music_board y SAMPLE_RATE = Ok y' /\
                        length y' = length y) ->
  0 <= duration_s ->
  (0 < tempo_bpm <= 1200)%Z ->
  returns (generate_background_music duration_s tempo_bpm mood) w
    (fun music => len music = py_int (inject_Z SAMPLE_RATE * duration_s)).
Proof.
  intros Hboard HD Htempo. unfold generate_background_music. cbv zeta.
  set (n := py_int (inject_Z SAMPLE_RATE * duration_s)).
  assert (Hn : (0 <= n)%Z).
  { apply py_int_nonneg. change (inject_Z SAMPLE_RATE) with 44100. lra. }
  pose proof (beat_positive tempo_bpm (proj1 Htempo)) as Hbeat.
  (* the time axis *)
  destruct (np_linspace_length 0 duration_s n Hn) as (t & Et & _).
  apply (returns_bind _ _ _ (fun _ => True)).
  { now apply (returns_lift _ t). }
  intros _ w0 _.
  (* the beat *)
  apply (returns_bind _ _ _ (fun b => b = 60 / inject_Z tempo_bpm)).
  { apply (returns_lift _ (60 / inject_Z tempo_bpm)); [|reflexivity].
    unfold py_div. rewrite Qeq_bool_nonzero; [reflexivity|].
    intros E. unfold Qeq in E. cbn [Qnum Qden inject_Z] in E. lia. }
  intros ? w1 ->.
  destruct (scale_shape mood) as (base & f0 & f1 & f2 & f3 & f4 & -> & Hbase).
  (* melody *)
  apply (returns_bind _ _ _ (fun m => len m = n)); [now apply returns_zeros|].
  intros melody w2 Lm.
  apply (returns_bind _ _ _ (fun _ => True)).
  { eapply returns_lift; [reflexivity | exact I]. }
  intros per_cycle w3 _.
  apply (returns_bind _ _ _ (fun m => len m = n)).
  { apply melody_loop_returns; [apply enumerate_indices | exact Lm]. }
  intros melody' w4 Lm'.
  (* chord pads *)
  apply (returns_bind _ _ _ (fun m => len m = n)); [now apply returns_zeros|].
  intros pad w5 Lp.
  destruct (py_range_from_zero (int_ceil (duration_s / 4)))
    as (chords & Ec & Hc).
  apply (returns_bind _ _ _ (fun x => x = chords));
    [now apply (returns_lift _ chords)|].
  intros ? w6 ->.
  apply (returns_bind _ _ _ (fun m => len m = n)).
  { now apply pad_loop_returns. }
  intros pad' w7 Lp'.
  (* bass *)
  apply (returns_bind _ _ _ (fun m => len m = n)); [now apply returns_zeros|].
  intros bass w8 Lb.
  apply (returns_bind _ _ _ (fun _ => True)).
  { eapply returns_lift; [|exact I]. unfold py_div.
    rewrite Qeq_bool_nonzero; [reflexivity|]. intros E. lra. }
  intros per_bass w9 _.
  destruct (py_range_from_zero (int_ceil per_bass)) as (bass_notes & Eb & Hb).
  apply (returns_bind _ _ _ (fun x => x = bass_notes));
    [now apply (returns_lift _ bass_notes)|].
  intros ? w10 ->.
  apply (returns_bind _ _ _ (fun m => len m = n)).
  { now apply bass_loop_returns. }
  intros bass' w11 Lb'.
  (* drums *)
  apply (returns_bind _ _ _ (fun m => len m = n)); [now apply returns_zeros|].
  intros kick w12 Lk.
  apply (returns_bind _ _ _ (fun m => len m = n)); [now apply returns_zeros|].
  intros snare w13 Ls.
  apply (returns_bind _ _ _ (fun m => len m = n)); [now apply returns_zeros|].
  intros hihat w14 Lh.
  destruct (np_arange 0 duration_s (60 / inject_Z tempo_bpm))
    as [beat_times|] eqn:Ea.
  2:{ unfold np_arange in Ea. rewrite Qeq_bool_nonzero in Ea; [discriminate|].
      intros E. lra. }
  apply (returns_bind _ _ _ (fun x => x = beat_times));
    [now apply (returns_lift _ beat_times)|].
  intros ? w15 ->.
  apply (returns_bind _ _ _
           (fun p => len (fst (fst p)) = n /\ len (snd (fst p)) = n /\
                     len (snd p) = n)).
  { apply drums_loop_returns; try assumption.
    apply enumerate_values.
    apply (np_arange_nonneg duration_s (60 / inject_Z tempo_bpm));
      [lra | exact Ea]. }
  intros [[kick' snare'] hihat'] w20 (Lk' & Ls' & Lh'). simpl in Lk', Ls', Lh'.
  cbv zeta.
  (* the sum of the tracks *)
  destruct (vadd_same melody' pad' n Lm' Lp') as (m1 & E1 & L1).
  destruct (vadd_same m1 bass' n L1 Lb') as (m2 & E2 & L2).
  destruct (vadd_same m2 kick' n L2 Lk') as (m3 & E3 & L3).
  destruct (vadd_same m3 snare' n L3 Ls') as (m4 & E4 & L4).
  destruct (vadd_same m4 hihat' n L4 Lh') as (m5 & E5 & L5).
  apply (returns_bind _ _ _ (fun x => x = m5)).
  { apply (returns_lift _ m5); [|reflexivity].
    rewrite E1. cbn [bind]. rewrite E2. cbn [bind]. rewrite E3. cbn [bind].
    rewrite E4. cbn [bind]. exact E5. }
  intros ? w21 ->.
  (* the bus *)
  destruct (Hboard m5) as (music & Em & Lmu).
  apply (returns_bind _ _ _ (fun x => x = music));
    [now apply (returns_lift _ music)|].
  intros ? w22 ->.
  (* the fades *)
  destruct (fade_keeps_length music) as (faded & Ef & Lf).
  destruct (2 * py_int (inject_Z SAMPLE_RATE * (15 # 10)) <? len music)%Z.
  - apply (returns_lift _ faded); [exact Ef|]. unfold len in *. congruence.
  - inversion Ef; subst. apply returns_ret. unfold len in *. congruence.
Qed.

End ArrangementMain.
Lemma truncation_near_rounding (x : Q) (r : Z) :
  0 <= x -> Qabs (inject_Z r - x) <= 1 # 2 -> (Z.abs (py_int x - r) <= 1)%Z.
Proof.
  intros Hx Hr. apply Qabs_Qle_condition in Hr as [Hlo Hhi].
  destruct (py_int_near x Hx) as [H1 H2].
  assert (Ha : inject_Z (py_int x) < inject_Z (r + 1)).
  { rewrite inject_Z_plus. change (inject_Z 1) with 1. lra. }
  assert (Hb : inject_Z r < inject_Z (py_int x + 2)).
  { rewrite inject_Z_plus. change (inject_Z 2) with 2. lra. }
  rewrite <- Zlt_Qlt in Ha, Hb. lia.
Qed.

Lemma py_int_of_eq (x : Q) (n : Z) :
  (0 <= n)%Z -> x == inject_Z n -> py_int x = n.
Proof.
  intros Hn E. rewrite py_int_floor.
  - rewrite E. apply Qfloor_Z.
  - rewrite E. now rewrite <- (Zle_Qle 0).
Qed.

Section ArrangementClaim.

Context {ext : Externals}.

(** C9. For a duration [D >= 0] and a tempo of at most 1200 bpm, with a
    bus that returns as many samples as it is given, the arrangement mixer
    returns [int(44100 * D)] samples: at most one sample away from
    [D * 44100] rounded to an integer, far inside the 66150 samples of the
    fade window, and exactly 176400 for [D = 4]. *)
Theorem C9_backing_track_length (duration_s : Q) (tempo_bpm : Z)
  (mood : option string) (w : world ext) :
  (forall y, exists y', run_board music_board y SAMPLE_RATE = Ok y' /\
                        length y' = length y) ->
  0 <= duration_s ->
  (0 < tempo_bpm <= 1200)%Z ->
  exists music w',
    generate_background_music duration_s tempo_bpm mood w = (Ok music, w') /\
    len music = py_int (inject_Z SAMPLE_RATE * duration_s) /\
    (forall r : Z,
        Qabs (inject_Z r - inject_Z SAMPLE_RATE * duration_s) <= 1 # 2 ->
        (Z.abs (len music - r) <= 1)%Z /\
        (Z.abs (len music - r) <= py_int (inject_Z SAMPLE_RATE * (15 # 10)))%Z) /\
    (duration_s == 4 -> len music = 176400%Z).
Proof.
  intros Hboard HD Htempo.
  destruct (generate_background_music_returns duration_s tempo_bpm mood w
              Hboard HD Htempo) as (music & w' & E & L).
  exists music, w'. split; [exact E|]. split; [exact L|]. split.
  - intros r Hr. rewrite L.
    assert (H1 : (Z.abs (py_int (inject_Z SAMPLE_RATE * duration_s) - r) <= 1)%Z).
    { apply truncation_near_rounding; [|exact Hr].
      change (inject_Z SAMPLE_RATE) with 44100. lra. }
    split; [exact H1|].
    change (py_int (inject_Z SAMPLE_RATE * (15 # 10))) with 66150%Z. lia.
  - intros E4. rewrite L. apply py_int_of_eq; [lia|]. rewrite E4. reflexivity.
Qed.

End ArrangementClaim.

Lemma sample_board_keeps_length (y : list Q) :
  exists y', @run_board sample_ext music_board y SAMPLE_RATE = Ok y' /\
             length y' = length y.
Proof. exists y. split; reflexivity. Qed.

Lemma C9_backing_track_length_witness :
  exists music w',
    @generate_background_music sample_ext 4 128 (Some "energetic"%string)
      (world_seeded (fun _ => None) 0) = (Ok music, w') /\
    len music = 176400%Z.
Proof.
  destruct (@C9_backing_track_length sample_ext 4 128 (Some "energetic"%string)
              (world_seeded (fun _ => None) 0) sample_board_keeps_length
              ltac:(discriminate) ltac:(lia))
    as (music & w' & E & _ & _ & H4).
  exists music, w'. split; [exact E|]. apply H4. reflexivity.
Defined.
Lemma sample_mix_run :
  fst (@mix_and_master sample_ext "vocal.wav" [1 # 2; - (1 # 4)] "out.wav"
         (world_seeded (fun _ => None) 0)) = Ok "out.wav"%string.
Proof. vm_compute. reflexivity. Qed.

Lemma sample_mix_peak (vocals v b ducked eq mixed mastered : list Q)
  (peak : Q) :
  @load_vocals sample_ext "vocal.wav" [1 # 2; - (1 # 4)]
     (world_seeded (fun _ => None) 0)
    = (Ok vocals, world_seeded (fun _ => None) 0) ->
  match_lengths vocals [1 # 2; - (1 # 4)] = Ok (v, b) ->
  @_apply_sidechain sample_ext b v SAMPLE_RATE = Ok ducked ->
  @run_board sample_ext music_eq ducked SAMPLE_RATE = Ok eq ->
  vadd (vscale v 1) (vscale eq (35 # 100)) = Ok mixed ->
  @run_board sample_ext mastering mixed SAMPLE_RATE = Ok mastered ->
  np_max_abs mastered = Ok peak ->
  0 < peak.
Proof.
  intros H1 H2 H3 H4 H5 H6 H7.
  apply (f_equal fst) in H1. cbn [fst] in H1.
  vm_compute in H1. injection H1 as <-.
  vm_compute in H2. injection H2 as <- <-.
  vm_compute in H3. injection H3 as <-.
  vm_compute in H4. injection H4 as <-.
  vm_compute in H5. injection H5 as <-.
  vm_compute in H6. injection H6 as <-.
  vm_compute in H7. injection H7 as <-.
  reflexivity.
Qed.

Lemma C1_master_peak_witness :
  exists (mastered : list Q) (peak : Q),
    0 < peak /\
    @wavfile_write sample_ext (fun _ => None) "out.wav" SAMPLE_RATE
       (map (fun x => np_int16 (x * 32767))
          (vscale (vdiv mastered peak) (95 # 100)))
      = (Ok tt,
         files (snd (@mix_and_master sample_ext "vocal.wav"
                       [1 # 2; - (1 # 4)] "out.wav"
                       (world_seeded (fun _ => None) 0)))) /\
    (exists m, np_max_abs (vscale (vdiv mastered peak) (95 # 100)) = Ok m /\
               m == 95 # 100) /\
    (exists z, In z (map (fun x => np_int16 (x * 32767))
                       (vscale (vdiv mastered peak) (95 # 100))) /\
               Z.abs z = 31128%Z).
Proof.
  destruct (@C1_master_peak_is_095 sample_ext "vocal.wav" "out.wav"
              [1 # 2; - (1 # 4)] (world_seeded (fun _ => None) 0)
              (snd (@mix_and_master sample_ext "vocal.wav"
                      [1 # 2; - (1 # 4)] "out.wav"
                      (world_seeded (fun _ => None) 0)))
              "out.wav")
    as (vocals & v & b & ducked & eq & mixed & mastered & peak
        & H1 & H2 & H3 & H4 & H5 & H6 & H7 & _ & Hrest).
  - rewrite <- sample_mix_run. apply surjective_pairing.
  - cbv zeta in Hrest. destruct Hrest as (Hw & _ & _ & Hpos).
    pose proof (sample_mix_peak _ _ _ _ _ _ _ _ H1 H2 H3 H4 H5 H6 H7) as Hp.
    destruct (Hpos Hp) as (Hn & Hm & Hc & _ & Hz & _).
    rewrite Hc, Hn in Hw, Hz. rewrite Hn in Hm.
    exists mastered, peak. split; [exact Hp|]. split; [exact Hw|].
    split; [exact Hm | exact Hz].
Defined.

Lemma C5_resolver_witness :
  get_melody_freqs_for_mood (Some "CALM"%string)
  = get_melody_freqs_for_mood (Some "calm"%string).
Proof.
  apply (proj1 (proj2 (proj2 (proj2 C5_resolver_first_match_wins)))).
  reflexivity.
Defined.
(** * Further properties *)

(** ** The genre table *)

Lemma first_tempo_hit (table before after : list (string * Z)) (key : string)
  (bpm : Z) (s : string) :
  table = before ++ (key, bpm) :: after ->
  contains key s = true ->
  (forall k v, In (k, v) before -> contains k s = false) ->
  first_tempo table s = bpm.
Proof.
  intros -> Hkey. induction before as [|[k v] before IH]; intros Hbefore; simpl.
  - now rewrite Hkey.
  - rewrite (Hbefore k v) by now left. apply IH.
    intros k' v' Hin. apply (Hbefore k' v'). now right.
Qed.

Lemma first_tempo_miss (table : list (string * Z)) (s : string) :
  (forall k v, In (k, v) table -> contains k s = false) ->
  first_tempo table s = 120%Z.
Proof.
  induction table as [|[k v] table IH]; intros H; simpl; [reflexivity|].
  rewrite (H k v) by now left. apply IH.
  intros k' v' Hin. apply (H k' v'). now right.
Qed.

Lemma first_tempo_from_table (table : list (string * Z)) (s : string) :
  first_tempo table s = 120%Z \/ In (first_tempo table s) (map snd table).
Proof.
  induction table as [|[k v] table IH]; simpl; [now left|].
  destruct (contains k s); [right; now left|].
  destruct IH as [IH|IH]; [now left | right; now right].
Qed.

Lemma tempos_keys_nonempty (k : string) (v : Z) :
  In (k, v) tempos -> k <> ""%string.
Proof.
  unfold tempos. intros H.
  repeat (destruct H as [H|H]; [inversion H; discriminate|]). destruct H.
Qed.

Lemma lower_empty (s : string) : lower s = ""%string -> s = ""%string.
Proof. destruct s; [reflexivity | discriminate]. Qed.

Lemma not_contains (k s : string) :
  contains k s = false <-> ~ exists a b, (s = a ++ k ++ b)%string.
Proof.
  rewrite <- contains_substring. destruct (contains k s); split; congruence.
Qed.

Lemma tempo_in_range (genre : string) :
  (70 <= get_tempo_for_genre genre <= 130)%Z.
Proof.
  unfold get_tempo_for_genre.
  destruct (first_tempo_from_table tempos
              (if String.eqb genre "" then "pop"%string else lower genre))
    as [-> | Hin]; [lia|].
  revert Hin. generalize (first_tempo tempos
              (if String.eqb genre "" then "pop"%string else lower genre)).
  intros z Hin. simpl in Hin.
  repeat (destruct Hin as [<-|Hin]; [lia|]). destruct Hin.
Qed.

(** The tempo of a genre is that of the first entry of the table, in the
    table's order, whose key occurs in the lower-cased genre; it is 120
    when no key occurs, and for the empty string; it always lies between 70
    and 130 beats per minute. *)
Theorem tempo_is_first_table_match (genre : string) :
  (70 <= get_tempo_for_genre genre <= 130)%Z /\
  (forall before key bpm after,
      tempos = before ++ (key, bpm) :: after ->
      (exists a b, lower genre = a ++ key ++ b)%string ->
      (forall k v, In (k, v) before ->
                   ~ exists a b, (lower genre = a ++ k ++ b)%string) ->
      get_tempo_for_genre genre = bpm) /\
  ((forall k v, In (k, v) tempos ->
                ~ exists a b, (lower genre = a ++ k ++ b)%string) ->
   get_tempo_for_genre genre = 120%Z).
Proof.
  split; [apply tempo_in_range|split].
  - intros before key bpm after Ht Hkey Hbefore.
    unfold get_tempo_for_genre.
    destruct (String.eqb_spec genre "") as [->|Hne].
    + exfalso. destruct Hkey as (a & b & E). simpl in E.
      assert (Hk : In (key, bpm) tempos).
      { rewrite Ht. apply in_or_app. right. now left. }
      apply tempos_keys_nonempty in Hk.
      destruct a; [destruct key; [congruence | discriminate] | discriminate].
    + apply (first_tempo_hit tempos before after key bpm); [exact Ht | |].
      * now apply contains_substring.
      * intros k v Hin. apply not_contains. now apply (Hbefore k v).
  - intros Hnone. unfold get_tempo_for_genre.
    destruct (String.eqb_spec genre "") as [->|Hne]; [reflexivity|].
    apply first_tempo_miss. intros k v Hin. apply not_contains.
    now apply (Hnone k v).
Qed.

Lemma tempo_is_first_table_match_witness :
  get_tempo_for_genre "Deep-House EDM mix, then lo-fi pop" = 85%Z.
Proof.
  apply (proj1 (proj2 (tempo_is_first_table_match
                         "Deep-House EDM mix, then lo-fi pop"))
           [] "lo-fi"%string 85%Z (tl tempos)).
  - reflexivity.
  - apply contains_substring. vm_compute. reflexivity.
  - intros k v [].
Defined.

Section TempoAndArrangement.

Context {ext : Externals}.

(** The backing track of a request: whatever the genre, the tempo looked up
    for it is one the arrangement mixer accepts, and the track generated
    for a duration [D >= 0] has [int(44100 * D)] samples. *)
Theorem backing_track_for_any_genre (genre : string) (duration_s : Q)
  (mood : option string) (w : world ext) :
  (forall y, exists y', run_board music_board y SAMPLE_RATE = Ok y' /\
                        length y' = length y) ->
  0 <= duration_s ->
  exists music w',
    generate_background_music duration_s (get_tempo_for_genre genre) mood w
      = (Ok music, w') /\
    len music = py_int (inject_Z SAMPLE_RATE * duration_s).
Proof.
  intros Hboard HD.
  pose proof (tempo_in_range genre) as Ht.
  apply (generate_background_music_returns duration_s
           (get_tempo_for_genre genre) mood w Hboard HD). lia.
Qed.

End TempoAndArrangement.

Lemma backing_track_for_any_genre_witness :
  exists music w',
    @generate_background_music sample_ext (5 # 2) (get_tempo_for_genre "jazz")
      (Some "dreamy"%string) (world_seeded (fun _ => None) 0) = (Ok music, w') /\
    len music = py_int (inject_Z SAMPLE_RATE * (5 # 2)).
Proof.
  apply (@backing_track_for_any_genre sample_ext "jazz" (5 # 2)
           (Some "dreamy"%string) (world_seeded (fun _ => None) 0)
           sample_board_keeps_length).
  discriminate.
Defined.
(** ** The shape of a generated tone *)

Lemma slice_bounds_prefix (n : nat) (k : Z) :
  (0 <= k <= Z.of_nat n)%Z ->
  slice_bounds n None (Some k) = (0%nat, Z.to_nat k).
Proof.
  intros H. unfold slice_bounds, norm_index.
  destruct (Z.ltb_spec k 0); [lia|]. f_equal. lia.
Qed.

Lemma slice_bounds_mid (n : nat) (i j : Z) :
  (0 <= i)%Z -> (0 <= j <= Z.of_nat n)%Z -> (i <= Z.of_nat n)%Z ->
  slice_bounds n (Some i) (Some j) = (Z.to_nat i, Z.to_nat j).
Proof.
  intros Hi Hj Hin. unfold slice_bounds, norm_index.
  destruct (Z.ltb_spec i 0); [lia|]. destruct (Z.ltb_spec j 0); [lia|].
  f_equal; lia.
Qed.

Lemma slice_bounds_suffix (n : nat) (k : Z) :
  (0 < k <= Z.of_nat n)%Z ->
  slice_bounds n (Some (- k)%Z) None = ((n - Z.to_nat k)%nat, n).
Proof.
  intros H. unfold slice_bounds, norm_index.
  destruct (Z.ltb_spec (- k) 0); [|lia]. f_equal; lia.
Qed.

Lemma set_slice_result (a v : list Q) (start stop : option Z) (lo hi : nat) :
  slice_bounds (length a) start stop = (lo, hi) ->
  length v = (hi - lo)%nat ->
  set_slice a start stop v = Ok (splice a lo (hi - lo) v).
Proof.
  intros Hb Hv. unfold set_slice. rewrite Hb.
  now rewrite broadcast_to_same.
Qed.

Lemma splice_nth_before {A : Type} (a v : list A) (lo m i : nat) :
  (i < lo)%nat -> (lo <= length a)%nat ->
  nth_error (splice a lo m v) i = nth_error a i.
Proof.
  intros Hi Hlo. unfold splice.
  rewrite nth_error_app1 by (rewrite length_firstn; lia).
  rewrite nth_error_firstn. destruct (Nat.ltb_spec i lo); [reflexivity|lia].
Qed.

Lemma splice_nth_inside {A : Type} (a v : list A) (lo m i : nat) :
  (lo <= length a)%nat -> (i < length v)%nat ->
  nth_error (splice a lo m v) (lo + i) = nth_error v i.
Proof.
  intros Hlo Hi. unfold splice.
  rewrite nth_error_app2 by (rewrite length_firstn; lia).
  rewrite length_firstn.
  replace (lo + i - Nat.min lo (length a))%nat with i by lia.
  now apply nth_error_app1.
Qed.

Lemma np_linspace_nth (a b : Q) (n : Z) (i : nat) :
  (1 < n)%Z -> (Z.of_nat i < n)%Z ->
  exists l,
    np_linspace a b n = Ok l /\ length l = Z.to_nat n /\
    nth_error l i
      = Some (inject_Z (Z.of_nat i) * ((b - a) / inject_Z (n - 1)) + a).
Proof.
  intros Hn Hi. unfold np_linspace.
  destruct (Z.ltb_spec n 0); [lia|]. destruct (Z.eqb_spec n 1); [lia|].
  eexists. split; [reflexivity|]. split.
  - now rewrite length_map, length_seq.
  - rewrite nth_error_map, nth_error_seq.
    destruct (Nat.ltb_spec i (Z.to_nat n)); [reflexivity | lia].
Qed.

Lemma adsr_envelope_ends (n : nat) :
  (4410 <= n)%nat ->
  exists envelope last,
    adsr_envelope n 44100 = Ok envelope /\ length envelope = n /\
    nth_error envelope (n - 1) = Some last /\ last == 0 /\
    ((4410 < n)%nat ->
     exists first, nth_error envelope 0 = Some first /\ first == 0).
Proof.
  intros Hn. unfold adsr_envelope. cbv zeta.
  destruct adsr_constants as (-> & -> & ->).
  change (0 <? 882)%Z with true. change (0 <? 2205)%Z with true.
  change (0 <? 4410)%Z with true. cbn [andb].
  (* attack *)
  destruct (np_linspace_nth 0 1 882 0) as (r1 & -> & L1 & N1); [lia | lia|].
  cbn [bind].
  rewrite (set_slice_result (ones n) r1 None (Some 882%Z) 0 882).
  2:{ rewrite ones_length. rewrite slice_bounds_prefix by lia. reflexivity. }
  2:{ rewrite L1. reflexivity. }
  cbn [bind].
  set (e1 := splice (ones n) 0 (882 - 0) r1).
  assert (Le1 : length e1 = n).
  { unfold e1. rewrite splice_length; [apply ones_length | |];
      rewrite ?ones_length; lia. }
  assert (F1 : nth_error e1 0 = nth_error r1 0).
  { unfold e1. apply (splice_nth_inside (ones n) r1 0 (882 - 0) 0);
      rewrite ?ones_length; lia. }
  (* decay *)
  assert (Hd : exists e2,
             (if (882 + 2205 <? len e1)%Z
              then (ramp <- np_linspace 1 (7 # 10) 2205 ;;
                    set_slice e1 (Some 882%Z) (Some (882 + 2205)%Z) ramp)%py
              else Ok e1) = Ok e2 /\ length e2 = n /\
             nth_error e2 0 = nth_error e1 0).
  { unfold len. destruct (Z.ltb_spec (882 + 2205) (Z.of_nat (length e1))).
    - destruct (np_linspace_length 1 (7 # 10) 2205) as (r2 & -> & L2); [lia|].
      cbn [bind].
      rewrite (set_slice_result e1 r2 (Some 882%Z) (Some (882 + 2205)%Z)
                 882 3087).
      + eexists. split; [reflexivity|]. split.
        * rewrite splice_length; lia.
        * apply splice_nth_before; lia.
      + rewrite slice_bounds_mid by lia. reflexivity.
      + rewrite L2. reflexivity.
    - exists e1. auto. }
  destruct Hd as (e2 & -> & Le2 & F2). cbn [bind].
  (* sustain *)
  set (e3 := if (882 + 2205 <? len e2 - 4410)%Z then _ else e2).
  assert (He3 : length e3 = n /\ nth_error e3 0 = nth_error e2 0).
  { unfold e3, len. destruct (Z.ltb_spec (882 + 2205) (Z.of_nat (length e2) - 4410)).
    - split; [now rewrite fill_slice_length|].
      unfold fill_slice.
      rewrite (slice_bounds_mid (length e2) (882 + 2205)
                 (Z.of_nat (length e2) - 4410)) by lia.
      apply splice_nth_before; lia.
    - now split. }
  destruct He3 as [Le3 F3].
  (* release *)
  destruct (np_linspace_nth (7 # 10) 0 4410 4409) as (r3 & -> & L3 & N3);
    [lia | lia|].
  cbn [bind].
  rewrite (set_slice_result e3 r3 (Some (- (4410))%Z) None (n - 4410) n).
  2:{ rewrite Le3. rewrite (slice_bounds_suffix n 4410) by lia. reflexivity. }
  2:{ rewrite L3. lia. }
  eexists. eexists. split; [reflexivity|]. split; [|split; [|split]].
  - rewrite splice_length; lia.
  - replace (n - 1)%nat with (n - 4410 + 4409)%nat by lia.
    rewrite splice_nth_inside by lia. exact N3.
  - vm_compute. reflexivity.
  - intros Hlong. rewrite splice_nth_before by lia.
    rewrite F3, F2, F1, N1. eexists. split; [reflexivity|].
    vm_compute. reflexivity.
Qed.
Lemma Qmult_zero_r (x e : Q) : e == 0 -> x * e == 0.
Proof. intros H. rewrite H. ring. Qed.

Section ToneShape.

Context {ext : Externals}.

(** A note of at least 4410 samples (100 ms at 44.1 kHz) is returned with
    [int(sr * duration)] samples; its last sample is zero, the release ramp
    ending at zero, and so is its first when it is longer than the release,
    the attack ramp starting at zero. *)
Theorem tone_has_length_and_silent_ends (freq duration : Q)
  (instrument_type : string) :
  (4410 <= py_int (inject_Z SAMPLE_RATE * duration))%Z ->
  exists note last,
    _generate_instrument freq duration SAMPLE_RATE instrument_type = Ok note /\
    len note = py_int (inject_Z SAMPLE_RATE * duration) /\
    nth_error note (length note - 1) = Some last /\ last == 0 /\
    ((4410 < py_int (inject_Z SAMPLE_RATE * duration))%Z ->
     exists first, nth_error note 0 = Some first /\ first == 0).
Proof.
  unfold SAMPLE_RATE. intros Hn. unfold _generate_instrument. cbv zeta.
  destruct (np_linspace_length 0 duration
              (py_int (inject_Z 44100 * duration)))
    as (t & -> & Lt); [lia|].
  cbn [bind].
  set (signal := if String.eqb instrument_type "synth" then _ else _).
  assert (Ls : length signal = length t).
  { unfold signal. destruct (String.eqb instrument_type "synth");
      [|destruct (String.eqb instrument_type "bass")]; apply length_map. }
  destruct (adsr_envelope_ends (length signal))
    as (envelope & e_last & He & Le & Hlast & Hzero & Hfirst); [lia|].
  rewrite He. cbn [bind]. unfold vmul.
  rewrite binop_same_length by congruence.
  assert (Lm : length (map2 Qmult signal envelope) = length signal).
  { rewrite map2_length. lia. }
  destruct (nth_error signal (length signal - 1)) as [s_last|] eqn:Es;
    [|apply nth_error_None in Es; lia].
  exists (map2 Qmult signal envelope), (s_last * e_last).
  split; [reflexivity|]. split; [unfold len; lia|]. split; [|split].
  - rewrite Lm. now apply nth_error_map2.
  - now apply Qmult_zero_r.
  - intros Hlong.
    destruct Hfirst as (e_first & Hf & Hz); [lia|].
    destruct (nth_error signal 0) as [s_first|] eqn:Es0;
      [|apply nth_error_None in Es0; lia].
    exists (s_first * e_first). split; [now apply nth_error_map2|].
    now apply Qmult_zero_r.
Qed.

End ToneShape.

Lemma tone_has_length_and_silent_ends_witness :
  exists note,
    @_generate_instrument sample_ext 220 2 SAMPLE_RATE "pad" = Ok note /\
    len note = 88200%Z.
Proof.
  destruct (@tone_has_length_and_silent_ends sample_ext 220 2 "pad")
    as (note & last & E & L & _).
  - vm_compute. discriminate.
  - exists note. split; [exact E | exact L].
Defined.
(** ** The sidechain on buffers of any length *)

Lemma for_each_pure_ok_all {A S : Type} (body : A -> S -> result S)
  (xs : list A) (s s' : S) :
  for_each_pure xs body s = Ok s' ->
  forall x, In x xs -> exists s0 s1, body x s0 = Ok s1.
Proof.
  revert s; induction xs as [|y xs IH]; intros s H x Hin; [destruct Hin|].
  cbn [for_each_pure] in H. destruct (body y s) as [s1|] eqn:E; [|discriminate].
  cbn [bind] in H. destruct Hin as [->|Hin].
  - now exists s, s1.
  - exact (IH s1 H x Hin).
Qed.

Lemma for_each_pure_raise_source {A S : Type} (body : A -> S -> result S)
  (xs : list A) (s : S) (e : exn) :
  for_each_pure xs body s = Raise e ->
  exists x s0, In x xs /\ body x s0 = Raise e.
Proof.
  revert s; induction xs as [|y xs IH]; intros s H; [discriminate|].
  cbn [for_each_pure] in H. destruct (body y s) as [s1|e1] eqn:E.
  - cbn [bind] in H. destruct (IH s1 H) as (x & s0 & Hin & Hx).
    exists x, s0. split; [now right | exact Hx].
  - cbn [bind] in H. inversion H; subst. exists y, s. split; [now left | exact E].
Qed.

Lemma get_item_raises_index {A : Type} (a : list A) (i : Z) (e : exn) :
  get_item a i = Raise e -> e = IndexError.
Proof.
  unfold get_item. destruct (_ <? 0)%Z; [intros H; now inversion H|].
  destruct (nth_error a _); [discriminate | intros H; now inversion H].
Qed.

Lemma set_item_raises_index (a : list Q) (i : Z) (x : Q) (e : exn) :
  set_item a i x = Raise e -> e = IndexError.
Proof.
  unfold set_item. destruct (_ || _); [intros H; now inversion H | discriminate].
Qed.

Lemma ducking_body_raises_index (active : list bool) (i : Z) (d : list Q)
  (e : exn) :
  ducking_body active i d = Raise e -> e = IndexError.
Proof.
  unfold ducking_body. destruct (get_item active i) as [a|e1] eqn:Ea.
  - cbn [bind]. destruct (0 <? i)%Z.
    + destruct (get_item d (i - 1)) as [p|e2] eqn:Ep.
      * cbn [bind]. apply set_item_raises_index.
      * cbn [bind]. intros H. inversion H; subst.
        exact (get_item_raises_index _ _ _ Ep).
    + apply set_item_raises_index.
  - cbn [bind]. intros H. inversion H; subst.
    exact (get_item_raises_index _ _ _ Ea).
Qed.

Lemma ducking_curve_short_flags (active : list bool) (n : nat) :
  (length active < n)%nat -> ducking_curve active n = Raise IndexError.
Proof.
  intros Hlt. unfold ducking_curve. rewrite py_range_upto. cbn [bind].
  destruct (for_each_pure (map Z.of_nat (seq 0 n)) (ducking_body active)
              (ones n)) as [d|e] eqn:E.
  - exfalso.
    destruct (for_each_pure_ok_all _ _ _ _ E (Z.of_nat (length active)))
      as (s0 & s1 & Hbody).
    { apply in_map, in_seq. lia. }
    unfold ducking_body in Hbody.
    rewrite get_item_out_of_range in Hbody by lia. discriminate.
  - destruct (for_each_pure_raise_source _ _ _ _ E) as (x & s0 & _ & Hx).
    now rewrite (ducking_body_raises_index _ _ _ _ Hx).
Qed.

Lemma gains_never_amplify (music gains : list Q) :
  length music = length gains ->
  Forall (fun g => 4 # 10 <= g <= 1) gains ->
  Forall2 (fun o m => (4 # 10) * Qabs m <= Qabs o /\ Qabs o <= Qabs m)
    (map2 Qmult music gains) music.
Proof.
  revert gains; induction music as [|m music IH]; intros [|g gains] Hl Hg;
    simpl in *; try discriminate; constructor.
  - inversion Hg as [|? ? [Hlo Hhi] _]; subst.
    rewrite Qabs_Qmult, (Qabs_pos g) by lra.
    pose proof (Qabs_nonneg m). split; nra.
  - apply IH; [lia | now inversion Hg].
Qed.

Section SidechainShape.

Context {ext : Externals}.

Lemma vocal_envelope_total (vocals : list Q) :
  exists envelope,
    vocal_envelope_of vocals SAMPLE_RATE = Ok envelope /\
    length envelope = length vocals.
Proof.
  unfold vocal_envelope_of, SAMPLE_RATE. cbv zeta.
  destruct window_constants as [-> ->].
  destruct (py_range 0 (len vocals - 2205) 1102) as [starts|] eqn:Er;
    [|unfold py_range in Er; discriminate].
  cbn [bind].
  apply (for_each_pure_total (fun env => length env = length vocals)
           (fun i => (0 <= i < len vocals - 2205)%Z)).
  - apply (py_range_bounds 0 (len vocals - 2205) 1102 starts); [lia | exact Er].
  - intros i env Hi Hl.
    destruct (get_item_in_range env i) as [held ->]; [unfold len in *; lia|].
    cbn [bind]. eexists. split; [reflexivity|].
    now rewrite fill_slice_length.
  - apply zeros_length.
Qed.

(** At the engine's sample rate [_apply_sidechain] returns exactly when the
    vocal is at least as long as the backing track, and raises [IndexError]
    otherwise.  What it returns is the backing track multiplied sample by
    sample by gains in [0.4, 1]: no sample is amplified, and none keeps
    less than 0.4 of its magnitude. *)
Theorem sidechain_returns_attenuated_track (music vocals : list Q) :
  ((length music <= length vocals)%nat ->
   exists gains,
     _apply_sidechain music vocals SAMPLE_RATE = Ok (map2 Qmult music gains) /\
     length gains = length music /\
     Forall (fun g => 4 # 10 <= g <= 1) gains /\
     Forall2 (fun o m => (4 # 10) * Qabs m <= Qabs o /\ Qabs o <= Qabs m)
       (map2 Qmult music gains) music) /\
  ((length vocals < length music)%nat ->
   _apply_sidechain music vocals SAMPLE_RATE = Raise IndexError).
Proof.
  destruct (vocal_envelope_total vocals) as (envelope & He & Le).
  set (active := map (fun e => Qltb (1 # 100) e) envelope).
  assert (La : length active = length vocals).
  { unfold active. now rewrite length_map. }
  split.
  - intros Hlen.
    set (gains := spec_ducking (firstn (length music) active)).
    assert (Lg : length gains = length music).
    { unfold gains. rewrite spec_ducking_length, length_firstn. lia. }
    assert (Hr : Forall (fun g => 4 # 10 <= g <= 1) gains)
      by apply spec_ducking_in_range.
    exists gains. split; [|split; [exact Lg | split; [exact Hr|]]].
    + apply (apply_sidechain_steps music vocals SAMPLE_RATE envelope gains He);
        [|now symmetry].
      apply ducking_curve_refines. fold active. lia.
    + now apply gains_never_amplify.
  - intros Hlen. unfold _apply_sidechain. rewrite He. cbn [bind]. fold active.
    rewrite ducking_curve_short_flags by lia. reflexivity.
Qed.

End SidechainShape.

Lemma sidechain_returns_attenuated_track_witness :
  @_apply_sidechain sample_ext [1; 1; 1] [1; 1] SAMPLE_RATE = Raise IndexError.
Proof.
  apply (proj2 (@sidechain_returns_attenuated_track sample_ext [1; 1; 1] [1; 1])).
  simpl. lia.
Defined.
(** ** Matching lengths, and a silent mix *)

(** After the length match both buffers have the length of the longer one;
    each still starts with its own samples and the added tail is zero. *)
Theorem match_lengths_pads_the_shorter (vocals background_music : list Q) :
  exists v b,
    match_lengths vocals background_music = Ok (v, b) /\
    length v = Nat.max (length vocals) (length background_music) /\
    length b = Nat.max (length vocals) (length background_music) /\
    v = vocals ++ zeros (length background_music - length vocals) /\
    b = background_music ++ zeros (length vocals - length background_music).
Proof.
  unfold match_lengths, len, np_pad_right.
  destruct (Z.ltb_spec (Z.of_nat (length vocals))
              (Z.of_nat (length background_music))) as [Hlt|Hge].
  - destruct (Z.ltb_spec (Z.of_nat (length background_music)
                          - Z.of_nat (length vocals)) 0); [lia|].
    cbn [bind]. eexists. eexists. split; [reflexivity|].
    replace (Z.to_nat (Z.of_nat (length background_music)
                       - Z.of_nat (length vocals)))
      with (length background_music - length vocals)%nat by lia.
    replace (length vocals - length background_music)%nat with 0%nat by lia.
    rewrite length_app, zeros_length. simpl. rewrite app_nil_r.
    repeat split; lia.
  - destruct (Z.ltb_spec (Z.of_nat (length background_music))
                (Z.of_nat (length vocals))) as [Hlt|Heq].
    + destruct (Z.ltb_spec (Z.of_nat (length vocals)
                            - Z.of_nat (length background_music)) 0); [lia|].
      cbn [bind]. eexists. eexists. split; [reflexivity|].
      replace (Z.to_nat (Z.of_nat (length vocals)
                         - Z.of_nat (length background_music)))
        with (length vocals - length background_music)%nat by lia.
      replace (length background_music - length vocals)%nat with 0%nat by lia.
      rewrite length_app, zeros_length. simpl. rewrite app_nil_r.
      repeat split; lia.
    + eexists. eexists. split; [reflexivity|].
      replace (length vocals - length background_music)%nat with 0%nat by lia.
      replace (length background_music - length vocals)%nat with 0%nat by lia.
      simpl. rewrite !app_nil_r. repeat split; lia.
Qed.

Lemma peak_from_zero (a : list Q) (m : Q) :
  m == 0 -> Forall (fun x => x == 0) a -> peak_from m a == 0.
Proof.
  intros Hm Ha. revert m Hm.
  induction Ha as [|x a Hx _ IH]; intros m Hm; simpl; [exact Hm|].
  apply IH. rewrite Hm, Hx. reflexivity.
Qed.

Lemma py_int_zero (x : Q) : x == 0 -> py_int x = 0%Z.
Proof.
  intros H. unfold Qeq in H. simpl in H. rewrite Z.mul_1_r in H.
  unfold py_int. rewrite H. reflexivity.
Qed.

Lemma clip_of_zero (x : Q) : x == 0 -> Qmin (Qmax x (-1)) 1 == 0.
Proof.
  intros H. rewrite H. reflexivity.
Qed.

(** A mix that is zero everywhere is not divided by its peak: it is
    quantised to as many zero samples.  An empty mix has no peak, and the
    normalisation raises [ValueError]. *)
Theorem silent_mix_quantises_to_zeros (mixed : list Q) :
  (mixed <> [] -> Forall (fun x => x == 0) mixed ->
   normalize_to_pcm mixed = Ok (repeat 0%Z (length mixed))) /\
  normalize_to_pcm [] = Raise ValueError.
Proof.
  split; [|reflexivity].
  intros Hne Hz. unfold normalize_to_pcm.
  destruct mixed as [|x rest]; [congruence|].
  cbn [np_max_abs bind].
  assert (Hp : peak_from (Qabs x) rest == 0).
  { inversion Hz; subst. apply peak_from_zero; [|assumption].
    rewrite H1. reflexivity. }
  fold (peak_from (Qabs x) rest).
  assert (Hb : Qltb 0 (peak_from (Qabs x) rest) = false).
  { apply Qltb_ge. rewrite Hp. apply Qle_refl. }
  rewrite Hb. f_equal. unfold np_clip. rewrite map_map.
  generalize (x :: rest) Hz. clear.
  induction 1 as [|y l Hy _ IH]; simpl; [reflexivity|].
  f_equal; [|exact IH].
  assert (Hq : py_int (Qmin (Qmax y (-1)) 1 * 32767) = 0%Z).
  { apply py_int_zero. rewrite (clip_of_zero y Hy). reflexivity. }
  rewrite np_int16_in_range; [exact Hq | rewrite Hq; simpl; lia].
Qed.

Lemma silent_mix_quantises_to_zeros_witness :
  normalize_to_pcm [0; 0 # 5; 0] = Ok [0%Z; 0%Z; 0%Z].
Proof.
  apply (proj1 (silent_mix_quantises_to_zeros [0; 0 # 5; 0])).
  - discriminate.
  - repeat constructor.
Defined.
(** ** What the vocal stage writes *)

Lemma peak_from_nonneg (a : list Q) (m : Q) : 0 <= m -> 0 <= peak_from m a.
Proof.
  intros H. eapply Qle_trans; [exact H | apply peak_from_upper].
Qed.

Lemma normalised_below_one (y : list Q) (peak : Q) :
  np_max_abs y = Ok peak ->
  Forall (fun x => Qabs x < 1) (vdiv y (peak + (1 # 100))).
Proof.
  intros Hp.
  assert (H0 : 0 <= peak).
  { destruct y as [|x rest]; [discriminate|]. simpl in Hp. inversion Hp.
    apply (peak_from_nonneg rest (Qabs x)). apply Qabs_nonneg. }
  pose proof (np_max_abs_upper y peak Hp) as Hup.
  unfold vdiv. apply Forall_forall. intros z Hz.
  apply in_map_iff in Hz as (x & <- & Hx).
  rewrite Forall_forall in Hup. specialize (Hup x Hx).
  unfold Qdiv. rewrite Qabs_Qmult.
  assert (Hpos : 0 < peak + (1 # 100)) by lra.
  rewrite (Qabs_pos (/ (peak + (1 # 100))))
    by (apply Qlt_le_weak, Qinv_lt_0_compat, Hpos).
  apply Qlt_shift_div_r; [exact Hpos|]. lra.
Qed.

Section VocalOutput.

Context {ext : Externals}.

(** When [apply_vocal_effects] returns [True], what it has written over the
    input path is the output of the effects chain divided by its peak plus
    0.01: the loaded waveform went through the timing transform, the pitch
    shift, the vibrato and the effects chain, [sf.write] received that
    buffer divided by [np.max(np.abs(...)) + 0.01] and left the files as
    they are afterwards, and every sample it received is strictly below
    full scale in magnitude. *)
Theorem vocal_written_below_full_scale (audio_path : string)
  (mood : option string) (w w' : world ext) :
  apply_vocal_effects audio_path mood w = (Ok true, w') ->
  exists (y : list Q) (sr : Z) (y1 : list Q) (w1 : world ext) (shift : Q)
         (y_shifted y_effected : list Q) (peak : Q),
    librosa_load (files w) audio_path SAMPLE_RATE = Ok (y, sr) /\
    _apply_singing_timing y sr w = (Ok y1, w1) /\
    semitones_shift mood = Ok shift /\
    pitch_shift y1 sr shift = Ok y_shifted /\
    run_board vocal_board (add_vibrato y_shifted sr) sr = Ok y_effected /\
    np_max_abs y_effected = Ok peak /\
    sf_write (files w) audio_path (vdiv y_effected (peak + (1 # 100))) sr
      = (Ok tt, files w') /\
    Forall (fun x => Qabs x < 1) (vdiv y_effected (peak + (1 # 100))).
Proof.
  intros H.
  destruct (vocal_effects_true_run audio_path mood w w' H)
    as (y & sr & y1 & w1 & shift & y_shifted & y_effected & peak
        & Hl & Ht & Hs & Hp & Hb & Hm & Hw).
  exists y, sr, y1, w1, shift, y_shifted, y_effected, peak.
  repeat (split; [assumption|]).
  now apply normalised_below_one.
Qed.

End VocalOutput.

Lemma sample_vocal_run :
  fst (@apply_vocal_effects sample_ext "vocal.wav" (Some "calm"%string)
         (world_seeded two_byte_vocal 0)) = Ok true.
Proof. vm_compute. reflexivity. Qed.

Lemma vocal_written_below_full_scale_witness :
  exists (y : list Q) (sr : Z) (y1 : list Q) (w1 : world sample_ext)
         (shift : Q) (y_shifted y_effected : list Q) (peak : Q),
    @librosa_load sample_ext two_byte_vocal "vocal.wav" SAMPLE_RATE
      = Ok (y, sr) /\
    @_apply_singing_timing sample_ext y sr (world_seeded two_byte_vocal 0)
      = (Ok y1, w1) /\
    @semitones_shift sample_ext (Some "calm"%string) = Ok shift /\
    @pitch_shift sample_ext y1 sr shift = Ok y_shifted /\
    @run_board sample_ext vocal_board (@add_vibrato sample_ext y_shifted sr) sr
      = Ok y_effected /\
    np_max_abs y_effected = Ok peak /\
    @sf_write sample_ext two_byte_vocal "vocal.wav"
       (vdiv y_effected (peak + (1 # 100))) sr
      = (Ok tt,
         files (snd (@apply_vocal_effects sample_ext "vocal.wav"
                       (Some "calm"%string) (world_seeded two_byte_vocal 0)))) /\
    Forall (fun x => Qabs x < 1) (vdiv y_effected (peak + (1 # 100))).
Proof.
  apply (@vocal_written_below_full_scale sample_ext "vocal.wav"
           (Some "calm"%string) (world_seeded two_byte_vocal 0)).
  rewrite <- sample_vocal_run. apply surjective_pairing.
Defined.

(** ** Windows of the timing transform *)

Lemma get_slice_chunk {A : Type} (y : list A) (i l : Z) :
  (0 <= i <= len y)%Z -> (0 <= l)%Z ->
  get_slice y (Some i) (Some (i + l)%Z)
    = firstn (Z.to_nat l) (skipn (Z.to_nat i) y).
Proof.
  intros Hi Hl. unfold get_slice, slice_bounds, norm_index, len in *.
  destruct (Z.ltb_spec i 0); [lia|]. destruct (Z.ltb_spec (i + l) 0); [lia|].
  rewrite (Z.min_l i) by lia.
  destruct (Z.le_ge_cases (i + l) (Z.of_nat (length y))) as [Hin|Hout].
  - rewrite Z.min_l by lia. f_equal. lia.
  - rewrite Z.min_r by lia.
    rewrite !firstn_all2; try reflexivity; rewrite length_skipn; lia.
Qed.

Lemma firstn_add {A : Type} (a b : nat) (l : list A) :
  firstn (a + b) l = firstn a l ++ firstn b (skipn a l).
Proof.
  revert l; induction a as [|a IH]; intros l; [reflexivity|].
  destruct l as [|x l]; simpl.
  - now rewrite firstn_nil.
  - f_equal. apply IH.
Qed.

Lemma chunks_concat {A : Type} (y : list A) (l c : nat) :
  concat (map (fun k => firstn l (skipn (k * l) y)) (seq 0 c))
    = firstn (c * l) y.
Proof.
  induction c as [|c IH]; [reflexivity|].
  rewrite seq_S, map_app, concat_app, IH. simpl.
  rewrite app_nil_r. replace (l + c * l)%nat with (c * l + l)%nat by lia.
  now rewrite firstn_add.
Qed.

Lemma windows_cover (y : list Q) (l : Z) (starts : list Z) :
  py_range 0 (len y) l = Ok starts ->
  y <> [] ->
  starts = [] \/
  concat (map (fun i => get_slice y (Some i) (Some (i + l)%Z)) starts) = y.
Proof.
  unfold py_range. destruct (Z.eqb_spec l 0); [discriminate|].
  destruct (Z.ltb_spec 0 l) as [Hpos|Hneg]; intros H Hne; inversion H; clear H.
  - right. set (c := Z.to_nat ((len y - 0 + l - 1) / l)).
    assert (Hc : (len y <= Z.of_nat c * l)%Z).
    { unfold c. rewrite Z2Nat.id.
      - pose proof (Z.mul_div_le (len y - 0 + l - 1) l Hpos).
        pose proof (Z.mod_pos_bound (len y - 0 + l - 1) l Hpos).
        pose proof (Z.div_mod (len y - 0 + l - 1) l). lia.
      - apply Z.div_pos; unfold len; lia. }
    assert (Hin : forall k, In k (seq 0 c) -> (Z.of_nat k * l < len y)%Z).
    { intros k Hk. apply in_seq in Hk. unfold c in Hk.
      assert (Hk' : (Z.of_nat k + 1 <= (len y - 0 + l - 1) / l)%Z).
      { destruct ((len y - 0 + l - 1) / l)%Z; lia. }
      pose proof (Z.mul_div_le (len y - 0 + l - 1) l Hpos). nia. }
    rewrite map_map.
    rewrite (map_ext_in _ (fun k => firstn (Z.to_nat l)
                                      (skipn (k * Z.to_nat l) y))).
    + rewrite chunks_concat. apply firstn_all2. unfold len in *. nia.
    + intros k Hk. specialize (Hin k Hk).
      destruct (Z.le_ge_cases (0 + Z.of_nat k * l) (len y)) as [Hle|Hgt].
      * rewrite get_slice_chunk by lia. do 2 f_equal. nia.
      * unfold len in *. lia.
  - left. subst starts.
    match goal with |- context [Z.to_nat ?e] =>
      assert (H0 : (e <= 0)%Z);
      [ assert ((e < 1)%Z); [apply Z.div_lt_upper_bound; unfold len; lia|lia]
      | destruct e; try lia; reflexivity ]
    end.
Qed.

Lemma window_short {A : Type} (y : list A) (i l : Z) :
  (len (get_slice y (Some i) (Some (i + l)%Z)) <= len y)%Z.
Proof.
  unfold len. rewrite get_slice_length.
  pose proof (slice_bounds_le (length y) (Some i) (Some (i + l)%Z)). lia.
Qed.

Lemma window_at_most {A : Type} (y : list A) (i l : Z) :
  (0 <= i)%Z -> (0 <= l)%Z ->
  (len (get_slice y (Some i) (Some (i + l)%Z)) <= l)%Z.
Proof.
  intros Hi Hl. unfold len. rewrite get_slice_length.
  unfold slice_bounds, norm_index; cbn [fst snd].
  destruct (Z.ltb_spec i 0); [lia|]. destruct (Z.ltb_spec (i + l) 0); lia.
Qed.

Section TimingWindows.
Context {ext : Externals}.

(** The windows that lines 45 to 48 cut from a non-empty waveform, for a
    positive window length: they tile the waveform, and none is longer than
    the window length or than the waveform. *)
Lemma timing_windows (y : list Q) (l : Z) (starts : list Z) :
  py_range 0 (len y) l = Ok starts -> (0 < l)%Z -> y <> [] ->
  let segments :=
    map (fun i => get_slice y (Some i) (Some (i + l)%Z)) starts in
  concat segments = y /\ segments <> [] /\
  Forall (fun seg => (len seg <= l)%Z /\ (len seg <= len y)%Z) segments.
Proof.
  intros Hr Hl Hne segments.
  assert (Hcat : concat segments = y).
  { destruct (windows_cover y l starts Hr Hne) as [E|E]; [|exact E].
    exfalso. subst starts. unfold py_range in Hr.
    destruct (Z.eqb_spec l 0); [lia|]. destruct (Z.ltb_spec 0 l); [|lia].
    inversion Hr as [H0]. clear Hr.
    assert (Hc : (1 <= (len y - 0 + l - 1) / l)%Z).
    { apply Z.div_le_lower_bound; [lia|].
      destruct y; [congruence|]. unfold len. simpl length. lia. }
    destruct (Z.to_nat ((len y - 0 + l - 1) / l)) eqn:E; [lia|].
    discriminate. }
  split; [exact Hcat|]. split.
  - intros E. rewrite E in Hcat. simpl in Hcat. congruence.
  - pose proof (py_range_bounds 0 (len y) l starts Hl Hr) as Hb.
    unfold segments. apply Forall_map.
    eapply Forall_impl; [|exact Hb]. intros i Hi. cbv beta in Hi |- *. split.
    + apply window_at_most; lia.
    + apply window_short.
Qed.

(** Lines 52 to 59 on windows that are all shorter than 1000 samples: each
    is appended as it is, and nothing is drawn from the generator. *)
Lemma timing_loop_short (segments : list (list Q)) :
  Forall (fun seg => (len seg < 1000)%Z) segments ->
  forall (acc : list (list Q)) (w : world ext),
  for_each segments
    (fun seg processed =>
       if (len seg <? 1000)%Z then ret (Next (processed ++ [seg]))
       else
         bind_py (random_uniform (75 # 100) (13 # 10)) (fun stretch =>
         bind_py (lift (time_stretch seg stretch)) (fun stretched =>
         ret (Next (processed ++ [stretched])))))
    acc w = (Ok (acc ++ segments), w).
Proof.
  induction 1 as [|seg segments Hs _ IH]; intros acc w.
  - simpl. now rewrite app_nil_r.
  - cbn [for_each]. destruct (Z.ltb_spec (len seg) 1000); [|lia].
    unfold ret at 1. rewrite IH. now rewrite <- app_assoc.
Qed.



(** A waveform whose windows all stay below 1000 samples comes back as it
    went in, with no draw from the generator and no file touched: this is
    the case when the waveform itself is shorter than 1000 samples, or when
    the window length [int(0.3 * sr)] is (sample rates up to 3333 Hz). *)
Theorem timing_keeps_short_windows (y : list Q) (sr : Z) (w : world ext) :
  y <> [] ->
  (0 < py_int ((3 # 10) * inject_Z sr))%Z ->
  (len y < 1000 \/ py_int ((3 # 10) * inject_Z sr) < 1000)%Z ->
  _apply_singing_timing y sr w = (Ok y, w).
Proof.
  intros Hne Hl Hshort. unfold _apply_singing_timing. cbv zeta.
  set (l := py_int ((3 # 10) * inject_Z sr)) in *.
  destruct (py_range 0 (len y) l) as [starts|e] eqn:Hr.
  2:{ unfold py_range in Hr. destruct (Z.eqb_spec l 0); [lia|discriminate]. }
  destruct (timing_windows y l starts Hr Hl Hne) as (Hcat & Hsome & Hall).
  unfold bind_py at 1. unfold lift at 1. cbv beta iota.
  remember (map (fun i => get_slice y (Some i) (Some (i + l)%Z)) starts)
    as segments eqn:Hseg. clear Hseg.
  unfold bind_py. rewrite timing_loop_short.
  - cbn [app]. unfold lift, np_concatenate.
    destruct segments; [congruence|]. now rewrite Hcat.
  - eapply Forall_impl; [|exact Hall]. intros seg [H1 H2]. cbv beta. lia.
Qed.

End TimingWindows.


Lemma timing_keeps_short_windows_witness :
  @_apply_singing_timing sample_ext [1 # 2; -(1 # 4); 0] SAMPLE_RATE
    (world_seeded two_byte_vocal 7)
  = (Ok [1 # 2; -(1 # 4); 0], world_seeded two_byte_vocal 7).
Proof.
  apply (@timing_keeps_short_windows sample_ext [1 # 2; -(1 # 4); 0]
           SAMPLE_RATE (world_seeded two_byte_vocal 7)).
  - discriminate.
  - reflexivity.
  - left. reflexivity.
Defined.

(** ** The stretch factors of a run *)

Section TimingFactors.
Context {ext : Externals}.

(** Lines 52 to 59, for a loop that has returned: every window was either
    kept or replaced by what [time_stretch] returned for a factor in
    [0.75, 1.30]. *)
Lemma timing_loop_processed (segments : list (list Q)) :
  (forall g, 0 <= fst (random_random g) < 1) ->
  forall (done acc : list (list Q)) (w w' : world ext)
         (processed : list (list Q)),
  Forall2 processed_window done acc ->
  for_each segments
    (fun seg processed =>
       if (len seg <? 1000)%Z then ret (Next (processed ++ [seg]))
       else
         bind_py (random_uniform (75 # 100) (13 # 10)) (fun stretch =>
         bind_py (lift (time_stretch seg stretch)) (fun stretched =>
         ret (Next (processed ++ [stretched])))))
    acc w = (Ok processed, w') ->
  Forall2 processed_window (done ++ segments) processed.
Proof.
  intros Hrand.
  induction segments as [|seg segments IH]; intros done acc w w' processed Hacc.
  - cbn [for_each]. unfold ret. intros H. injection H as <- _.
    now rewrite app_nil_r.
  - cbn [for_each].
    replace (done ++ seg :: segments) with ((done ++ [seg]) ++ segments)
      by now rewrite <- app_assoc.
    destruct (Z.ltb_spec (len seg) 1000) as [Hlt|Hge].
    + unfold ret at 1. apply IH. apply Forall2_app; [exact Hacc|].
      constructor; [|constructor]. left. now split.
    + destruct (random_uniform_range w (Hrand _)) as (u & Eu & Hu).
      unfold bind_py at 1.
      destruct (random_uniform (75 # 100) (13 # 10) w) as [r w1] eqn:E.
      simpl in Eu. subst r. unfold bind_py, lift.
      destruct (time_stretch seg u) as [o|e] eqn:Eo; [|discriminate].
      unfold ret at 1. apply IH. apply Forall2_app; [exact Hacc|].
      constructor; [|constructor]. right. split; [lia|]. now exists u.
Qed.

(** C6, as the code has it.  The transform has no parameter for a random
    source: it draws from the generator of the [random] module.  Two runs
    on the same waveform and sample rate that start from the same state of
    that generator return the same result and leave the same state,
    whatever else differs in the process.  With [random.random()] in
    [0, 1), whatever a run returns is the concatenation of its processed
    windows: the windows tile the input, and each is either kept as it is
    (shorter than 1000 samples) or replaced by its time-stretch at a factor
    in [0.75, 1.30]. *)
Theorem C6_timing_reproducible_from_generator_state
  (y : list Q) (sr : Z) (w1 w2 : world ext) :
  random_state w1 = random_state w2 ->
  fst (_apply_singing_timing y sr w1) = fst (_apply_singing_timing y sr w2) /\
  random_state (snd (_apply_singing_timing y sr w1))
    = random_state (snd (_apply_singing_timing y sr w2)) /\
  ((forall g, 0 <= fst (random_random g) < 1) ->
   forall out w',
     _apply_singing_timing y sr w1 = (Ok out, w') ->
     exists segments processed : list (list Q),
       concat segments = y /\
       Forall2 processed_window segments processed /\
       out = concat processed).
Proof.
  intros H. destruct (timing_random_only y sr w1 w2 H) as [H1 H2].
  split; [exact H1|]. split; [exact H2|].
  intros Hrand out w' Hrun.
  destruct y as [|y0 rest] eqn:Ey.
  { rewrite timing_rejects_empty in Hrun. discriminate. }
  rewrite <- Ey in *. assert (Hne : y <> []) by (rewrite Ey; discriminate).
  clear Ey.
  unfold _apply_singing_timing in Hrun. cbv zeta in Hrun.
  set (l := py_int ((3 # 10) * inject_Z sr)) in *.
  unfold bind_py at 1 in Hrun. unfold lift at 1 in Hrun.
  destruct (py_range 0 (len y) l) as [starts|e] eqn:Hr; [|discriminate].
  remember (map (fun i => get_slice y (Some i) (Some (i + l)%Z)) starts)
    as segments eqn:Hseg.
  unfold bind_py in Hrun.
  destruct (for_each segments _ [] w1) as [[processed|e] w3] eqn:Eloop;
    [|discriminate].
  unfold lift, np_concatenate in Hrun.
  destruct processed as [|p ps]; [discriminate|].
  injection Hrun as <- _.
  pose proof (timing_loop_processed segments Hrand [] [] w1 w3 (p :: ps)
                (Forall2_nil _) Eloop) as Hp.
  cbn [app] in Hp.
  exists segments, (p :: ps). split; [|split; [exact Hp | reflexivity]].
  destruct (windows_cover y l starts Hr Hne) as [E|E].
  - subst starts. cbn [map] in Hseg. subst segments. inversion Hp.
  - now rewrite Hseg.
Qed.

End TimingFactors.

Lemma sample_timing_run :
  is_ok (fst (@_apply_singing_timing sample_ext thousand_samples SAMPLE_RATE
                (world_seeded (fun _ => None) 7))) = true.
Proof. vm_compute. reflexivity. Qed.

Lemma C6_timing_reproducible_witness :
  fst (@_apply_singing_timing sample_ext thousand_samples SAMPLE_RATE
         (world_seeded (fun _ => None) 7))
  = fst (@_apply_singing_timing sample_ext thousand_samples SAMPLE_RATE
           (world_seeded two_byte_vocal 7)) /\
  exists (out : list Q) (segments processed : list (list Q)),
    fst (@_apply_singing_timing sample_ext thousand_samples SAMPLE_RATE
           (world_seeded (fun _ => None) 7)) = Ok out /\
    concat segments = thousand_samples /\
    Forall2 (@processed_window sample_ext) segments processed /\
    out = concat processed.
Proof.
  destruct (@C6_timing_reproducible_from_generator_state sample_ext
              thousand_samples SAMPLE_RATE
              (world_seeded (fun _ => None) 7)
              (world_seeded two_byte_vocal 7) eq_refl)
    as (Hsame & _ & Hshape).
  split; [exact Hsame|].
  pose proof sample_timing_run as Hok.
  destruct (@_apply_singing_timing sample_ext thousand_samples SAMPLE_RATE
              (world_seeded (fun _ => None) 7)) as [[out|e] w'] eqn:Erun;
    [|discriminate Hok].
  destruct (Hshape lcg_unit_interval out w' eq_refl)
    as (segments & processed & Hc & Hw & Ho).
  exists out, segments, processed. split; [reflexivity|].
  split; [exact Hc|]. split; [exact Hw | exact Ho].
Defined.

(** ** The mixer from end to end *)

Section MixerRuns.
Context {ext : Externals}.

(** Loading the vocal never changes the state of the process. *)
Lemma load_vocals_keeps_world (vocal_path : string) (background_music : list Q)
  (w : world ext) :
  snd (load_vocals vocal_path background_music w) = w.
Proof.
  unfold load_vocals. destruct (path_exists (files w) vocal_path); [|reflexivity].
  destruct (wavfile_read (files w) vocal_path) as [[? ?]|]; reflexivity.
Qed.

Lemma match_lengths_total (vocals background_music : list Q) :
  exists v b,
    match_lengths vocals background_music = Ok (v, b) /\
    length v = Nat.max (length vocals) (length background_music) /\
    length b = Nat.max (length vocals) (length background_music).
Proof.
  unfold match_lengths, len, np_pad_right.
  destruct (Z.ltb_spec (Z.of_nat (length vocals))
              (Z.of_nat (length background_music))) as [Hlt|Hge].
  - destruct (Z.ltb_spec (Z.of_nat (length background_music)
                          - Z.of_nat (length vocals)) 0); [lia|].
    cbn [bind]. eexists. eexists. split; [reflexivity|].
    rewrite length_app, zeros_length. lia.
  - destruct (Z.ltb_spec (Z.of_nat (length background_music))
                (Z.of_nat (length vocals))) as [Hlt|Hge'].
    + destruct (Z.ltb_spec (Z.of_nat (length vocals)
                            - Z.of_nat (length background_music)) 0); [lia|].
      cbn [bind]. eexists. eexists. split; [reflexivity|].
      rewrite length_app, zeros_length. lia.
    + eexists. eexists. split; [reflexivity|]. lia.
Qed.

(** Ducking returns a track of the backing track's length whenever the
    vocal is at least as long. *)
Lemma apply_sidechain_total (music vocals : list Q) :
  (length music <= length vocals)%nat ->
  exists ducked,
    _apply_sidechain music vocals SAMPLE_RATE = Ok ducked /\
    length ducked = length music.
Proof.
  intros Hlen.
  destruct (vocal_envelope_total vocals) as (envelope & He & Le).
  set (active := map (fun e => Qltb (1 # 100) e) envelope).
  assert (La : length active = length vocals).
  { unfold active. now rewrite length_map. }
  set (gains := spec_ducking (firstn (length music) active)).
  assert (Lg : length gains = length music).
  { unfold gains. rewrite spec_ducking_length, length_firstn. lia. }
  exists (map2 Qmult music gains). split.
  - apply (apply_sidechain_steps music vocals SAMPLE_RATE envelope gains He);
      [|now symmetry].
    apply ducking_curve_refines. fold active. lia.
  - rewrite map2_length. lia.
Qed.

Lemma normalize_to_pcm_total (mixed : list Q) :
  mixed <> [] ->
  exists pcm, normalize_to_pcm mixed = Ok pcm /\ length pcm = length mixed.
Proof.
  intros Hne. unfold normalize_to_pcm.
  destruct (np_max_abs_defined mixed Hne) as [peak ->]. cbn [bind].
  eexists. split; [reflexivity|].
  unfold np_clip. rewrite !length_map.
  destruct (Qltb 0 peak); [|reflexivity].
  unfold vscale, vdiv. now rewrite !length_map.
Qed.

(** Everything up to the quantisation, for a vocal buffer already loaded:
    with effect boards that return as many samples as they are given, the
    samples to be written are as many as the longer of the two buffers. *)
Lemma mix_stages_total (vocals background_music : list Q) :
  (forall board y sr, exists y',
     run_board board y sr = Ok y' /\ length y' = length y) ->
  (vocals <> [] \/ background_music <> []) ->
  exists v b ducked eq mixed mastered pcm,
    match_lengths vocals background_music = Ok (v, b) /\
    _apply_sidechain b v SAMPLE_RATE = Ok ducked /\
    run_board music_eq ducked SAMPLE_RATE = Ok eq /\
    vadd (vscale v 1) (vscale eq (35 # 100)) = Ok mixed /\
    run_board mastering mixed SAMPLE_RATE = Ok mastered /\
    normalize_to_pcm mastered = Ok pcm /\
    length pcm = Nat.max (length vocals) (length background_music).
Proof.
  intros Hboard Hne.
  destruct (match_lengths_total vocals background_music) as (v & b & Em & Lv & Lb).
  destruct (apply_sidechain_total b v) as (ducked & Ed & Ld); [lia|].
  destruct (Hboard music_eq ducked SAMPLE_RATE) as (eq & Ee & Le).
  assert (Ea : vadd (vscale v 1) (vscale eq (35 # 100))
               = Ok (map2 Qplus (vscale v 1) (vscale eq (35 # 100)))).
  { apply binop_same_length. unfold vscale. rewrite !length_map. lia. }
  set (mixed := map2 Qplus (vscale v 1) (vscale eq (35 # 100))) in *.
  assert (Lm : length mixed = length v).
  { unfold mixed, vscale. rewrite map2_length, !length_map. lia. }
  destruct (Hboard mastering mixed SAMPLE_RATE) as (mastered & Es & Ls).
  destruct (normalize_to_pcm_total mastered) as (pcm & Ep & Lp).
  { assert (Hpos : (0 < Nat.max (length vocals) (length background_music))%nat).
    { destruct Hne as [H|H]; [destruct vocals|destruct background_music];
        try congruence; cbn [length]; lia. }
    intros E. rewrite E in Ls. cbn [length] in Ls. lia. }
  exists v, b, ducked, eq, mixed, mastered, pcm.
  repeat (split; [assumption|]). lia.
Qed.

(** The mixer from its loaded vocal to the written file. *)
Lemma mix_and_master_runs (vocal_path output_path : string)
  (background_music vocals : list Q) (w : world ext) :
  load_vocals vocal_path background_music w = (Ok vocals, w) ->
  (vocals <> [] \/ background_music <> []) ->
  (forall board y sr, exists y',
     run_board board y sr = Ok y' /\ length y' = length y) ->
  (forall f path sr data, fst (wavfile_write f path sr data) = Ok tt) ->
  exists pcm w',
    mix_and_master vocal_path background_music output_path w
      = (Ok output_path, w') /\
    files w' = snd (wavfile_write (files w) output_path SAMPLE_RATE pcm) /\
    length pcm = Nat.max (length vocals) (length background_music) /\
    Forall (fun z => (- 32767 <= z <= 32767)%Z) pcm /\
    random_state w' = random_state w /\
    np_random_state w' = np_random_state w.
Proof.
  intros Hload Hne Hboard Hwrite.
  destruct (mix_stages_total vocals background_music Hboard Hne)
    as (v & b & ducked & eq & mixed & mastered & pcm
        & Em & Ed & Ee & Ea & Es & Ep & Lp).
  exists pcm.
  unfold mix_and_master, bind_py. rewrite Hload. unfold lift at 1. rewrite Em.
  unfold lift at 1. rewrite Ed. unfold lift at 1. rewrite Ee.
  unfold lift at 1. rewrite Ea. unfold lift at 1. rewrite Es.
  unfold lift at 1. rewrite Ep. unfold write_wav, ret.
  specialize (Hwrite (files w) output_path SAMPLE_RATE pcm).
  destruct (wavfile_write (files w) output_path SAMPLE_RATE pcm) as [r f].
  simpl in Hwrite. subst r.
  eexists. split; [reflexivity|]. cbn [files random_state np_random_state snd].
  split; [reflexivity|]. split; [exact Lp|].
  split; [exact (normalize_to_pcm_full_scale mastered pcm Ep)|].
  split; reflexivity.
Qed.

(** [mix_and_master] returns the output path once it has written the mix.
    When the vocal file is absent or readable, the two buffers are not both
    empty, the effect boards return as many samples as they are given and
    [wavfile.write] does not raise: the call returns [output_path], what is
    on disk is what [wavfile.write] left for some [pcm], [pcm] has as many
    samples as the longer of the vocal and the backing track, each within
    the 16-bit range, and neither random generator is touched. *)
Theorem mixer_writes_and_returns_path (vocal_path output_path : string)
  (background_music vocals : list Q) (w : world ext) :
  load_vocals vocal_path background_music w = (Ok vocals, w) ->
  (vocals <> [] \/ background_music <> []) ->
  (forall board y sr, exists y',
     run_board board y sr = Ok y' /\ length y' = length y) ->
  (forall f path sr data, fst (wavfile_write f path sr data) = Ok tt) ->
  exists pcm w',
    mix_and_master vocal_path background_music output_path w
      = (Ok output_path, w') /\
    files w' = snd (wavfile_write (files w) output_path SAMPLE_RATE pcm) /\
    length pcm = Nat.max (length vocals) (length background_music) /\
    Forall (fun z => (- 32767 <= z <= 32767)%Z) pcm /\
    random_state w' = random_state w /\
    np_random_state w' = np_random_state w.
Proof.
  intros Hload Hne Hboard Hwrite.
  exact (mix_and_master_runs vocal_path output_path background_music vocals w
           Hload Hne Hboard Hwrite).
Qed.

(** With no vocal file and an empty backing track there is nothing to
    normalise: [np.max] of the empty mix raises [ValueError], and the call
    ends before [wavfile.write], with every file and both generators as they
    were. *)
Theorem mixer_rejects_empty_tracks (vocal_path output_path : string)
  (w : world ext) :
  files w vocal_path = None ->
  (forall board y sr, exists y',
     run_board board y sr = Ok y' /\ length y' = length y) ->
  mix_and_master vocal_path [] output_path w = (Raise ValueError, w).
Proof.
  intros Habsent Hboard.
  unfold mix_and_master, bind_py, load_vocals, path_exists. rewrite Habsent.
  cbn [length zeros repeat]. unfold lift at 1.
  change (match_lengths [] []) with (Ok (@nil Q, @nil Q)).
  destruct (apply_sidechain_total [] []) as (ducked & Ed & Ld); [simpl; lia|].
  unfold lift at 1. rewrite Ed.
  destruct ducked; [|discriminate].
  destruct (Hboard music_eq [] SAMPLE_RATE) as (eq & Ee & Le).
  destruct eq; [|discriminate].
  unfold lift at 1. rewrite Ee. unfold lift at 1.
  change (vadd (vscale [] 1) (vscale [] (35 # 100))) with (Ok (@nil Q)).
  destruct (Hboard mastering [] SAMPLE_RATE) as (mastered & Es & Ls).
  destruct mastered; [|discriminate].
  unfold lift at 1. rewrite Es. reflexivity.
Qed.

End MixerRuns.

Lemma sample_load_absent :
  @load_vocals sample_ext "vocal.wav" [1 # 2; 1 # 4]
     (world_seeded (fun _ => None) 0)
  = (Ok [0; 0], world_seeded (fun _ => None) 0).
Proof. reflexivity. Qed.

Lemma mixer_writes_and_returns_path_witness :
  exists (pcm : list Z) w',
    @mix_and_master sample_ext "vocal.wav" [1 # 2; 1 # 4] "out.wav"
       (world_seeded (fun _ => None) 0) = (Ok "out.wav"%string, w') /\
    length pcm = 2%nat.
Proof.
  destruct (@mixer_writes_and_returns_path sample_ext "vocal.wav" "out.wav"
              [1 # 2; 1 # 4] [0; 0] (world_seeded (fun _ => None) 0)
              sample_load_absent)
    as (pcm & w' & Hrun & _ & Hlen & _).
  - right. discriminate.
  - intros board y sr. exists y. split; reflexivity.
  - intros f path sr data. reflexivity.
  - exists pcm, w'. split; [exact Hrun | exact Hlen].
Defined.

Lemma mixer_rejects_empty_tracks_witness :
  @mix_and_master sample_ext "vocal.wav" [] "out.wav"
     (world_seeded (fun _ => None) 0)
  = (Raise ValueError, world_seeded (fun _ => None) 0).
Proof.
  apply (@mixer_rejects_empty_tracks sample_ext "vocal.wav" "out.wav"
           (world_seeded (fun _ => None) 0)).
  - reflexivity.
  - intros board y sr. exists y. split; reflexivity.
Defined.

(** ** Arguments the backing-track generator refuses *)

Section BackingTrackErrors.
Context {ext : Externals}.

(** Two calls that end before anything is generated.  A duration whose
    sample count [int(sr * duration_s)] is negative is refused by
    [np.linspace] with [ValueError]; with a sample count that is not
    negative, a tempo of zero makes [60.0 / tempo_bpm] raise
    [ZeroDivisionError].  Neither call draws from a generator or touches a
    file. *)
Theorem backing_track_refuses_bad_arguments (duration_s : Q) (tempo_bpm : Z)
  (mood : option string) (w : world ext) :
  ((py_int (inject_Z SAMPLE_RATE * duration_s) < 0)%Z ->
   generate_background_music duration_s tempo_bpm mood w
     = (Raise ValueError, w)) /\
  ((0 <= py_int (inject_Z SAMPLE_RATE * duration_s))%Z ->
   generate_background_music duration_s 0 mood w
     = (Raise ZeroDivisionError, w)).
Proof.
  split; intros Hn; unfold generate_background_music; cbv zeta;
    unfold bind_py at 1; unfold lift at 1.
  - now rewrite np_linspace_negative.
  - unfold np_linspace.
    destruct (Z.ltb_spec (py_int (inject_Z SAMPLE_RATE * duration_s)) 0); [lia|].
    destruct (py_int (inject_Z SAMPLE_RATE * duration_s) =? 1)%Z; reflexivity.
Qed.

End BackingTrackErrors.

Lemma backing_track_refuses_bad_arguments_witness :
  @generate_background_music sample_ext (-1) 120 (Some "happy"%string)
     (world_seeded two_byte_vocal 3)
    = (Raise ValueError, world_seeded two_byte_vocal 3) /\
  @generate_background_music sample_ext 4 0 (Some "happy"%string)
     (world_seeded two_byte_vocal 3)
    = (Raise ZeroDivisionError, world_seeded two_byte_vocal 3).
Proof.
  split.
  - apply (proj1 (@backing_track_refuses_bad_arguments sample_ext (-1) 120
                    (Some "happy"%string) (world_seeded two_byte_vocal 3))).
    reflexivity.
  - apply (proj2 (@backing_track_refuses_bad_arguments sample_ext 4 0
                    (Some "happy"%string) (world_seeded two_byte_vocal 3))).
    discriminate.
Defined.

(** ** The fades of the backing track *)

Lemma splice_nth_after {A : Type} (a v : list A) (lo m i : nat) :
  (lo <= length a)%nat -> length v = m -> (lo + m <= i)%nat ->
  nth_error (splice a lo m v) i = nth_error a i.
Proof.
  intros Hlo Hv Hi. unfold splice.
  rewrite nth_error_app2 by (rewrite length_firstn; lia).
  rewrite length_firstn.
  rewrite nth_error_app2 by lia.
  rewrite nth_error_skipn. f_equal. lia.
Qed.

Lemma iop_slice_result (op : Q -> Q -> Q) (a v : list Q)
  (start stop : option Z) (lo hi : nat) :
  slice_bounds (length a) start stop = (lo, hi) ->
  length v = (hi - lo)%nat ->
  iop_slice op a start stop v
    = Ok (splice a lo (hi - lo) (map2 op (firstn (hi - lo) (skipn lo a)) v)).
Proof.
  intros Hb Hv. unfold iop_slice, get_slice. rewrite Hb.
  now rewrite broadcast_to_same.
Qed.

(** Lines 261 to 265 for a fade of [k] samples on a track longer than
    [2 * k]: the track keeps its length, its first and its last sample
    become zero, and every sample between the two ramps is left as it
    was. *)
Lemma fade_ends (music : list Q) (k : Z) :
  (1 < k)%Z -> (2 * k < len music)%Z ->
  exists faded,
    (fade_in <- np_linspace 0 1 k ;;
     music' <- iop_slice Qmult music None (Some k) fade_in ;;
     fade_out <- np_linspace 1 0 k ;;
     iop_slice Qmult music' (Some (- k)%Z) None fade_out)%py = Ok faded /\
    length faded = length music /\
    (exists x, nth_error faded 0 = Some x /\ x == 0) /\
    (exists x, nth_error faded (length music - 1) = Some x /\ x == 0) /\
    (forall i, (Z.to_nat k <= i < length music - Z.to_nat k)%nat ->
               nth_error faded i = nth_error music i).
Proof.
  intros Hk Hlen. unfold len in Hlen.
  set (n := length music) in *. set (kn := Z.to_nat k).
  assert (Hkn : (1 < kn /\ 2 * kn < n)%nat) by (unfold kn; lia).
  destruct (np_linspace_nth 0 1 k 0) as (fin & Ein & Lin & Nin); [lia|lia|].
  destruct (np_linspace_nth 1 0 k (kn - 1)) as (fout & Eout & Lout & Nout);
    [lia | unfold kn; lia |].
  fold kn in Lin, Lout.
  rewrite Ein. cbn [bind].
  rewrite (iop_slice_result Qmult music fin None (Some k) 0 kn);
    [|apply slice_bounds_prefix; fold n; lia | lia].
  cbn [bind]. rewrite Eout. cbn [bind].
  replace (kn - 0)%nat with kn by lia. cbn [skipn].
  set (v1 := map2 Qmult (firstn kn music) fin).
  assert (Lv1 : length v1 = kn).
  { unfold v1. rewrite map2_length, length_firstn. fold n. lia. }
  set (m1 := splice music 0 kn v1).
  assert (Lm1 : length m1 = n).
  { unfold m1. apply splice_length; [fold n; lia | exact Lv1]. }
  rewrite (iop_slice_result Qmult m1 fout (Some (- k)%Z) None (n - kn) n);
    [| rewrite Lm1; apply slice_bounds_suffix; lia | lia].
  replace (n - (n - kn))%nat with kn by lia.
  set (v2 := map2 Qmult (firstn kn (skipn (n - kn) m1)) fout).
  assert (Lv2 : length v2 = kn).
  { unfold v2. rewrite map2_length, length_firstn, length_skipn. lia. }
  eexists. split; [reflexivity|]. split; [|split; [|split]].
  - rewrite splice_length; [exact Lm1 | lia | exact Lv2].
  - (* the first sample *)
    destruct music as [|x0 rest] eqn:Em; [simpl in n; lia|].
    exists (x0 * (inject_Z (Z.of_nat 0) * ((1 - 0) / inject_Z (k - 1)) + 0)).
    split.
    + rewrite splice_nth_before by lia.
      unfold m1. change 0%nat with (0 + 0)%nat at 2.
      rewrite splice_nth_inside; [|simpl; lia | lia].
      unfold v1. apply nth_error_map2; [|exact Nin].
      destruct kn; [lia|]. reflexivity.
    + change (inject_Z (Z.of_nat 0)) with 0. ring.
  - (* the last sample *)
    destruct (nth_error m1 (n - 1)) as [y|] eqn:Ey.
    2:{ apply nth_error_None in Ey. lia. }
    exists (y * (inject_Z (Z.of_nat (kn - 1)) * ((0 - 1) / inject_Z (k - 1)) + 1)).
    split.
    + replace (n - 1)%nat with ((n - kn) + (kn - 1))%nat by lia.
      rewrite splice_nth_inside; [|lia|lia].
      unfold v2. apply nth_error_map2; [|exact Nout].
      rewrite nth_error_firstn.
      destruct (Nat.ltb_spec (kn - 1) kn); [|lia].
      rewrite nth_error_skipn.
      replace (n - kn + (kn - 1))%nat with (n - 1)%nat by lia. exact Ey.
    + replace (Z.of_nat (kn - 1)) with (k - 1)%Z by (unfold kn; lia).
      assert (Hnz : ~ inject_Z (k - 1) == 0).
      { intros E. unfold Qeq in E. cbn [Qnum Qden inject_Z] in E. lia. }
      field. exact Hnz.
  - intros i Hi.
    rewrite splice_nth_before by lia.
    unfold m1. apply splice_nth_after; [lia | exact Lv1 | lia].
Qed.

Section BackingTrackFades.
Context {ext : Externals}.

Lemma bind_py_ok {A B : Type} (c : py ext A) (k : A -> py ext B)
  (w w' : world ext) (b : B) :
  bind_py c k w = (Ok b, w') ->
  exists a w1, c w = (Ok a, w1) /\ k a w1 = (Ok b, w').
Proof.
  unfold bind_py. destruct (c w) as [[a|e] w1]; [|discriminate].
  intros H. now exists a, w1.
Qed.

(** Whatever [generate_background_music] returns has been through the last
    statement of the function: the fades, or nothing for a bus output of
    3 s or less. *)
Lemma generate_background_music_last_step (duration_s : Q) (tempo_bpm : Z)
  (mood : option string) (w w' : world ext) (music : list Q) :
  generate_background_music duration_s tempo_bpm mood w = (Ok music, w') ->
  exists bus,
    (if (2 * py_int (inject_Z SAMPLE_RATE * (15 # 10)) <? len bus)%Z
     then
       (fade_in <- np_linspace 0 1 (py_int (inject_Z SAMPLE_RATE * (15 # 10))) ;;
        music' <- iop_slice Qmult bus None
                    (Some (py_int (inject_Z SAMPLE_RATE * (15 # 10)))) fade_in ;;
        fade_out <- np_linspace 1 0 (py_int (inject_Z SAMPLE_RATE * (15 # 10))) ;;
        iop_slice Qmult music'
          (Some (- py_int (inject_Z SAMPLE_RATE * (15 # 10)))%Z) None fade_out)%py
     else Ok bus) = Ok music.
Proof.
  unfold generate_background_music. cbv zeta. intros H.
  apply bind_py_ok in H as (t & w1 & _ & H).
  apply bind_py_ok in H as (beat & w2 & _ & H).
  destruct (get_melody_freqs_for_mood mood) as [base_freq melody_freqs].
  apply bind_py_ok in H as (melody & w3 & _ & H).
  apply bind_py_ok in H as (per_cycle & w4 & _ & H).
  apply bind_py_ok in H as (melody' & w5 & _ & H).
  apply bind_py_ok in H as (pad & w6 & _ & H).
  apply bind_py_ok in H as (chords & w7 & _ & H).
  apply bind_py_ok in H as (pad' & w8 & _ & H).
  apply bind_py_ok in H as (bass & w9 & _ & H).
  apply bind_py_ok in H as (per_bass & w10 & _ & H).
  apply bind_py_ok in H as (bass_notes & w11 & _ & H).
  apply bind_py_ok in H as (bass' & w12 & _ & H).
  apply bind_py_ok in H as (kick & w13 & _ & H).
  apply bind_py_ok in H as (snare & w14 & _ & H).
  apply bind_py_ok in H as (hihat & w15 & _ & H).
  apply bind_py_ok in H as (beat_times & w16 & _ & H).
  apply bind_py_ok in H as ([[kick' snare'] hihat'] & w17 & _ & H).
  apply bind_py_ok in H as (summed & w18 & _ & H).
  apply bind_py_ok in H as (bus & w19 & _ & H).
  exists bus.
  destruct (2 * py_int (inject_Z SAMPLE_RATE * (15 # 10)) <? len bus)%Z.
  - exact (f_equal fst H).
  - exact (f_equal fst H).
Qed.

(** A backing track of more than 3 s starts and ends in silence: under the
    conditions of the length result (a duration that is not negative, a
    tempo of at most 1200 bpm, a bus that returns as many samples as it is
    given), when [int(44100 * D)] exceeds twice the 66150 samples of a fade,
    the track returned has [int(44100 * D)] samples and its first and last
    samples are zero. *)
Theorem backing_track_starts_and_ends_silent (duration_s : Q) (tempo_bpm : Z)
  (mood : option string) (w : world ext) :
  (forall y, exists y', run_board music_board y SAMPLE_RATE = Ok y' /\
                        length y' = length y) ->
  0 <= duration_s ->
  (0 < tempo_bpm <= 1200)%Z ->
  (132300 < py_int (inject_Z SAMPLE_RATE * duration_s))%Z ->
  returns (generate_background_music duration_s tempo_bpm mood) w
    (fun music =>
       len music = py_int (inject_Z SAMPLE_RATE * duration_s) /\
       (exists x, nth_error music 0 = Some x /\ x == 0) /\
       (exists x, nth_error music (length music - 1) = Some x /\ x == 0)).
Proof.
  intros Hboard HD Htempo Hlong.
  destruct (generate_background_music_returns duration_s tempo_bpm mood w
              Hboard HD Htempo) as (music & w' & E & L).
  exists music, w'. split; [exact E|]. split; [exact L|].
  destruct (generate_background_music_last_step _ _ _ _ _ _ E) as (bus & Hf).
  change (py_int (inject_Z SAMPLE_RATE * (15 # 10))) with 66150%Z in Hf.
  destruct (Z.ltb_spec (2 * 66150) (len bus)) as [Hb|Hb].
  - destruct (fade_ends bus 66150) as (faded & Ef & Lf & H0 & H1 & _);
      [lia | exact Hb |].
    rewrite Ef in Hf. inversion Hf; subst faded. rewrite <- Lf in H1.
    split; assumption.
  - inversion Hf; subst bus. lia.
Qed.

End BackingTrackFades.

Lemma backing_track_starts_and_ends_silent_witness :
  returns (@generate_background_music sample_ext 4 120 (Some "happy"%string))
    (world_seeded two_byte_vocal 3)
    (fun music =>
       len music = py_int (inject_Z SAMPLE_RATE * 4) /\
       (exists x, nth_error music 0 = Some x /\ x == 0) /\
       (exists x, nth_error music (length music - 1) = Some x /\ x == 0)).
Proof.
  apply (@backing_track_starts_and_ends_silent sample_ext 4 120
           (Some "happy"%string) (world_seeded two_byte_vocal 3)).
  - intros y. exists y. split; reflexivity.
  - discriminate.
  - lia.
  - reflexivity.
Defined.

(** ** The vocal envelope is a running maximum *)

Lemma nth_from_nth_error {A : Type} (l1 l2 : list A) (p q : nat) (d : A) :
  nth_error l1 p = nth_error l2 q -> nth p l1 d = nth q l2 d.
Proof.
  intros E. rewrite <- !nth_default_eq. unfold nth_default. now rewrite E.
Qed.

Lemma fill_slice_nth (a : list Q) (lo hi : Z) (x : Q) (q : nat) :
  (0 <= lo <= hi)%Z -> (hi <= len a)%Z ->
  nth q (fill_slice a (Some lo) (Some hi) x) 0
    = if ((Z.to_nat lo <=? q) && (q <? Z.to_nat hi))%nat then x
      else nth q a 0.
Proof.
  intros Hlo Hhi. unfold len in Hhi. unfold fill_slice.
  rewrite slice_bounds_mid by lia.
  set (l := Z.to_nat lo). set (h := Z.to_nat hi).
  assert (Hl : (l <= h /\ h <= length a)%nat) by (unfold l, h; lia).
  destruct (Nat.leb_spec l q) as [H1|H1]; cbn [andb].
  - destruct (Nat.ltb_spec q h) as [H2|H2].
    + replace q with (l + (q - l))%nat at 1 by lia.
      rewrite <- nth_default_eq. unfold nth_default.
      rewrite splice_nth_inside; [|lia | rewrite repeat_length; lia].
      rewrite nth_error_repeat by lia. reflexivity.
    + apply nth_from_nth_error.
      apply splice_nth_after; [lia | apply repeat_length | lia].
  - apply nth_from_nth_error. apply splice_nth_before; lia.
Qed.

Lemma get_item_nth_default (a : list Q) (i : Z) :
  (0 <= i < len a)%Z -> get_item a i = Ok (nth (Z.to_nat i) a 0).
Proof.
  intros Hi. unfold len in Hi.
  destruct (nth_error a (Z.to_nat i)) as [x|] eqn:E;
    [|apply nth_error_None in E; lia].
  rewrite (nth_error_nth _ _ 0 E).
  rewrite <- (Z2Nat.id i) at 1 by lia. now apply get_item_nth.
Qed.

(** Lines 274 to 277 as a loop over the window numbers [a, a + c), for a
    window of [W] samples and a hop of [s < W]: before window [a] the
    envelope never falls over the samples the earlier windows cover, is
    constant over the last of them and zero beyond; the same holds after
    window [a + c - 1]. *)
Lemma envelope_loop (r : Z -> Q) (W s : Z) (n c : nat) :
  (0 < s < W)%Z ->
  forall (a : nat) (env : list Q),
  length env = n ->
  (a + c = 0)%nat \/ (Z.of_nat (a + c - 1) * s + W < Z.of_nat n)%Z ->
  let covered k := match k with
                   | O => O
                   | S k' => Z.to_nat (Z.of_nat k' * s + W)
                   end in
  (forall p q, (p <= q < covered a)%nat -> nth p env 0 <= nth q env 0) ->
  (forall q, (covered a <= q)%nat -> nth q env 0 = 0) ->
  (forall q, (Z.to_nat (Z.of_nat (a - 1) * s) <= q < covered a)%nat ->
             nth q env 0 = nth (Z.to_nat (Z.of_nat (a - 1) * s)) env 0) ->
  exists env',
    for_each_pure (map (fun k => (0 + Z.of_nat k * s)%Z) (seq a c))
      (fun i env =>
         held <- get_item env i ;;
         Ok (fill_slice env (Some i) (Some (i + W)%Z) (py_max held (r i))))%py
      env = Ok env' /\
    length env' = n /\
    (forall p q, (p <= q < covered (a + c))%nat ->
                 nth p env' 0 <= nth q env' 0) /\
    (forall q, (covered (a + c) <= q)%nat -> nth q env' 0 = 0).
Proof.
  intros Hs. induction c as [|c IH]; intros a env Ln Hfit covered Hmono Hzero Hlast.
  - exists env. rewrite Nat.add_0_r. cbn [seq map for_each_pure].
    repeat split; assumption.
  - cbn [seq map for_each_pure].
    assert (Hi : (0 <= Z.of_nat a * s /\ Z.of_nat a * s + W < Z.of_nat n)%Z).
    { destruct Hfit as [Hfit|Hfit]; [lia|]. split; [lia|].
      assert (Z.of_nat a * s <= Z.of_nat (a + S c - 1) * s)%Z by nia. lia. }
    set (i := (0 + Z.of_nat a * s)%Z).
    assert (Ei : i = (Z.of_nat a * s)%Z) by (unfold i; lia).
    rewrite get_item_nth_default by (unfold len; lia). cbn [bind].
    set (held := nth (Z.to_nat i) env 0).
    set (v := py_max held (r i)).
    set (env1 := fill_slice env (Some i) (Some (i + W)%Z) v).
    assert (N1 : forall q, nth q env1 0
                 = if ((Z.to_nat i <=? q) && (q <? Z.to_nat (i + W)))%nat
                   then v else nth q env 0).
    { intros q. apply fill_slice_nth; unfold len; lia. }
    assert (Hcov : (covered a <= Z.to_nat (i + W))%nat).
    { destruct a as [|a']; cbn [covered]; [lia|]. nia. }
    assert (Hheld : forall p, (p < Z.to_nat i)%nat -> nth p env 0 <= held).
    { intros p Hp. destruct a as [|a']; [lia|].
      unfold held. apply Hmono. cbn [covered]. split; [lia|]. nia. }
    destruct (IH (S a) env1) as (env' & E & L' & M' & Z').
    + unfold env1. now rewrite fill_slice_length.
    + right. replace (S a + c - 1)%nat with (a + S c - 1)%nat by lia.
      destruct Hfit as [Hfit|Hfit]; [lia | exact Hfit].
    + cbn [covered]. intros p q Hpq. rewrite !N1.
      replace (Z.of_nat a * s + W)%Z with (i + W)%Z in Hpq by lia.
      destruct (Nat.leb_spec (Z.to_nat i) q) as [Hq|Hq];
        destruct (Nat.ltb_spec q (Z.to_nat (i + W))) as [Hq'|Hq'];
        cbn [andb]; try lia.
      * destruct (Nat.leb_spec (Z.to_nat i) p) as [Hp|Hp];
          destruct (Nat.ltb_spec p (Z.to_nat (i + W))) as [Hp'|Hp'];
          cbn [andb]; try lia.
        -- apply Qle_refl.
        -- apply Qle_trans with held; [now apply Hheld|].
           apply py_max_lower.
      * destruct (Nat.leb_spec (Z.to_nat i) p) as [Hp|Hp]; [lia|].
        cbn [andb]. apply Hmono. destruct a as [|a']; [lia|].
        cbn [covered]. split; [lia|]. nia.
    + cbn [covered]. intros q Hq. rewrite N1.
      replace (Z.of_nat a * s + W)%Z with (i + W)%Z in Hq by lia.
      destruct (Nat.ltb_spec q (Z.to_nat (i + W))) as [Hq'|Hq']; [lia|].
      rewrite andb_false_r. apply Hzero. lia.
    + cbn [covered]. replace (S a - 1)%nat with a by lia.
      intros q Hq. rewrite !N1.
      replace (Z.of_nat a * s + W)%Z with (i + W)%Z in Hq by lia.
      rewrite <- Ei in *.
      destruct (Nat.leb_spec (Z.to_nat i) q); [|lia].
      destruct (Nat.ltb_spec q (Z.to_nat (i + W))); [|lia].
      destruct (Nat.leb_spec (Z.to_nat i) (Z.to_nat i)); [|lia].
      destruct (Nat.ltb_spec (Z.to_nat i) (Z.to_nat (i + W))); [|lia].
      reflexivity.
    + exists env'. split; [exact E|]. split; [exact L'|].
      replace (a + S c)%nat with (S a + c)%nat by lia. split; assumption.
Qed.

Lemma py_range_hop (m : Z) :
  py_range 0 m 1102
    = Ok (map (fun k => (0 + Z.of_nat k * 1102)%Z)
            (seq 0 (Z.to_nat ((m - 0 + 1102 - 1) / 1102)))).
Proof. reflexivity. Qed.

Section EnvelopeLatch.
Context {ext : Externals}.

(** The envelope after the loop of lines 274 to 277. *)
Lemma vocal_envelope_running_max (vocals : list Q) :
  exists (envelope : list Q) (covered : nat),
    vocal_envelope_of vocals SAMPLE_RATE = Ok envelope /\
    length envelope = length vocals /\
    ((len vocals <= 2205)%Z -> covered = 0%nat) /\
    ((2205 < len vocals)%Z ->
     (len vocals - 1102 <= Z.of_nat covered < len vocals)%Z) /\
    (forall p q, (p <= q < covered)%nat ->
                 nth p envelope 0 <= nth q envelope 0) /\
    (forall p q, (p <= q < covered)%nat ->
                 Qltb (1 # 100) (nth p envelope 0) = true ->
                 Qltb (1 # 100) (nth q envelope 0) = true) /\
    (forall q, (covered <= q)%nat -> nth q envelope 0 = 0).
Proof.
  unfold vocal_envelope_of, SAMPLE_RATE. cbv zeta.
  destruct window_constants as [-> ->].
  rewrite py_range_hop. cbn [bind].
  set (n := length vocals).
  set (c := Z.to_nat ((len vocals - 2205 - 0 + 1102 - 1) / 1102)).
  assert (Hc0 : (len vocals <= 2205)%Z -> c = 0%nat).
  { intros Hs. unfold c.
    assert (((len vocals - 2205 - 0 + 1102 - 1) / 1102 < 1)%Z); [|lia].
    apply Z.div_lt_upper_bound; lia. }
  assert (Hc1 : (2205 < len vocals)%Z ->
                (0 < c)%nat /\
                (Z.of_nat (c - 1) * 1102 + 2205 < len vocals)%Z /\
                (len vocals - 2205 <= Z.of_nat c * 1102)%Z).
  { intros Hl.
    pose proof (Z.mul_div_le (len vocals - 2205 - 0 + 1102 - 1) 1102 eq_refl).
    pose proof (Z.mod_pos_bound (len vocals - 2205 - 0 + 1102 - 1) 1102 eq_refl).
    pose proof (Z.div_mod (len vocals - 2205 - 0 + 1102 - 1) 1102).
    assert ((1 <= (len vocals - 2205 - 0 + 1102 - 1) / 1102)%Z).
    { apply Z.div_le_lower_bound; lia. }
    unfold c. lia. }
  destruct (envelope_loop
              (fun i => np_sqrt (np_mean (map (fun x => x * x)
                          (get_slice vocals (Some i) (Some (i + 2205)%Z)))))
              2205 1102 n c ltac:(lia) 0%nat (zeros n))
    as (envelope & E & L & Hmono & Hzero).
  - apply zeros_length.
  - destruct (Z.le_gt_cases (len vocals) 2205) as [Hs|Hl].
    + left. rewrite (Hc0 Hs). reflexivity.
    + right. destruct (Hc1 Hl) as (_ & H & _). exact H.
  - intros p q Hpq. simpl in Hpq. lia.
  - intros q _. unfold zeros. apply nth_repeat.
  - intros q Hq. simpl in Hq. lia.
  - cbn [Nat.add] in Hmono, Hzero.
    exists envelope.
    exists (match c with
            | O => O
            | S k' => Z.to_nat (Z.of_nat k' * 1102 + 2205)
            end).
    split; [exact E|]. split; [exact L|]. split; [|split; [|split; [|split]]].
    + intros Hs. now rewrite (Hc0 Hs).
    + intros Hl. destruct (Hc1 Hl) as (Hpos & Hfit & Hend).
      destruct c as [|k']; [lia|].
      replace (S k' - 1)%nat with k' in Hfit by lia. lia.
    + exact Hmono.
    + intros p q Hpq Hp. apply Qltb_lt in Hp. apply Qltb_lt.
      apply Qlt_le_trans with (nth p envelope 0); [exact Hp|].
      now apply Hmono.
    + exact Hzero.
Qed.


End EnvelopeLatch.

(** ** What the backing-track generator touches *)

Section BackingTrackEffects.
Context {ext : Externals}.

Lemma np_random_only_ret {A : Type} (a : A) : np_random_only (ret a).
Proof. split; [intros w | intros w1 w2 H]; now split. Qed.

Lemma np_random_only_lift {A : Type} (r : result A) : np_random_only (lift r).
Proof. split; [intros w | intros w1 w2 H]; now split. Qed.

Lemma np_random_only_bind {A B : Type} (c : py ext A) (k : A -> py ext B) :
  np_random_only c -> (forall a, np_random_only (k a)) ->
  np_random_only (bind_py c k).
Proof.
  intros [Hc1 Hc2] Hk. split.
  - intros w. unfold bind_py. destruct (Hc1 w) as [Hf Hr].
    destruct (c w) as [[a|e] w1]; simpl in *; [|now split].
    destruct (proj1 (Hk a) w1) as [Hf' Hr']. split; congruence.
  - intros w1 w2 H. unfold bind_py. destruct (Hc2 w1 w2 H) as [H1 H2].
    destruct (c w1) as [r1 v1], (c w2) as [r2 v2]; simpl in *. subst r2.
    destruct r1 as [a|e]; [now apply (proj2 (Hk a)) | now split].
Qed.

Lemma np_random_only_for_each {A S : Type} (xs : list A)
  (body : A -> S -> py ext (step S)) (s : S) :
  (forall x s, np_random_only (body x s)) ->
  np_random_only (for_each xs body s).
Proof.
  intros Hb. revert s; induction xs as [|x xs IH]; intros s.
  - apply np_random_only_ret.
  - split.
    + intros w. cbn [for_each]. destruct (proj1 (Hb x s) w) as [Hf Hr].
      destruct (body x s w) as [[[s1|s1]|e] w1]; simpl in *;
        try (now split).
      destruct (proj1 (IH s1) w1) as [Hf' Hr']. split; congruence.
    + intros w1 w2 H. cbn [for_each].
      destruct (proj2 (Hb x s) w1 w2 H) as [H1 H2].
      destruct (body x s w1) as [r1 v1], (body x s w2) as [r2 v2];
        simpl in *. subst r2.
      destruct r1 as [[s1|s1]|e];
        [now apply (proj2 (IH s1)) | now split | now split].
Qed.

Lemma np_random_only_randn (n : nat) : np_random_only (np_random_randn n).
Proof.
  split.
  - intros w. unfold np_random_randn.
    destruct (randn_from n (np_random_state w)). now split.
  - intros w1 w2 H. unfold np_random_randn. rewrite H.
    destruct (randn_from n (np_random_state w2)). now split.
Qed.

Lemma np_random_only_drum_hit (num_samples bs dur_samples : Z) (dur_s : Q)
  (wave : list Q -> list Q -> result (list Q)) (track : list Q) :
  np_random_only (drum_hit num_samples bs dur_samples dur_s wave track).
Proof.
  unfold drum_hit.
  apply np_random_only_bind; [apply np_random_only_lift|]. intros ts.
  apply np_random_only_bind; [apply np_random_only_randn|]. intros noise.
  apply np_random_only_bind; [apply np_random_only_lift|]. intros hit.
  apply np_random_only_lift.
Qed.

Lemma generate_background_music_np_random_only (duration_s : Q)
  (tempo_bpm : Z) (mood : option string) :
  np_random_only (generate_background_music duration_s tempo_bpm mood).
Proof.
  unfold generate_background_music. cbv zeta.
  apply np_random_only_bind; [apply np_random_only_lift|]. intros t.
  apply np_random_only_bind; [apply np_random_only_lift|]. intros beat.
  destruct (get_melody_freqs_for_mood mood) as [base_freq melody_freqs].
  apply np_random_only_bind; [apply np_random_only_lift|]. intros melody.
  apply np_random_only_bind; [apply np_random_only_lift|]. intros per_cycle.
  apply np_random_only_bind.
  { apply np_random_only_for_each. intros [i freq] m. apply np_random_only_lift. }
  intros melody'.
  apply np_random_only_bind; [apply np_random_only_lift|]. intros pad.
  apply np_random_only_bind; [apply np_random_only_lift|]. intros chords.
  apply np_random_only_bind.
  { apply np_random_only_for_each. intros i m. apply np_random_only_lift. }
  intros pad'.
  apply np_random_only_bind; [apply np_random_only_lift|]. intros bass.
  apply np_random_only_bind; [apply np_random_only_lift|]. intros per_bass.
  apply np_random_only_bind; [apply np_random_only_lift|]. intros bass_notes.
  apply np_random_only_bind.
  { apply np_random_only_for_each. intros i m. apply np_random_only_lift. }
  intros bass'.
  apply np_random_only_bind; [apply np_random_only_lift|]. intros kick.
  apply np_random_only_bind; [apply np_random_only_lift|]. intros snare.
  apply np_random_only_bind; [apply np_random_only_lift|]. intros hihat.
  apply np_random_only_bind; [apply np_random_only_lift|]. intros beat_times.
  apply np_random_only_bind.
  { apply np_random_only_for_each. intros [i bt] [[k s] h].
    apply np_random_only_bind.
    { destruct (_ <? _)%Z;
        [apply np_random_only_drum_hit | apply np_random_only_ret]. }
    intros k'.
    apply np_random_only_bind.
    { destruct (_ && _);
        [apply np_random_only_drum_hit | apply np_random_only_ret]. }
    intros s'.
    apply np_random_only_bind; [|intros; apply np_random_only_ret].
    apply np_random_only_for_each. intros j hh.
    destruct (_ <? _)%Z; [|apply np_random_only_ret].
    apply np_random_only_bind; [apply np_random_only_drum_hit|].
    intros; apply np_random_only_ret. }
  intros [[kick' snare'] hihat'].
  apply np_random_only_bind; [apply np_random_only_lift|]. intros summed.
  apply np_random_only_bind; [apply np_random_only_lift|]. intros bus.
  destruct (_ <? _)%Z; [apply np_random_only_lift | apply np_random_only_ret].
Qed.

(** The backing-track generator touches nothing but the generator of
    [np.random], from which the percussion draws its noise: for every
    duration, tempo and mood it leaves every file and the generator of the
    [random] module as they are, and two runs that start from the same state
    of the [np.random] generator return the same track, or raise the same
    exception, and leave that generator in the same state. *)
Theorem backing_track_depends_on_np_random_only (duration_s : Q)
  (tempo_bpm : Z) (mood : option string) (w1 w2 : world ext) :
  files (snd (generate_background_music duration_s tempo_bpm mood w1))
    = files w1 /\
  random_state (snd (generate_background_music duration_s tempo_bpm mood w1))
    = random_state w1 /\
  (np_random_state w1 = np_random_state w2 ->
   fst (generate_background_music duration_s tempo_bpm mood w1)
     = fst (generate_background_music duration_s tempo_bpm mood w2) /\
   np_random_state (snd (generate_background_music duration_s tempo_bpm mood w1))
     = np_random_state
         (snd (generate_background_music duration_s tempo_bpm mood w2))).
Proof.
  destruct (generate_background_music_np_random_only duration_s tempo_bpm mood)
    as [Hframe Hdet].
  destruct (Hframe w1) as [Hf Hr].
  split; [exact Hf|]. split; [exact Hr|]. apply Hdet.
Qed.

End BackingTrackEffects.

Lemma backing_track_depends_on_np_random_only_witness :
  fst (@generate_background_music sample_ext 4 120 (Some "happy"%string)
         (world_seeded (fun _ => None) 7))
  = fst (@generate_background_music sample_ext 4 120 (Some "happy"%string)
           (world_seeded two_byte_vocal 9)).
Proof.
  exact (proj1 (proj2 (proj2
           (@backing_track_depends_on_np_random_only sample_ext 4 120
              (Some "happy"%string) (world_seeded (fun _ => None) 7)
              (world_seeded two_byte_vocal 9))) eq_refl)).
Defined.

(** ** From the vocal file to the mix *)

Section VocalToMix.
Context {ext : Externals}.

Lemma apply_vocal_effects_returns (audio_path : string) (mood : option string)
  (w : world ext) :
  exists done,
    apply_vocal_effects audio_path mood w
      = (Ok done, snd (apply_vocal_effects audio_path mood w)).
Proof.
  unfold apply_vocal_effects.
  destruct (vocal_effects_body audio_path mood w) as [[b|e] w1];
    eexists; reflexivity.
Qed.

Lemma to_mono_float_length (a : wav_array) :
  len (to_mono_float a) = wav_len a.
Proof.
  unfold len. destruct a as [[|] xs | [|] rows]; cbn [to_mono_float wav_len];
    unfold vdiv, len; now rewrite ?length_map.
Qed.

(** The callers' sequence on a vocal file that can be read back after the
    vocal stage, with [sr > 0] and at least one sample, effect boards that
    return as many samples as they are given and a [wavfile.write] that does
    not raise: the sequence returns [out], and the mix it writes has as many
    samples as the longer of the vocal and the backing track of
    [int(44100 * (len(vocal_data) / sr))] samples, which at [sr = 44100] is
    the length of the vocal. *)
Theorem vocal_to_mix_writes_vocal_length (wav_path genre out : string)
  (mood : option string) (w : world ext) (sr : Z) (vocal_data : wav_array) :
  let w1 := snd (apply_vocal_effects wav_path mood w) in
  files w1 wav_path <> None ->
  wavfile_read (files w1) wav_path = Ok (sr, vocal_data) ->
  (0 < sr)%Z -> (0 < wav_len vocal_data)%Z ->
  (forall board y sr, exists y',
     run_board board y sr = Ok y' /\ length y' = length y) ->
  (forall f path sr data, fst (wavfile_write f path sr data) = Ok tt) ->
  exists pcm w',
    vocal_to_mix wav_path genre mood out w = (Ok out, w') /\
    files w' = snd (wavfile_write (files w1) out SAMPLE_RATE pcm) /\
    len pcm = Z.max (wav_len vocal_data)
                (py_int (inject_Z SAMPLE_RATE
                         * (inject_Z (wav_len vocal_data) / inject_Z sr))) /\
    (sr = SAMPLE_RATE -> len pcm = wav_len vocal_data).
Proof.
  intros w1 Hexists Hread Hsr Hlen Hboard Hwrite.
  destruct (apply_vocal_effects_returns wav_path mood w) as [done Hv].
  fold w1 in Hv.
  set (d := inject_Z (wav_len vocal_data) / inject_Z sr).
  assert (Hsr' : 0 < inject_Z sr).
  { change 0 with (inject_Z 0). now rewrite <- Zlt_Qlt. }
  assert (Hd : 0 <= d).
  { unfold d. apply Qle_shift_div_l; [exact Hsr'|].
    rewrite Qmult_0_l. change 0 with (inject_Z 0). rewrite <- Zle_Qle. lia. }
  pose proof (tempo_in_range genre) as Ht.
  destruct (generate_background_music_returns d (get_tempo_for_genre genre)
              mood w1 (fun y => Hboard music_board y SAMPLE_RATE) Hd
              ltac:(lia)) as (bg & w2 & Eg & Lg).
  assert (Hf2 : files w2 = files w1).
  { pose proof (proj1 (proj1 (generate_background_music_np_random_only
                                d (get_tempo_for_genre genre) mood) w1)) as H.
    now rewrite Eg in H. }
  assert (Hload : load_vocals wav_path bg w2 = (Ok (to_mono_float vocal_data), w2)).
  { unfold load_vocals, path_exists. rewrite Hf2.
    destruct (files w1 wav_path); [|congruence]. now rewrite Hread. }
  assert (Hne : to_mono_float vocal_data <> [] \/ bg <> []).
  { left. intros E. pose proof (to_mono_float_length vocal_data) as L.
    rewrite E in L. cbn in L. lia. }
  destruct (mix_and_master_runs wav_path out bg (to_mono_float vocal_data) w2
              Hload Hne Hboard Hwrite)
    as (pcm & w' & Em & Fm & Lm & _).
  exists pcm, w'. split; [|split; [|split]].
  - unfold vocal_to_mix. unfold bind_py at 1. rewrite Hv.
    unfold bind_py at 1. rewrite Hread. cbv beta iota.
    unfold bind_py at 1. unfold lift at 1. unfold py_div.
    rewrite Qeq_bool_nonzero by (intros E; rewrite E in Hsr'; discriminate).
    fold d. cbv zeta. unfold bind_py at 1. rewrite Eg. exact Em.
  - now rewrite Fm, Hf2.
  - pose proof (to_mono_float_length vocal_data) as L.
    unfold len in *. lia.
  - intros ->. pose proof (to_mono_float_length vocal_data) as L.
    assert (E : py_int (inject_Z SAMPLE_RATE * d) = wav_len vocal_data).
    { apply py_int_of_eq; [lia|]. unfold d, SAMPLE_RATE. field. }
    unfold len in *. lia.
Qed.

End VocalToMix.

Lemma vocal_to_mix_writes_vocal_length_witness :
  exists (pcm : list Z) w',
    @vocal_to_mix sample_ext "vocal.wav" "pop" (Some "calm"%string) "out.wav"
       (world_seeded two_byte_vocal 0) = (Ok "out.wav"%string, w') /\
    len pcm = 2%Z.
Proof.
  destruct (@vocal_to_mix_writes_vocal_length sample_ext "vocal.wav" "pop"
              "out.wav" (Some "calm"%string) (world_seeded two_byte_vocal 0)
              44100 (Wav1D false [0 # 128; 126 # 128]))
    as (pcm & w' & Hrun & _ & _ & Hlen).
  - vm_compute. discriminate.
  - vm_compute. reflexivity.
  - lia.
  - vm_compute. reflexivity.
  - intros board y sr. exists y. split; reflexivity.
  - intros f path sr data. reflexivity.
  - exists pcm, w'. split; [exact Hrun | exact (Hlen eq_refl)].
Defined.

(** ** The gain does not recover while the envelope is latched *)

Lemma smooth_active_falls (g : Q) : 4 # 10 <= g -> smooth g true <= g.
Proof. intros H. unfold smooth, target_of, rate_of. lra. Qed.

Lemma spec_ducking_nth_range (active : list bool) (k : nat) :
  (k < length active)%nat ->
  4 # 10 <= nth k (spec_ducking active) 1 <= 1.
Proof.
  intros Hk. pose proof (spec_ducking_in_range active) as H.
  rewrite Forall_forall in H. apply H. apply nth_In.
  now rewrite spec_ducking_length.
Qed.

(** Over a stretch of active samples the gain only falls. *)
Lemma spec_ducking_falls (active : list bool) (p d : nat) :
  (p + d < length active)%nat ->
  (forall k, (p < k <= p + d)%nat -> nth_error active k = Some true) ->
  nth (p + d) (spec_ducking active) 1 <= nth p (spec_ducking active) 1.
Proof.
  induction d as [|d IH]; intros Hq Hact.
  - rewrite Nat.add_0_r. apply Qle_refl.
  - apply Qle_trans with (nth (p + d) (spec_ducking active) 1).
    + replace (p + S d)%nat with (S (p + d)) by lia.
      destruct (spec_ducking_step active (p + d) true) as (g & Hg & Hs).
      { apply Hact. lia. }
      rewrite (nth_error_nth _ _ 1 Hs).
      pose proof (spec_ducking_nth_range active (p + d) ltac:(lia)) as Hr.
      rewrite (nth_error_nth _ _ 1 Hg) in Hr |- *.
      apply smooth_active_falls. apply Hr.
    + apply IH; [lia|]. intros k Hk. apply Hact. lia.
Qed.

Section GainLatch.
Context {ext : Externals}.

(** Once the vocal has been active the backing track is not released.
    For a vocal at least as long as the backing track, [_apply_sidechain]
    returns the track multiplied by gains such that, from any sample at
    which the envelope exceeds 0.01, the gain never rises again at a later
    sample of the range the windows cover, which ends at most 1102 samples
    before the end of the vocal: it keeps falling towards 0.4 whatever the
    vocal does afterwards. *)
Theorem gain_never_recovers_while_covered (music vocals : list Q) :
  (length music <= length vocals)%nat ->
  exists (envelope gains : list Q) (covered : nat),
    vocal_envelope_of vocals SAMPLE_RATE = Ok envelope /\
    _apply_sidechain music vocals SAMPLE_RATE = Ok (map2 Qmult music gains) /\
    length gains = length music /\
    ((2205 < len vocals)%Z ->
     (len vocals - 1102 <= Z.of_nat covered < len vocals)%Z) /\
    (forall p q,
        (p <= q < covered)%nat -> (q < length music)%nat ->
        1 # 100 < nth p envelope 0 ->
        nth q gains 1 <= nth p gains 1).
Proof.
  intros Hlen.
  destruct (vocal_envelope_running_max vocals)
    as (envelope & covered & He & Le & _ & Hcov & _ & Hlatch & _).
  set (active := map (fun e => Qltb (1 # 100) e) envelope).
  assert (La : length active = length vocals).
  { unfold active. now rewrite length_map. }
  set (gains := spec_ducking (firstn (length music) active)).
  assert (Lg : length gains = length music).
  { unfold gains. rewrite spec_ducking_length, length_firstn. lia. }
  exists envelope, gains, covered.
  split; [exact He|]. split; [|split; [exact Lg | split; [exact Hcov|]]].
  - apply (apply_sidechain_steps music vocals SAMPLE_RATE envelope gains He);
      [|now symmetry].
    apply ducking_curve_refines. fold active. lia.
  - intros p q Hpq Hq Hp. apply Qltb_lt in Hp.
    replace q with (p + (q - p))%nat by lia. unfold gains.
    apply spec_ducking_falls.
    + rewrite length_firstn. lia.
    + intros k Hk. rewrite nth_error_firstn.
      destruct (Nat.ltb_spec k (length music)); [|lia].
      unfold active. rewrite nth_error_map.
      rewrite (nth_error_nth' envelope 0) by lia. cbn [option_map].
      f_equal. apply (Hlatch p k); [lia | exact Hp].
Qed.

End GainLatch.

Lemma Ok_inj {A : Type} (a b : A) : Ok a = Ok b -> a = b.
Proof. intros H. now injection H. Qed.

Lemma voice_then_silence_length : length voice_then_silence = Z.to_nat 48206.
Proof.
  unfold voice_then_silence. rewrite length_app, !repeat_length. lia.
Qed.

Lemma gain_never_recovers_while_covered_witness :
  exists (envelope gains : list Q),
    @vocal_envelope_of sample_ext voice_then_silence SAMPLE_RATE
      = Ok envelope /\
    @_apply_sidechain sample_ext (ones (Z.to_nat 48206)) voice_then_silence
       SAMPLE_RATE = Ok (map2 Qmult (ones (Z.to_nat 48206)) gains) /\
    1 # 100 < nth 0 envelope 0 /\
    nth (Z.to_nat 46305) gains 1 <= nth 0 gains 1.
Proof.
  destruct (@gain_never_recovers_while_covered sample_ext
              (ones (Z.to_nat 48206)) voice_then_silence)
    as (envelope & gains & covered & He & Hs & Lg & Hcov & Hlatch).
  - rewrite ones_length, voice_then_silence_length. lia.
  - destruct voice_then_silence_latched as (env' & rest & Ee & Le & Hsplit).
    rewrite He in Ee. apply Ok_inj in Ee. subst env'.
    assert (Hact : 1 # 100 < nth 0 envelope 0).
    { apply Qltb_lt.
      assert (E : nth_error (map (fun e => Qltb (1 # 100) e) envelope) 0
                  = Some true).
      { rewrite Hsplit, nth_error_app1 by (rewrite repeat_length; lia).
        apply nth_error_repeat. lia. }
      rewrite nth_error_map in E.
      destruct (nth_error envelope 0) as [e|] eqn:E0; [|discriminate].
      rewrite (nth_error_nth _ _ 0 E0). now injection E. }
    exists envelope, gains. split; [exact He|]. split; [exact Hs|].
    split; [exact Hact|].
    apply Hlatch; [|rewrite ones_length; lia | exact Hact].
    assert (Hl : (2205 < len voice_then_silence)%Z).
    { unfold len. rewrite voice_then_silence_length. lia. }
    specialize (Hcov Hl). unfold len in Hcov.
    rewrite voice_then_silence_length in Hcov. lia.
Defined.

(** ** Scales *)

(** Every scale the resolver can return, for a string or any other object:
    five degrees in strictly ascending order, the first within one hertz
    above the base frequency and the last below its octave.  The degree at
    index [len // 2], the one the pitch shift aims at, is therefore above
    the base frequency, and the indices [i % 5] and [(i + 2) % 5] of the
    chord pads always exist. *)
Theorem scales_are_ascending_within_an_octave (mood : option string) :
  exists base f0 f1 f2 f3 f4,
    get_melody_freqs_for_mood mood = (base, [f0; f1; f2; f3; f4]) /\
    0 < base /\ base <= f0 /\ f0 < base + 1 /\
    f0 < f1 /\ f1 < f2 /\ f2 < f3 /\ f3 < f4 /\ f4 < 2 * base /\
    get_item [f0; f1; f2; f3; f4] (len [f0; f1; f2; f3; f4] / 2)%Z = Ok f2.
Proof.
  unfold get_melody_freqs_for_mood.
  repeat match goal with
         | |- context [if ?c then _ else _] => destruct c
         end;
    do 6 eexists; (split; [reflexivity|]);
    repeat (split; [first [reflexivity | discriminate]|]); reflexivity.
Qed.


(** ** The amplitude of a note *)

Lemma splice_Forall {A : Type} (P : A -> Prop) (a v : list A) (lo m : nat) :
  Forall P a -> Forall P v -> Forall P (splice a lo m v).
Proof.
  intros Ha Hv. unfold splice.
  apply Forall_app. split; [now apply Forall_firstn|].
  apply Forall_app. split; [exact Hv | now apply Forall_skipn].
Qed.

Lemma broadcast_to_Forall (P : Q -> Prop) (m : nat) (v v' : list Q) :
  broadcast_to m v = Ok v' -> Forall P v -> Forall P v'.
Proof.
  unfold broadcast_to. destruct (length v =? m)%nat.
  - intros H; inversion H; subst; auto.
  - destruct v as [|x [|? ?]]; try discriminate.
    intros H Hv; inversion H; subst. inversion Hv; subst.
    now apply Forall_repeat.
Qed.

Lemma set_slice_Forall (P : Q -> Prop) (a v a' : list Q)
  (start stop : option Z) :
  set_slice a start stop v = Ok a' -> Forall P a -> Forall P v -> Forall P a'.
Proof.
  unfold set_slice. destruct (slice_bounds (length a) start stop) as [lo hi].
  destruct (broadcast_to (hi - lo) v) as [v'|] eqn:E; [|discriminate].
  cbn [bind]. intros H Ha Hv. inversion H; subst.
  apply splice_Forall; [exact Ha|]. exact (broadcast_to_Forall P _ _ _ E Hv).
Qed.

Lemma fill_slice_Forall (P : Q -> Prop) (a : list Q) (start stop : option Z)
  (x : Q) :
  Forall P a -> P x -> Forall P (fill_slice a start stop x).
Proof.
  intros Ha Hx. unfold fill_slice.
  destruct (slice_bounds (length a) start stop) as [lo hi].
  apply splice_Forall; [exact Ha | now apply Forall_repeat].
Qed.

(** The points of [np.linspace(a, b, n)] lie between its end points. *)
Lemma np_linspace_between (a b lo hi : Q) (n : Z) (l : list Q) :
  lo <= a <= hi -> lo <= b <= hi ->
  np_linspace a b n = Ok l -> Forall (fun x => lo <= x <= hi) l.
Proof.
  intros Ha Hb. unfold np_linspace.
  destruct (Z.ltb_spec n 0); [discriminate|].
  destruct (Z.eqb_spec n 1) as [->|Hn1].
  - intros E; inversion E; subst. constructor; [exact Ha | constructor].
  - intros E; inversion E; subst. clear E.
    apply Forall_forall. intros x Hx.
    apply in_map_iff in Hx as (k & <- & Hk). apply in_seq in Hk.
    assert (Hm : 0 < inject_Z (n - 1)).
    { change 0 with (inject_Z 0). rewrite <- Zlt_Qlt. lia. }
    set (t := inject_Z (Z.of_nat k) / inject_Z (n - 1)).
    assert (Ht : 0 <= t <= 1).
    { unfold t. split.
      - apply Qle_shift_div_l; [exact Hm|]. rewrite Qmult_0_l.
        change 0 with (inject_Z 0). rewrite <- Zle_Qle. lia.
      - apply Qle_shift_div_r; [exact Hm|]. rewrite Qmult_1_l.
        rewrite <- Zle_Qle. lia. }
    assert (Ex : inject_Z (Z.of_nat k) * ((b - a) / inject_Z (n - 1)) + a
                == a + t * (b - a)).
    { unfold t. field. intros E0. rewrite E0 in Hm. discriminate. }
    rewrite Ex. destruct Ha, Hb, Ht. split; nra.
Qed.

(** The envelope of lines 144 to 160 stays within [0, 1], whenever it is
    built. *)
Lemma adsr_envelope_unit (n : nat) (sr : Z) (envelope : list Q) :
  adsr_envelope n sr = Ok envelope ->
  Forall (fun e => 0 <= e <= 1) envelope.
Proof.
  unfold adsr_envelope. cbv zeta.
  set (P := fun e : Q => 0 <= e <= 1).
  assert (P1 : Forall P (ones n)).
  { apply Forall_repeat. split; discriminate. }
  assert (Hin : forall a b m l, P a -> P b -> np_linspace a b m = Ok l ->
                                Forall P l).
  { intros a b m l Ha Hb. apply np_linspace_between; assumption. }
  assert (U0 : P 0) by (split; discriminate).
  assert (U1 : P 1) by (split; discriminate).
  assert (U7 : P (7 # 10)) by (split; discriminate).
  (* attack *)
  assert (S1 : forall c m e1,
             (if c : bool
              then (ramp <- np_linspace 0 1 m ;;
                    set_slice (ones n) None (Some m) ramp)%py
              else Ok (ones n)) = Ok e1 -> Forall P e1).
  { intros c m e1. destruct c; [|intros H; now inversion H; subst].
    destruct (np_linspace 0 1 m) as [r|] eqn:Er; [|discriminate].
    cbn [bind]. intros E1.
    exact (set_slice_Forall P _ _ _ _ _ E1 P1 (Hin _ _ _ _ U0 U1 Er)). }
  assert (S2 : forall c m i j e1 e2, Forall P e1 ->
             (if c : bool
              then (ramp <- np_linspace 1 (7 # 10) m ;;
                    set_slice e1 i j ramp)%py
              else Ok e1) = Ok e2 -> Forall P e2).
  { intros c m i j e1 e2 F1. destruct c; [|intros H; now inversion H; subst].
    destruct (np_linspace 1 (7 # 10) m) as [r|] eqn:Er; [|discriminate].
    cbn [bind]. intros E2.
    exact (set_slice_Forall P _ _ _ _ _ E2 F1 (Hin _ _ _ _ U1 U7 Er)). }
  assert (S4 : forall c m i e3 e4, Forall P e3 ->
             (if c : bool
              then (ramp <- np_linspace (7 # 10) 0 m ;;
                    set_slice e3 i None ramp)%py
              else Ok e3) = Ok e4 -> Forall P e4).
  { intros c m i e3 e4 F3. destruct c; [|intros H; now inversion H; subst].
    destruct (np_linspace (7 # 10) 0 m) as [r|] eqn:Er; [|discriminate].
    cbn [bind]. intros E4.
    exact (set_slice_Forall P _ _ _ _ _ E4 F3 (Hin _ _ _ _ U7 U0 Er)). }
  match goal with
  | |- (bind ?c1 _) = _ -> _ => destruct c1 as [e1|] eqn:E1; [|discriminate]
  end.
  apply S1 in E1. cbn [bind].
  match goal with
  | |- (bind ?c2 _) = _ -> _ => destruct c2 as [e2|] eqn:E2; [|discriminate]
  end.
  apply (S2 _ _ _ _ _ _ E1) in E2. cbn [bind].
  intros E4. apply (S4 _ _ _ _ _) in E4; [exact E4|].
  match goal with
  | |- Forall P (if ?c then _ else _) => destruct c
  end; [now apply fill_slice_Forall | exact E2].
Qed.

Lemma map2_Forall {A B C : Type} (PA : A -> Prop) (PB : B -> Prop)
  (PC : C -> Prop) (f : A -> B -> C) (a : list A) (b : list B) :
  (forall x y, PA x -> PB y -> PC (f x y)) ->
  Forall PA a -> Forall PB b -> Forall PC (map2 f a b).
Proof.
  intros Hf Ha. revert b. induction Ha as [|x a Hx _ IH]; intros b Hb.
  - constructor.
  - destruct Hb as [|y b Hy Hb]; simpl; constructor; auto.
Qed.

Ltac triangle_of x :=
  lazymatch x with
  | (?a + ?b)%Q => pose proof (Qabs_triangle a b); triangle_of a
  | _ => idtac
  end.

Section ToneAmplitude.
Context {ext : Externals}.

Lemma harmonic_bounded (weight freq k t : Q) :
  (forall x, Qabs (np_sin x) <= 1) -> 0 <= weight ->
  Qabs (harmonic weight freq k t) <= weight.
Proof.
  intros Hsin Hw. unfold harmonic. rewrite Qabs_Qmult.
  rewrite (Qabs_pos weight Hw).
  pose proof (Hsin (2 * np_pi * freq * k * t)) as H1.
  pose proof (Qabs_nonneg (np_sin (2 * np_pi * freq * k * t))) as H0.
  nra.
Qed.

(** With a sine that stays within [-1, 1], no sample of a note exceeds the
    sum of the weights of its partials (1.875 for the synth, 1.4 for the
    bass, 1.8 for the pad, which is also what any other instrument name
    gives): the envelope by which the partials are multiplied stays within
    [0, 1].  Stated for notes of at least 4410 samples at 44100 Hz, which
    are the ones the generator returns. *)
Theorem tone_stays_within_its_partials (freq duration : Q)
  (instrument_type : string) :
  (forall x, Qabs (np_sin x) <= 1) ->
  (4410 <= py_int (inject_Z SAMPLE_RATE * duration))%Z ->
  exists note,
    _generate_instrument freq duration SAMPLE_RATE instrument_type = Ok note /\
    Forall (fun x => Qabs x <= partials_sum instrument_type) note.
Proof.
  unfold SAMPLE_RATE. intros Hsin Hn. unfold _generate_instrument. cbv zeta.
  destruct (np_linspace_length 0 duration
              (py_int (inject_Z 44100 * duration)))
    as (t & -> & Lt); [lia|].
  cbn [bind].
  set (signal := if String.eqb instrument_type "synth" then _ else _).
  assert (Ls : length signal = length t).
  { unfold signal. destruct (String.eqb instrument_type "synth");
      [|destruct (String.eqb instrument_type "bass")]; apply length_map. }
  assert (Fs : Forall (fun x => Qabs x <= partials_sum instrument_type) signal).
  { unfold signal, partials_sum.
    destruct (String.eqb instrument_type "synth");
      [|destruct (String.eqb instrument_type "bass")];
      apply Forall_forall; intros x Hx;
      apply in_map_iff in Hx as (u & <- & _).
    - pose proof (harmonic_bounded 1 freq 1 u Hsin ltac:(discriminate)).
      pose proof (harmonic_bounded (1 # 2) freq 2 u Hsin ltac:(discriminate)).
      pose proof (harmonic_bounded (1 # 4) freq 3 u Hsin ltac:(discriminate)).
      pose proof (harmonic_bounded (1 # 8) freq 4 u Hsin ltac:(discriminate)).
      match goal with |- Qabs ?x <= _ => triangle_of x end; lra.
    - pose proof (harmonic_bounded 1 freq 1 u Hsin ltac:(discriminate)).
      pose proof (harmonic_bounded (3 # 10) freq 2 u Hsin ltac:(discriminate)).
      pose proof (harmonic_bounded (1 # 10) freq 4 u Hsin ltac:(discriminate)).
      match goal with |- Qabs ?x <= _ => triangle_of x end; lra.
    - pose proof (harmonic_bounded (8 # 10) freq 1 u Hsin ltac:(discriminate)).
      pose proof (harmonic_bounded (4 # 10) freq 2 u Hsin ltac:(discriminate)).
      pose proof (harmonic_bounded (3 # 10) freq 3 u Hsin ltac:(discriminate)).
      pose proof (harmonic_bounded (2 # 10) freq 5 u Hsin ltac:(discriminate)).
      pose proof (harmonic_bounded (1 # 10) freq 7 u Hsin ltac:(discriminate)).
      match goal with |- Qabs ?x <= _ => triangle_of x end; lra. }
  destruct (adsr_envelope_long (length signal)) as (envelope & He & Le); [lia|].
  rewrite He. cbn [bind]. unfold vmul.
  rewrite binop_same_length by congruence.
  eexists. split; [reflexivity|].
  apply (map2_Forall (fun x => Qabs x <= partials_sum instrument_type)
           (fun e => 0 <= e <= 1)); [|exact Fs|].
  - intros x e Hx [He0 He1]. rewrite Qabs_Qmult, (Qabs_pos e He0).
    assert (H0 : 0 <= Qabs x) by apply Qabs_nonneg.
    unfold partials_sum in *. nra.
  - exact (adsr_envelope_unit _ _ _ He).
Qed.

End ToneAmplitude.

Lemma unit_sine_bounded (x : Q) : Qabs (@np_sin unit_sine_ext x) <= 1.
Proof.
  cbn [np_sin unit_sine_ext]. apply Qabs_Qle_condition. split.
  - apply Q.min_glb; [apply Q.le_max_r | discriminate].
  - apply Q.le_min_r.
Qed.

Lemma tone_stays_within_its_partials_witness :
  exists note,
    @_generate_instrument unit_sine_ext 440 (1 # 10) SAMPLE_RATE "bass" = Ok note /\
    Forall (fun x => Qabs x <= 14 # 10) note.
Proof.
  apply (@tone_stays_within_its_partials unit_sine_ext 440 (1 # 10) "bass").
  - exact unit_sine_bounded.
  - vm_compute. discriminate.
Defined.

(** ** The vibrato of the vocal stage *)

Lemma cumsum_from_length (acc : Q) (a : list Q) :
  length (cumsum_from acc a) = length a.
Proof.
  revert acc; induction a as [|x a IH]; intros acc; simpl; auto.
Qed.

Lemma map2_Forall2 {A B : Type} (R : A -> A -> Prop) (f : A -> B -> A)
  (a : list A) (b : list B) :
  length a = length b -> (forall x y, R x (f x y)) ->
  Forall2 R a (map2 f a b).
Proof.
  intros L Hf. revert b L. induction a as [|x a IH]; intros [|y b] L;
    simpl in *; try discriminate; constructor; auto.
Qed.

Section Vibrato.
Context {ext : Externals}.

(** What lines 85 to 92 do to the pitch-shifted vocal, with a sine that
    stays within [-1, 1]: in every run of [apply_vocal_effects] that returns
    [True], the buffer handed to the effects chain is the output of
    [pitch_shift] for that run with every sample multiplied by a factor
    between 0.98 and 1.02.  The step keeps the length and changes each
    sample's level by at most 2 %. *)
Theorem vibrato_changes_level_by_two_percent (audio_path : string)
  (mood : option string) (w w' : world ext) :
  (forall x, Qabs (np_sin x) <= 1) ->
  apply_vocal_effects audio_path mood w = (Ok true, w') ->
  exists (y : list Q) (sr : Z) (y1 : list Q) (w1 : world ext) (shift : Q)
         (y_shifted y_effected : list Q) (peak : Q),
    librosa_load (files w) audio_path SAMPLE_RATE = Ok (y, sr) /\
    _apply_singing_timing y sr w = (Ok y1, w1) /\
    semitones_shift mood = Ok shift /\
    pitch_shift y1 sr shift = Ok y_shifted /\
    run_board vocal_board (add_vibrato y_shifted sr) sr = Ok y_effected /\
    np_max_abs y_effected = Ok peak /\
    sf_write (files w) audio_path (vdiv y_effected (peak + (1 # 100))) sr
      = (Ok tt, files w') /\
    length (add_vibrato y_shifted sr) = length y_shifted /\
    Forall2 (fun s v => Qabs (v - s) <= (2 # 100) * Qabs s)
      y_shifted (add_vibrato y_shifted sr).
Proof.
  intros Hsin H.
  destruct (vocal_effects_true_run audio_path mood w w' H)
    as (y & sr & y1 & w1 & shift & y_shifted & y_effected & peak
        & Hl & Ht & Hs & Hp & Hb & Hm & Hw).
  exists y, sr, y1, w1, shift, y_shifted, y_effected, peak.
  repeat (split; [assumption|]).
  assert (L : length y_shifted
              = length (map (fun c => c * 2 * np_pi * 100)
                  (np_cumsum
                     (map (fun v => v / inject_Z sr)
                        (map (fun x => (3 # 10)
                                       * np_sin (2 * np_pi * (55 # 10) * x))
                           (map (fun k => inject_Z (Z.of_nat k) / inject_Z sr)
                              (seq 0 (length y_shifted)))))))).
  { unfold np_cumsum.
    now rewrite length_map, cumsum_from_length, !length_map, length_seq. }
  unfold add_vibrato. cbv zeta. split.
  - rewrite map2_length, <- L. apply Nat.min_id.
  - apply map2_Forall2; [exact L|].
    intros s p.
    assert (E : s * (1 + (2 # 100) * np_sin p) - s
                == s * ((2 # 100) * np_sin p)) by ring.
    rewrite E, !Qabs_Qmult. change (Qabs (2 # 100)) with (2 # 100).
    pose proof (Hsin p). pose proof (Qabs_nonneg s).
    pose proof (Qabs_nonneg (np_sin p)). nra.
Qed.

End Vibrato.

Lemma unit_sine_vocal_run :
  fst (@apply_vocal_effects unit_sine_ext "vocal.wav" (Some "calm"%string)
         (@World unit_sine_ext two_byte_vocal 0%Z 0%Z)) = Ok true.
Proof. vm_compute. reflexivity. Qed.

Lemma vibrato_changes_level_by_two_percent_witness :
  exists (y : list Q) (sr : Z) (y1 : list Q) (w1 : world unit_sine_ext)
         (shift : Q) (y_shifted y_effected : list Q) (peak : Q),
    @librosa_load unit_sine_ext two_byte_vocal "vocal.wav" SAMPLE_RATE
      = Ok (y, sr) /\
    @_apply_singing_timing unit_sine_ext y sr
       (@World unit_sine_ext two_byte_vocal 0%Z 0%Z) = (Ok y1, w1) /\
    @semitones_shift unit_sine_ext (Some "calm"%string) = Ok shift /\
    @pitch_shift unit_sine_ext y1 sr shift = Ok y_shifted /\
    @run_board unit_sine_ext vocal_board
       (@add_vibrato unit_sine_ext y_shifted sr) sr = Ok y_effected /\
    np_max_abs y_effected = Ok peak /\
    @sf_write unit_sine_ext two_byte_vocal "vocal.wav"
       (vdiv y_effected (peak + (1 # 100))) sr
      = (Ok tt,
         files (snd (@apply_vocal_effects unit_sine_ext "vocal.wav"
                       (Some "calm"%string)
                       (@World unit_sine_ext two_byte_vocal 0%Z 0%Z)))) /\
    length (@add_vibrato unit_sine_ext y_shifted sr) = length y_shifted /\
    Forall2 (fun s v => Qabs (v - s) <= (2 # 100) * Qabs s)
      y_shifted (@add_vibrato unit_sine_ext y_shifted sr).
Proof.
  apply (@vibrato_changes_level_by_two_percent unit_sine_ext "vocal.wav"
           (Some "calm"%string) (@World unit_sine_ext two_byte_vocal 0%Z 0%Z)).
  - exact unit_sine_bounded.
  - rewrite <- unit_sine_vocal_run. apply surjective_pairing.
Defined.
